(** * AdGuard VPN speed-test orchestrator: a model of [speedtest.py]

    The script drives an external VPN client through every location it
    offers, measures throughput through the local SOCKS proxy and appends
    one CSV row per measured location.  This development embeds the script
    function by function and settles the properties its specification
    states about it.

    Layout:
    - [PyStr]: the string operations the script uses ([splitlines],
      [strip], the character classes of [re]);
    - [Re]: the fragment of Python's backtracking regular expressions that
      [location_pattern] is written in, with its declarative meaning;
    - [Py]: exceptions, the state-and-exception monad, [try]/[except]/
      [finally];
    - [Script]: the script itself;
    - [Props]: the vocabulary of the properties and the concrete machine
      they are exercised on;
    - [ReFacts], [CatalogFacts]: the matcher and the catalog parse;
    - [PyFacts], [Frames]: Hoare rules and frame lemmas;
    - [CycleFacts], [ResumeFacts], [LoopFacts], [StoreFacts], [MainFacts]:
      the measurement cycle, the resume set, the loop, the result file
      and whole runs. *)

From Stdlib Require Import ZArith Ascii String List Bool Lia.
From stdpp Require Import base tactics option list strings gmap.

Local Open Scope list_scope.

(* ===================================================================== *)
(** * Strings *)
(* ===================================================================== *)

(** A Python [str] is a sequence of code points.  The model keeps the code
    points below 256 (type [ascii]); the character classes below are
    Python's restricted to that range. *)
Module PyStr.

Definition chars := list ascii.

Definition code (c : ascii) : nat := nat_of_ascii c.

(** [str.isspace] on one character, which is also what [\s] matches in a
    [str] pattern: TAB..CR, FS..US, SPACE, NEL and NBSP. *)
Definition isspace (c : ascii) : bool :=
  let n := code c in
  ((9 <=? n) && (n <=? 13)) || ((28 <=? n) && (n <=? 32))
  || (n =? 133) || (n =? 160).

(** [\d]: the decimal digits. *)
Definition isdigit (c : ascii) : bool :=
  let n := code c in (48 <=? n) && (n <=? 57).

(** [[A-Z]]. *)
Definition isupper_AZ (c : ascii) : bool :=
  let n := code c in (65 <=? n) && (n <=? 90).

(** [.] without DOTALL: anything but a line feed. *)
Definition isdot (c : ascii) : bool := negb (code c =? 10).

(** The plain space character, U+0020. *)
Definition is_blank (c : ascii) : bool := code c =? 32.

(** Line boundaries of [str.splitlines]: LF, VT, FF, CR, FS, GS, RS, NEL
    (CR LF counts as one boundary). *)
Definition is_linebreak (c : ascii) : bool :=
  let n := code c in
  ((10 <=? n) && (n <=? 13)) || ((28 <=? n) && (n <=? 30)) || (n =? 133).

(** [str.splitlines()]: [cur] is the current line, reversed. *)
Fixpoint splitlines_from (cur : chars) (s : chars) : list chars :=
  match s with
  | [] => match cur with [] => [] | _ => [rev cur] end
  | c :: s' =>
      if is_linebreak c then
        rev cur ::
          match s' with
          | d :: s'' =>
              if (code c =? 13) && (code d =? 10)
              then splitlines_from [] s''
              else splitlines_from [] s'
          | [] => splitlines_from [] s'
          end
      else splitlines_from (c :: cur) s'
  end.

Definition splitlines (s : string) : list chars :=
  splitlines_from [] (list_ascii_of_string s).

(** [str.strip()]: drop white space at both ends. *)
Fixpoint lstrip (s : chars) : chars :=
  match s with
  | c :: s' => if isspace c then lstrip s' else s
  | [] => []
  end.

Definition strip (s : chars) : string :=
  string_of_list_ascii (rev (lstrip (rev (lstrip s)))).

End PyStr.

(* ===================================================================== *)
(** * The regular expressions of [location_pattern] *)
(* ===================================================================== *)

Module Re.
Import PyStr.

(** The fragment of [re] syntax the script uses: anchors, a repeated
    character class [c{min,max}] (greedy or lazy), capture groups and
    concatenation.  Groups are not nested, so they close in the order
    in which they are numbered. *)
Inductive regex :=
| Bol
| Eol
| Rep (cls : ascii -> bool) (min : nat) (max : option nat) (greedy : bool)
| Group (r : regex)
| Seq (r1 r2 : regex).

Definition captures := list chars.

Definition has_room (room : option nat) : bool :=
  match room with Some O => false | _ => true end.

Definition less_room (room : option nat) : option nat :=
  match room with Some n => Some (pred n) | None => None end.

(** One repeated class, by backtracking: a greedy repetition first tries
    to take one more character and gives it back when the rest of the
    pattern (the continuation [k]) fails; a lazy one first tries to stop. *)
Fixpoint rep {A} (cls : ascii -> bool) (greedy : bool)
    (need : nat) (room : option nat) (pos : nat) (s : chars)
    (k : nat -> chars -> option A) {struct s} : option A :=
  let stop := match need with O => k pos s | S _ => None end in
  let more :=
    match s with
    | c :: s' =>
        if cls c && has_room room
        then rep cls greedy (pred need) (less_room room) (S pos) s' k
        else None
    | [] => None
    end in
  if greedy
  then match more with Some x => Some x | None => stop end
  else match stop with Some x => Some x | None => more end.

(** [$] without MULTILINE: at the end, or just before a final line feed. *)
Definition at_eol (s : chars) : bool :=
  match s with
  | [] => true
  | [c] => code c =? 10
  | _ => false
  end.

(** The matcher, in continuation-passing style: [pos] is the offset of
    the remaining input [s]; [caps] are the groups closed so far. *)
Fixpoint run {A} (r : regex) (pos : nat) (s : chars) (caps : captures)
    (k : nat -> chars -> captures -> option A) : option A :=
  match r with
  | Bol => if pos =? 0 then k pos s caps else None
  | Eol => if at_eol s then k pos s caps else None
  | Rep cls min max greedy =>
      rep cls greedy min max pos s (fun pos' s' => k pos' s' caps)
  | Group r1 =>
      run r1 pos s caps
        (fun pos' s' caps' => k pos' s' (caps' ++ [firstn (pos' - pos) s]))
  | Seq r1 r2 =>
      run r1 pos s caps (fun pos1 s1 caps1 => run r2 pos1 s1 caps1 k)
  end.

(** [pattern.match(line)]: anchored at the start of [line], free at the
    end; the value is [match.groups()]. *)
Definition re_match (r : regex) (line : chars) : option captures :=
  run r 0 line [] (fun _ _ caps => Some caps).

(** ** Declarative meaning *)

Definition within (n : nat) (max : option nat) : Prop :=
  match max with Some m => n <= m | None => True end.

(** [den r pos s pos' s' g]: [r] can match from [s] (at offset [pos])
    up to [s'] (at offset [pos']), closing the groups [g]. *)
Fixpoint den (r : regex) (pos : nat) (s : chars) (pos' : nat) (s' : chars)
    (g : captures) : Prop :=
  match r with
  | Bol => pos = 0 /\ pos' = pos /\ s' = s /\ g = []
  | Eol => at_eol s = true /\ pos' = pos /\ s' = s /\ g = []
  | Rep cls min max _ =>
      exists w, s = w ++ s' /\ forallb cls w = true /\ min <= length w /\
                within (length w) max /\ pos' = pos + length w /\ g = []
  | Group r1 =>
      exists g1, den r1 pos s pos' s' g1 /\ g = g1 ++ [firstn (pos' - pos) s]
  | Seq r1 r2 =>
      exists pos1 s1 g1 g2,
        den r1 pos s pos1 s1 g1 /\ den r2 pos1 s1 pos' s' g2 /\ g = g1 ++ g2
  end.

End Re.

(* ===================================================================== *)
(** * Python control flow: exceptions, state, [try] *)
(* ===================================================================== *)

Module Py.

(** The exceptions the script raises, catches or lets through.
    [KeyboardInterrupt] and [SystemExit] derive from [BaseException]
    only; the others derive from [Exception]. *)
Inductive exn :=
| KeyboardInterrupt
| SystemExit (code : Z)
| StopIteration
| FileNotFoundError
| CalledProcessError (returncode : Z)
| OSError (what : string)
| OtherError (what : string).

(** [isinstance(e, Exception)]. *)
Definition is_Exception (e : exn) : bool :=
  match e with
  | KeyboardInterrupt | SystemExit _ => false
  | _ => true
  end.

Inductive result (A : Type) :=
| Ok (a : A)
| Raise (e : exn).
Arguments Ok {A} a.
Arguments Raise {A} e.

(** A computation over a state [W] that returns or raises. *)
Definition M (W A : Type) : Type := W -> result A * W.

Section Monad.
Context {W : Type}.

Definition ret {A} (a : A) : M W A := fun w => (Ok a, w).

Definition bind {A B} (m : M W A) (f : A -> M W B) : M W B :=
  fun w =>
    match m w with
    | (Ok a, w') => f a w'
    | (Raise e, w') => (Raise e, w')
    end.

Definition raise {A} (e : exn) : M W A := fun w => (Raise e, w).

Definition gets {A} (f : W -> A) : M W A := fun w => (Ok (f w), w).

Definition modify (f : W -> W) : M W unit := fun w => (Ok tt, f w).

(** [try: m  except ...: h]: [h e] is the body of the first clause
    that catches [e], if any. *)
Definition try_except {A} (m : M W A) (h : exn -> option (M W A)) : M W A :=
  fun w =>
    match m w with
    | (Ok a, w') => (Ok a, w')
    | (Raise e, w') =>
        match h e with
        | Some handler => handler w'
        | None => (Raise e, w')
        end
    end.

(** [try: m  finally: f]: [f] always runs; what it raises replaces the
    outcome of [m]. *)
Definition try_finally {A} (m : M W A) (f : M W unit) : M W A :=
  fun w =>
    let (r, w1) := m w in
    match f w1 with
    | (Ok _, w2) => (r, w2)
    | (Raise e, w2) => (Raise e, w2)
    end.

(** [sys.exit(code)]. *)
Definition sys_exit {A} (code : Z) : M W A := raise (SystemExit code).

End Monad.

(** The status the interpreter exits with when the script's entry point
    ends in [r]: 0 on return, the code of an uncaught [SystemExit], 130
    after an uncaught [KeyboardInterrupt], 1 after any other uncaught
    exception. *)
Definition exit_status {A} (r : result A) : Z :=
  match r with
  | Ok _ => 0
  | Raise (SystemExit code) => code
  | Raise KeyboardInterrupt => 130
  | Raise _ => 1
  end.

Declare Scope py_scope.
Delimit Scope py_scope with py.
Notation "x ← y ; z" := (bind y (fun x => z))
  (at level 20, y at level 100, z at level 200, only parsing) : py_scope.
Notation "x ;; z" := (bind x (fun _ => z))
  (at level 100, z at level 200, only parsing, right associativity) : py_scope.

End Py.

(* ===================================================================== *)
(** * The script *)
(* ===================================================================== *)

Module Script.
Import PyStr Re Py.
Local Open Scope py_scope.

(** ** Configuration constants *)

Definition ADGUARD_CLI_PATH : string := "/opt/adguardvpn_cli/adguardvpn-cli".
Definition SOCKS_HOST : string := "127.0.0.1".
Definition SOCKS_PORT : Z := 1080.

(** ** Data *)

(** An insertion-ordered Python [dict] with string keys. *)
Definition dict (V : Type) := list (string * V).

Fixpoint dict_get {V} (k : string) (d : dict V) : option V :=
  match d with
  | [] => None
  | (k', v) :: d' => if String.eqb k k' then Some v else dict_get k d'
  end.

(** [d[k] = v]: an existing key keeps its position. *)
Fixpoint dict_set {V} (k : string) (v : V) (d : dict V) : dict V :=
  match d with
  | [] => [(k, v)]
  | (k', v') :: d' =>
      if String.eqb k k' then (k', v) :: d' else (k', v') :: dict_set k v d'
  end.

(** [dict(pairs)]. *)
Definition dict_of_pairs {V} (l : list (string * V)) : dict V :=
  fold_left (fun d kv => dict_set (fst kv) (snd kv) d) l [].

(** [{**d1, **d2}]. *)
Definition dict_merge {V} (d1 d2 : dict V) : dict V :=
  fold_left (fun d kv => dict_set (fst kv) (snd kv) d) d2 d1.

Definition dict_keys {V} (d : dict V) : list string := map fst d.

(** One VPN location, the dict built in [get_locations]. *)
Record Location := {
  ISO : string;
  Country : string;
  City : string;
  Ping_Estimate : string
}.

Definition location_items (l : Location) : dict string :=
  [("ISO", ISO l); ("Country", Country l); ("City", City l);
   ("Ping Estimate", Ping_Estimate l)].

(** A CSV row as [csv.reader] yields it and [csv.writer] takes it; cell
    values are kept as the text [str()] gives. *)
Definition row := list string.

(** A file of the working directory, seen through the [csv] module:
    its rows, and where reading it fails, if it does: with
    [corrupt = Some (n, e)] a reader yields the first [n] rows and then
    raises [e]. *)
Record csvfile := {
  mtime : Z;
  rows : list row;
  corrupt : option (nat * exn)
}.

(** A node of the configuration tree. *)
#[warnings="-register-all"] Inductive node :=
| File (content : string)
| Dir (entries : list (string * node)).

(** The three configuration paths of [main]. *)
Inductive path :=
| source_config_path (original_user : string)
| dest_config_path
| dest_backup_path.

Definition basename (p : path) : string :=
  match p with
  | dest_backup_path => "adguardvpn-cli.bak"
  | _ => "adguardvpn-cli"
  end.

Record ConfigFs := {
  home_config : string -> option node;
  root_config : option node;
  root_backup : option node
}.

Definition fs_read (p : path) (f : ConfigFs) : option node :=
  match p with
  | source_config_path u => home_config f u
  | dest_config_path => root_config f
  | dest_backup_path => root_backup f
  end.

Definition fs_write (p : path) (v : option node) (f : ConfigFs) : ConfigFs :=
  match p with
  | source_config_path u =>
      {| home_config := fun u' => if String.eqb u u' then v else home_config f u';
         root_config := root_config f; root_backup := root_backup f |}
  | dest_config_path =>
      {| home_config := home_config f; root_config := v;
         root_backup := root_backup f |}
  | dest_backup_path =>
      {| home_config := home_config f; root_config := root_config f;
         root_backup := v |}
  end.

(** [socket.socket] holds one of two classes. *)
Inductive sock_ctor := plain_socket | socksocket.

(** How a new connection of the process leaves the machine. *)
Inductive route := Direct | ViaSocks5 (host : string) (port : Z).

Inductive st_op :=
| st_Speedtest | st_get_servers | st_get_best_server | st_download | st_upload.

(** The calls that leave the script: each may block, fail or be
    interrupted. *)
Inductive call :=
| subprocess_run (command : list string)
| shutil_move (src dst : path)
| shutil_copytree (src dst : path)
| shutil_rmtree (p : path)
| open_file (name : string) (mode : string)
| flush_file (name : string)
| speedtest (op : st_op) (via : route).

Inductive level := DEBUG | INFO | WARNING | ERROR | CRITICAL | STDOUT.

(** Log records.  [Note] stands for the progress lines no property
    depends on. *)
Inductive msg :=
| Note (text : string)
| Exec (command : list string)
| CmdNotFound (name : string)
| CmdFailed (command : list string) (returncode : Z)
| CmdError (e : exn)
| StartTest (location : Location)
| Connected (iso : string)
| ConnectFailed (iso : string)
| Measured (iso : string) (speed_results : dict string)
| MeasureError (iso : string) (e : exn)
| Saved (file : string)
| Skipping (i total : nat) (location : Location)
| Processing (i total : nat) (location : Location)
| FoundFile (file : string)
| Loaded (file : string) (n : nat)
| ReadError (e : exn)
| Interrupted (e : exn)
| Fatal (e : exn).

(** ** The process state *)

Record World := {
  clock : nat;                       (* external calls made so far *)
  trace : list call;                 (* the calls, oldest first *)
  log : list (level * msg);
  fs : ConfigFs;
  socket_socket : sock_ctor;         (* socket.socket *)
  default_proxy : option (string * Z);  (* socks' default proxy *)
  cwd : list (string * csvfile);     (* os.listdir('.') with contents *)
  RESULTS_CSV_FILE : string;
  fieldnames : list string;          (* csv_writer.fieldnames *)
  is_new_file : bool                 (* is_new_file[0] *)
}.

Definition tick (c : call) (w : World) : World :=
  {| clock := S (clock w); trace := trace w ++ [c]; log := log w; fs := fs w;
     socket_socket := socket_socket w; default_proxy := default_proxy w;
     cwd := cwd w; RESULTS_CSV_FILE := RESULTS_CSV_FILE w;
     fieldnames := fieldnames w; is_new_file := is_new_file w |}.

Definition set_log (v : list (level * msg)) (w : World) : World :=
  {| clock := clock w; trace := trace w; log := v; fs := fs w;
     socket_socket := socket_socket w; default_proxy := default_proxy w;
     cwd := cwd w; RESULTS_CSV_FILE := RESULTS_CSV_FILE w;
     fieldnames := fieldnames w; is_new_file := is_new_file w |}.

Definition set_fs (v : ConfigFs) (w : World) : World :=
  {| clock := clock w; trace := trace w; log := log w; fs := v;
     socket_socket := socket_socket w; default_proxy := default_proxy w;
     cwd := cwd w; RESULTS_CSV_FILE := RESULTS_CSV_FILE w;
     fieldnames := fieldnames w; is_new_file := is_new_file w |}.

Definition set_socket_socket (v : sock_ctor) (w : World) : World :=
  {| clock := clock w; trace := trace w; log := log w; fs := fs w;
     socket_socket := v; default_proxy := default_proxy w;
     cwd := cwd w; RESULTS_CSV_FILE := RESULTS_CSV_FILE w;
     fieldnames := fieldnames w; is_new_file := is_new_file w |}.

Definition set_default_proxy (v : option (string * Z)) (w : World) : World :=
  {| clock := clock w; trace := trace w; log := log w; fs := fs w;
     socket_socket := socket_socket w; default_proxy := v;
     cwd := cwd w; RESULTS_CSV_FILE := RESULTS_CSV_FILE w;
     fieldnames := fieldnames w; is_new_file := is_new_file w |}.

Definition set_cwd (v : list (string * csvfile)) (w : World) : World :=
  {| clock := clock w; trace := trace w; log := log w; fs := fs w;
     socket_socket := socket_socket w; default_proxy := default_proxy w;
     cwd := v; RESULTS_CSV_FILE := RESULTS_CSV_FILE w;
     fieldnames := fieldnames w; is_new_file := is_new_file w |}.

Definition set_RESULTS_CSV_FILE (v : string) (w : World) : World :=
  {| clock := clock w; trace := trace w; log := log w; fs := fs w;
     socket_socket := socket_socket w; default_proxy := default_proxy w;
     cwd := cwd w; RESULTS_CSV_FILE := v;
     fieldnames := fieldnames w; is_new_file := is_new_file w |}.

Definition set_fieldnames (v : list string) (w : World) : World :=
  {| clock := clock w; trace := trace w; log := log w; fs := fs w;
     socket_socket := socket_socket w; default_proxy := default_proxy w;
     cwd := cwd w; RESULTS_CSV_FILE := RESULTS_CSV_FILE w;
     fieldnames := v; is_new_file := is_new_file w |}.

Definition set_is_new_file (v : bool) (w : World) : World :=
  {| clock := clock w; trace := trace w; log := log w; fs := fs w;
     socket_socket := socket_socket w; default_proxy := default_proxy w;
     cwd := cwd w; RESULTS_CSV_FILE := RESULTS_CSV_FILE w;
     fieldnames := fieldnames w; is_new_file := v |}.

(** The route a connection opened now would take: through the default
    proxy when [socket.socket] is the SOCKS class and a proxy is set. *)
Definition current_route (w : World) : route :=
  match socket_socket w, default_proxy w with
  | socksocket, Some (host, port) => ViaSocks5 host port
  | _, _ => Direct
  end.

(** ** The environment *)

(** What the script cannot decide: who runs it, and how each external
    call turns out.  Calls are numbered by [clock]. *)
Record Env := {
  geteuid : Z;
  SUDO_USER : option string;
  TIMESTAMP : string;
  now : Z;
  (* the exception the [n]-th external call raises, if it raises *)
  fault : nat -> call -> option exn;
  (* return code and stdout of a subprocess that ran to completion *)
  completed : nat -> list string -> Z * string;
  (* the entries an interrupted [copytree] leaves in the directory it was
     creating, if it got to create it *)
  leftover : nat -> option (list (string * node));
  (* [s.results.dict()] *)
  results_dict : nat -> dict string
}.

(** ** Primitive operations *)

Section WithEnv.
Variable E : Env.

Abbreviation M := (Py.M World).

(** [logging.<level>(...)]: the root logger is configured at [INFO],
    so [DEBUG] records are dropped.  A logging call does not raise. *)
Definition logging (l : level) (m : msg) : M unit :=
  match l with
  | DEBUG => ret tt
  | _ => modify (fun w => set_log (log w ++ [(l, m)]) w)
  end.

Definition print (text : string) : M unit := logging STDOUT (Note text).

(** An external call: it is counted and recorded, and raises what the
    environment decides. *)
Definition external (c : call) : M unit :=
  fun w =>
    match fault E (clock w) c with
    | Some e => (Raise e, tick c w)
    | None => (Ok tt, tick c w)
    end.

(** [subprocess.run(command, capture_output=True, check=check)]. *)
Definition subprocess (command : list string) (check : bool) : M string :=
  n ← gets clock;
  external (subprocess_run command);;
  let returncode := fst (completed E n command) in
  let stdout := snd (completed E n command) in
  if check && negb (returncode =? 0)%Z
  then raise (CalledProcessError returncode)
  else ret stdout.

(** *** The configuration tree *)

Definition path_exists (p : path) : M bool :=
  gets (fun w => match fs_read p (fs w) with Some _ => true | None => false end).

Definition path_is_dir (p : path) : M bool :=
  gets (fun w => match fs_read p (fs w) with Some (Dir _) => true | _ => false end).

Definition write_path (p : path) (v : option node) : M unit :=
  modify (fun w => set_fs (fs_write p v (fs w)) w).

Definition has_entry (name : string) (entries : list (string * node)) : bool :=
  existsb (fun e => String.eqb name (fst e)) entries.

(** [shutil.move(src, dst)]: a rename; into [dst] when [dst] is an
    existing directory, refused when an entry of that name is there. *)
Definition move (src dst : path) : M unit :=
  external (shutil_move src dst);;
  s ← gets (fun w => fs_read src (fs w));
  d ← gets (fun w => fs_read dst (fs w));
  match s, d with
  | None, _ => raise FileNotFoundError
  | Some n, None => write_path dst (Some n);; write_path src None
  | Some n, Some (Dir entries) =>
      if has_entry (basename src) entries
      then raise (OtherError "shutil.Error: destination path already exists")
      else write_path dst (Some (Dir (entries ++ [(basename src, n)])));;
           write_path src None
  | Some (File c), Some (File _) => write_path dst (Some (File c));; write_path src None
  | Some (Dir _), Some (File _) => raise (OSError "FileExistsError")
  end.

(** [shutil.rmtree(p)]. *)
Definition rmtree (p : path) : M unit :=
  external (shutil_rmtree p);;
  n ← gets (fun w => fs_read p (fs w));
  match n with
  | Some (Dir _) => write_path p None
  | Some (File _) => raise (OSError "NotADirectoryError")
  | None => raise FileNotFoundError
  end.

(** [str.endswith]. *)
Fixpoint starts_with (pre s : chars) : bool :=
  match pre, s with
  | [], _ => true
  | a :: pre', b :: s' => Ascii.eqb a b && starts_with pre' s'
  | _ :: _, [] => false
  end.

Definition startswith (s pre : string) : bool :=
  starts_with (list_ascii_of_string pre) (list_ascii_of_string s).

Definition endswith (s suf : string) : bool :=
  starts_with (rev (list_ascii_of_string suf)) (rev (list_ascii_of_string s)).

(** What [copytree] copies under [ignore_patterns('*.socket')]: at every
    level the entries whose name ends in [.socket] are left out. *)
Fixpoint copy_ignoring_sockets (n : node) : node :=
  match n with
  | File c => File c
  | Dir entries =>
      Dir ((fix go (es : list (string * node)) : list (string * node) :=
              match es with
              | [] => []
              | (name, child) :: es' =>
                  if endswith name ".socket" then go es'
                  else (name, copy_ignoring_sockets child) :: go es'
              end) entries)
  end.

(** [shutil.copytree(src, dst, ignore=...)].  A call that fails on the
    way leaves what the environment says at a destination that did
    not exist. *)
Definition copytree (src dst : path) : M unit :=
  n ← gets clock;
  s ← gets (fun w => fs_read src (fs w));
  d ← gets (fun w => fs_read dst (fs w));
  try_except (external (shutil_copytree src dst))
    (fun e => Some (match d with
                    | None => write_path dst (Dir <$> leftover E n)
                    | Some _ => ret tt
                    end;; raise e));;
  match s, d with
  | _, Some _ => raise (OSError "FileExistsError")
  | Some (Dir entries), None =>
      write_path dst (Some (copy_ignoring_sockets (Dir entries)))
  | Some (File _), None => raise (OSError "NotADirectoryError")
  | None, None => raise FileNotFoundError
  end.

(** *** The working directory *)

Fixpoint file_of (name : string) (files : list (string * csvfile))
    : option csvfile :=
  match files with
  | [] => None
  | (n, f) :: files' => if String.eqb name n then Some f else file_of name files'
  end.

Fixpoint update_file (name : string) (g : csvfile -> csvfile)
    (files : list (string * csvfile)) : list (string * csvfile) :=
  match files with
  | [] => []
  | (n, f) :: files' =>
      if String.eqb name n then (n, g f) :: files'
      else (n, f) :: update_file name g files'
  end.

Definition add_row (r : row) (f : csvfile) : csvfile :=
  {| mtime := mtime f; rows := rows f ++ [r]; corrupt := corrupt f |}.

(** [os.path.getsize(name) == 0]. *)
Definition size_is_zero (f : csvfile) : bool :=
  match rows f, corrupt f with
  | [], None => true
  | _, _ => false
  end.

(** [open(name, 'a')]: creates the file when it is missing. *)
Definition open_append (name : string) : M unit :=
  external (open_file name "a");;
  modify (fun w =>
            match file_of name (cwd w) with
            | Some _ => w
            | None =>
                set_cwd (cwd w ++ [(name, {| mtime := now E; rows := [];
                                            corrupt := None |})]) w
            end).

(** The rows a [csv.reader] over the file yields, and the exception
    that ends the iteration, if one does. *)
Definition csv_rows (f : csvfile) : list row * option exn :=
  match corrupt f with
  | Some (n, e) =>
      if n <=? length (rows f) then (firstn n (rows f), Some e)
      else (rows f, None)
  | None => (rows f, None)
  end.

(** *** The CSV writer *)

(** [csv_writer.writerow(rowdict)] with [extrasaction='ignore'] and the
    default [restval='']: one cell per field name. *)
Definition shape (names : list string) (rowdict : dict string) : row :=
  map (fun key => match dict_get key rowdict with Some v => v | None => "" end)
      names.

Definition write_line (r : row) : M unit :=
  modify (fun w => set_cwd (update_file (RESULTS_CSV_FILE w) (add_row r) (cwd w)) w).

Definition writerow (rowdict : dict string) : M unit :=
  names ← gets fieldnames;
  write_line (shape names rowdict).

(** [csv_writer.writeheader()]. *)
Definition writeheader : M unit :=
  names ← gets fieldnames;
  write_line names.

(** ** [run_command] *)

Definition run_command (command : list string) (check : bool) : M string :=
  logging INFO (Exec command);;
  try_except
    (stdout ← subprocess command check;
     logging DEBUG (Note "stdout");;
     ret stdout)
    (fun e =>
       match e with
       | FileNotFoundError =>
           Some (logging ERROR (CmdNotFound (hd "" command));; sys_exit 1)
       | CalledProcessError returncode =>
           Some (logging ERROR (CmdFailed command returncode);;
                 logging ERROR (Note "return code, stdout, stderr");;
                 raise e)
       | _ =>
           if is_Exception e
           then Some (logging ERROR (CmdError e);; raise e)
           else None
       end).

(** ** [get_locations] *)

(** [^\s*([A-Z]{2})\s+(.+?)\s{2,}(.+?)\s{2,}(\d+)\s*$] *)
Definition location_pattern : regex :=
  Seq Bol
 (Seq (Rep isspace 0 None true)
 (Seq (Group (Rep isupper_AZ 2 (Some 2) true))
 (Seq (Rep isspace 1 None true)
 (Seq (Group (Rep isdot 1 None false))
 (Seq (Rep isspace 2 None true)
 (Seq (Group (Rep isdot 1 None false))
 (Seq (Rep isspace 2 None true)
 (Seq (Group (Rep isdigit 1 None true))
 (Seq (Rep isspace 0 None true)
      Eol))))))))).

(** The body of the [for line in output.splitlines()] loop. *)
Definition parse_line (line : chars) : option Location :=
  match re_match location_pattern line with
  | Some [iso; country; city; ping] =>
      Some {| ISO := strip iso; Country := strip country;
              City := strip city; Ping_Estimate := strip ping |}
  | _ => None
  end.

Fixpoint parse_lines (lines : list chars) (locations : list Location)
    : list Location :=
  match lines with
  | [] => locations
  | line :: lines' =>
      match parse_line line with
      | Some location => parse_lines lines' (locations ++ [location])
      | None => parse_lines lines' locations
      end
  end.

Definition get_locations : M (list Location) :=
  logging INFO (Note "step 2: fetch the available locations");;
  output ← run_command [ADGUARD_CLI_PATH; "list-locations"] true;
  let locations := parse_lines (splitlines output) [] in
  match locations with
  | [] => logging ERROR (Note "no location could be parsed");; sys_exit 1
  | _ => logging INFO (Note "locations fetched");; ret locations
  end.

(** ** [load_tested_nodes] *)

Definition is_result_file (f : string) : bool :=
  startswith f "adguard_speedtest_results_" && endswith f ".csv".

(** [max(result_files, key=os.path.getmtime)]: the first file among
    those modified last. *)
Fixpoint latest (best : string) (best_mtime : Z) (l : list (string * Z)) : string :=
  match l with
  | [] => best
  | (f, t) :: l' =>
      if (best_mtime <? t)%Z then latest f t l' else latest best best_mtime l'
  end.

Definition getmtime (files : list (string * csvfile)) (f : string) : Z :=
  match file_of f files with Some c => mtime c | None => 0%Z end.

(** One row of a [csv.DictReader]: [dict(zip(fieldnames, row))], the
    missing fields set to [None]. *)
Definition DictReader_row (names : row) (r : row) : dict (option string) :=
  fold_left (fun d key => dict_set key None d) (skipn (length r) names)
            (dict_of_pairs (zip names (map Some r))).

(** ['ISO' in row and row['ISO']], as the value to add. *)
Definition row_iso (d : dict (option string)) : option string :=
  match dict_get "ISO" d with
  | Some (Some v) => if String.eqb v "" then None else Some v
  | _ => None
  end.

(** The [for row in reader] loop; a [DictReader] passes over empty
    rows. *)
Fixpoint scan_rows (names : row) (data : list row) (tested_nodes : gset string)
    : gset string :=
  match data with
  | [] => tested_nodes
  | r :: data' =>
      match r with
      | [] => scan_rows names data' tested_nodes
      | _ =>
          match row_iso (DictReader_row names r) with
          | Some iso => scan_rows names data' (tested_nodes ∪ {[iso]})
          | None => scan_rows names data' tested_nodes
          end
      end
  end.

(** The set built from a file, and the exception that cut the reading
    short, if one did: [tested_nodes] is filled row by row, so the rows
    read before a failure stay in it. *)
Definition read_tested (f : csvfile) : gset string * option exn :=
  let (yielded, err) := csv_rows f in
  match yielded with
  | [] => (∅, err)
  | header :: data => (scan_rows header data ∅, err)
  end.

(** Lines 76-80: the result file to resume from, if there is one. *)
Definition latest_result_file (files : list (string * csvfile)) : option string :=
  match List.filter is_result_file (map fst files) with
  | [] => None
  | f0 :: others =>
      Some (latest f0 (getmtime files f0)
                   (map (fun f => (f, getmtime files f)) others))
  end.

Definition load_tested_nodes : M (gset string) :=
  files ← gets cwd;
  match latest_result_file files with
  | None => logging INFO (Note "no old result file, starting afresh");; ret ∅
  | Some latest_file =>
      modify (set_RESULTS_CSV_FILE latest_file);;
      logging INFO (FoundFile latest_file);;
      opened ← try_except (external (open_file latest_file "r");; ret true)
                 (fun e => if is_Exception e
                           then Some (logging WARNING (ReadError e);; ret false)
                           else None);
      if negb opened then ret ∅ else
      let f := match file_of latest_file files with
               | Some f => f
               | None => {| mtime := 0; rows := []; corrupt := None |}
               end in
      let tested_nodes := fst (read_tested f) in
      match snd (read_tested f) with
      | None =>
          logging INFO (Loaded latest_file (size tested_nodes));;
          ret tested_nodes
      | Some e =>
          if is_Exception e
          then logging WARNING (ReadError e);; ret tested_nodes
          else raise e
      end
  end.

(** ** [test_and_record_speed] *)

Definition st_call (op : st_op) : M unit :=
  via ← gets current_route;
  external (speedtest op via).

(** The body of the inner [try]: install the proxy, measure.  The
    arithmetic that only formats the log line is left out. *)
Definition measure : M (dict string) :=
  modify (set_default_proxy (Some (SOCKS_HOST, SOCKS_PORT)));;
  modify (set_socket_socket socksocket);;
  logging INFO (Note "initialising the speedtest client");;
  st_call st_Speedtest;;
  logging INFO (Note "fetching the speedtest servers");;
  st_call st_get_servers;;
  st_call st_get_best_server;;
  logging INFO (Note "measuring download and upload");;
  st_call st_download;;
  st_call st_upload;;
  n ← gets clock;
  let speed_results := results_dict E n in
  logging INFO (Note "measurement finished");;
  ret speed_results.

(** The inner [finally]: restore the socket class, reset the default
    proxy, disconnect. *)
Definition restore_and_disconnect (iso : string) (original_socket : sock_ctor)
    : M unit :=
  modify (set_socket_socket original_socket);;
  modify (set_default_proxy None);;
  logging INFO (Note "disconnecting");;
  run_command [ADGUARD_CLI_PATH; "disconnect"] false;;
  ret tt.

(** The lines after the [finally]: fix the header on a new file, write
    the row. *)
Definition record_result (location : Location) (speed_results : dict string)
    : M unit :=
  let full_result := dict_merge (location_items location) speed_results in
  new ← gets is_new_file;
  (if new
   then modify (set_fieldnames (dict_keys full_result));;
        writeheader;;
        modify (set_is_new_file false)
   else ret tt);;
  writerow full_result;;
  file ← gets RESULTS_CSV_FILE;
  logging INFO (Saved file).

Definition connect_command (iso : string) : list string :=
  [ADGUARD_CLI_PATH; "connect"; "-l"; iso].

(** Lines 98-103: the connect step; [false] stands for the early
    [return] of the [except] clause. *)
Definition connect (iso : string) : M bool :=
  try_except
    (run_command (connect_command iso) true;;
     logging INFO (Connected iso);;
     ret true)
    (fun e =>
       match e with
       | CalledProcessError _ =>
           Some (logging ERROR (ConnectFailed iso);; ret false)
       | _ => None
       end).

(** The inner [try] with its [except Exception] clause; [speed_results]
    is still the empty dict when the clause is taken. *)
Definition guarded_measure (iso : string) : M (dict string) :=
  try_except measure
    (fun e =>
       if is_Exception e
       then Some (logging ERROR (MeasureError iso e);; ret [])
       else None).

(** Lines 105-152: what follows a successful connect. *)
Definition measured_cycle (location : Location) : M unit :=
  let iso := ISO location in
  original_socket ← gets socket_socket;
  speed_results ←
    try_finally (guarded_measure iso)
                (restore_and_disconnect iso original_socket);
  match speed_results with
  | [] => ret tt
  | _ => record_result location speed_results
  end.

Definition test_and_record_speed (location : Location) : M unit :=
  let iso := ISO location in
  logging INFO (StartTest location);;
  connected ← connect iso;
  if negb connected then ret tt else measured_cycle location.

(** ** [main] *)

(** The [for i, location in enumerate(all_locations)] loop. *)
Fixpoint location_loop (tested_nodes : gset string) (total i : nat)
    (locations : list Location) : M unit :=
  match locations with
  | [] => ret tt
  | location :: rest =>
      (if bool_decide (ISO location ∈ tested_nodes)
       then logging INFO (Skipping (i + 1) total location)
       else logging INFO (Processing (i + 1) total location);;
            test_and_record_speed location;;
            file ← gets RESULTS_CSV_FILE;
            external (flush_file file));;
      location_loop tested_nodes total (S i) rest
  end.

(** Lines 197-209: open the result file and fix the writer's header
    from a file that already has one. *)
Definition open_results : M unit :=
  file ← gets RESULTS_CSV_FILE;
  files ← gets cwd;
  let new := match file_of file files with
             | None => true
             | Some f => size_is_zero f
             end in
  modify (set_is_new_file new);;
  open_append file;;
  modify (set_fieldnames []);;
  if new then ret tt else
    external (open_file file "r");;
    files ← gets cwd;
    match file_of file files with
    | None => raise FileNotFoundError
    | Some f =>
        match csv_rows f with
        | (headers :: _, _) => modify (set_fieldnames headers)
        | ([], Some e) => raise e
        | ([], None) => modify (set_is_new_file true)
        end
    end.

(** The custody steps at the head of the outer [try]. *)
Definition acquire (original_user : string) : M unit :=
  logging INFO (Note "original user detected");;
  there ← path_exists dest_config_path;
  (if there
   then logging INFO (Note "backing up root's configuration");;
        move dest_config_path dest_backup_path
   else ret tt);;
  logging INFO (Note "copying the configuration");;
  copytree (source_config_path original_user) dest_config_path.

(** The body of the outer [try]. *)
Definition main_body (original_user : string) : M unit :=
  acquire original_user;;
  logging INFO (Note "step 1: switch to SOCKS mode");;
  run_command [ADGUARD_CLI_PATH; "config"; "set-mode"; "socks"] true;;
  all_locations ← get_locations;
  tested_nodes ← load_tested_nodes;
  open_results;;
  logging INFO (Note "step 3: measure every location");;
  location_loop tested_nodes (length all_locations) 0 all_locations.

(** The two [except] clauses of the outer [try]. *)
Definition main_handlers (e : exn) : option (M unit) :=
  match e with
  | KeyboardInterrupt | SystemExit _ => Some (logging WARNING (Interrupted e))
  | _ => Some (logging CRITICAL (Fatal e))
  end.

(** The custody steps of the outer [finally]. *)
Definition release : M unit :=
  logging INFO (Note "cleaning up the temporary configuration");;
  there ← path_exists dest_config_path;
  (if there
   then logging INFO (Note "removing the temporary copy");;
        rmtree dest_config_path
   else ret tt);;
  saved ← path_exists dest_backup_path;
  (if saved
   then logging INFO (Note "restoring root's configuration");;
        move dest_backup_path dest_config_path
   else ret tt).

(** The outer [finally]. *)
Definition cleanup : M unit :=
  release;;
  logging INFO (Note "making sure the VPN is disconnected");;
  run_command [ADGUARD_CLI_PATH; "disconnect"] false;;
  logging INFO (Note "end").

(** The outer [try] statement, lines 179-236. *)
Definition guarded_run (original_user : string) : M unit :=
  try_finally (try_except (main_body original_user) main_handlers) cleanup.

Definition main : M unit :=
  logging INFO (Note "start");;
  if negb (geteuid E =? 0)%Z
  then logging ERROR (Note "root privileges are required");; sys_exit 1
  else
    match SUDO_USER E with
    | None | Some EmptyString =>
        logging ERROR (Note "the original user cannot be determined");;
        sys_exit 1
    | Some original_user =>
        configured ← path_is_dir (source_config_path original_user);
        if negb configured
        then logging ERROR (Note "no configuration for the original user");;
             print "log in as your normal user first";;
             sys_exit 1
        else guarded_run original_user
    end.

(** The state of a fresh process over a given configuration tree and
    working directory. *)
Definition fresh (config : ConfigFs) (files : list (string * csvfile)) : World :=
  {| clock := 0; trace := []; log := []; fs := config;
     socket_socket := plain_socket; default_proxy := None;
     cwd := files;
     RESULTS_CSV_FILE :=
       "adguard_speedtest_results_" +:+ TIMESTAMP E +:+ ".csv";
     fieldnames := []; is_new_file := false |}.

(** The exit status of [python3 speedtest.py]. *)
Definition exit_code (w : World) : Z := exit_status (fst (main w)).

End WithEnv.

End Script.

(* ===================================================================== *)
(** * Vocabulary of the properties *)
(* ===================================================================== *)

Module Props.
Import PyStr Re Py Script.

(** ** Catalog lines *)

(** [w] is a run of at least [min] characters of class [cls]. *)
Definition run_of (cls : ascii -> bool) (min : nat) (w : chars) : Prop :=
  min <= length w /\ forallb cls w = true.

(** [line] reads: white space, a two-letter code, at least [sep1] white
    space characters, a country, two or more white space characters, a
    city, two or more white space characters, a ping in digits, white
    space.  Country and city are non-empty and free of line feeds. *)
Definition location_line (sep1 : nat) (line iso country city ping : chars) : Prop :=
  exists w0 w1 w2 w3 w4,
    line = w0 ++ iso ++ w1 ++ country ++ w2 ++ city ++ w3 ++ ping ++ w4 /\
    run_of isspace 0 w0 /\
    length iso = 2 /\ forallb isupper_AZ iso = true /\
    run_of isspace sep1 w1 /\
    run_of isdot 1 country /\
    run_of isspace 2 w2 /\
    run_of isdot 1 city /\
    run_of isspace 2 w3 /\
    run_of isdigit 1 ping /\
    run_of isspace 0 w4.

(** The pattern with the width of the first separator left open;
    [location_pattern] is the instance [1]. *)
Definition pattern_with (sep1 : nat) : regex :=
  Seq Bol
 (Seq (Rep isspace 0 None true)
 (Seq (Group (Rep isupper_AZ 2 (Some 2) true))
 (Seq (Rep isspace sep1 None true)
 (Seq (Group (Rep isdot 1 None false))
 (Seq (Rep isspace 2 None true)
 (Seq (Group (Rep isdot 1 None false))
 (Seq (Rep isspace 2 None true)
 (Seq (Group (Rep isdigit 1 None true))
 (Seq (Rep isspace 0 None true)
      Eol))))))))).

(** The parsing rule in the words of the specification: every pair of
    neighbouring fields is separated by a run of two or more spaces. *)
Definition spec_location_pattern : regex := pattern_with 2.

Definition spec_location_line (line : chars) : Prop :=
  exists iso country city ping, location_line 2 line iso country city ping.

Definition sample_line : chars :=
  list_ascii_of_string "US   United States        New York            12".

Definition header_line : chars :=
  list_ascii_of_string "ISO  Country  City  Ping".

Definition header_line_single_gaps : chars :=
  list_ascii_of_string "ISO Country City Ping".

Definition sample_location : Location :=
  {| ISO := "US"; Country := "United States"; City := "New York";
     Ping_Estimate := "12" |}.

(** ** Measurement cycles *)

Definition disconnect_command : list string := [ADGUARD_CLI_PATH; "disconnect"].

(** The connect invocation of a cycle entered in [w] runs and exits with
    a non-zero code. *)
Definition connect_exits_nonzero (E : Env) (iso : string) (w : World) : Prop :=
  fault E (clock w) (subprocess_run (connect_command iso)) = None /\
  fst (completed E (clock w) (connect_command iso)) <> 0%Z.

(** It runs and exits with code zero. *)
Definition connect_succeeds (E : Env) (iso : string) (w : World) : Prop :=
  fault E (clock w) (subprocess_run (connect_command iso)) = None /\
  fst (completed E (clock w) (connect_command iso)) = 0%Z.

(** The route through the proxy that [connect] starts. *)
Definition proxied : route := ViaSocks5 SOCKS_HOST SOCKS_PORT.

(** The calls of one measurement, in order. *)
Definition st_ops : list st_op :=
  [st_Speedtest; st_get_servers; st_get_best_server; st_download; st_upload].

(** In a measurement whose calls are numbered from [n], the [k]-th call
    raises [e] and the calls before it return. *)
Definition measurement_raises (E : Env) (n k : nat) (e : exn) : Prop :=
  (exists op, st_ops !! k = Some op /\
              fault E (n + k) (speedtest op proxied) = Some e) /\
  (forall j op, j < k -> st_ops !! j = Some op ->
                fault E (n + j) (speedtest op proxied) = None).

(** ** A concrete machine

    The inputs on which the statements below are exercised: the user
    [alice] has logged in, root has a configuration of its own, the
    working directory is empty and the VPN client lists two locations. *)

Definition list_locations_output : string :=
  "ISO  COUNTRY              CITY                PING ESTIMATE" +:+
  String "010" "US   United States        New York            12" +:+
  String "010" "DE   Germany              Berlin              30" +:+
  String "010" "".

Definition alice_config : node :=
  Dir [("vpn.conf", File "alice-token"); ("agent.socket", File "")].

Definition root_original : node := Dir [("vpn.conf", File "root-token")].

Definition machine : ConfigFs :=
  {| home_config := fun u => if String.eqb u "alice" then Some alice_config else None;
     root_config := Some root_original;
     root_backup := None |}.

Definition measured : dict string :=
  [("download", "93000000.0"); ("upload", "41000000.0"); ("ping", "17.5")].

(** Every call returns, every command exits with code 0. *)
Definition calm : Env :=
  {| geteuid := 0;
     SUDO_USER := Some "alice";
     TIMESTAMP := "20240101_120000";
     now := 1704110400;
     fault := fun _ _ => None;
     completed := fun _ command =>
       match command with
       | [_; "list-locations"] => (0%Z, list_locations_output)
       | _ => (0%Z, "")
       end;
     leftover := fun _ => None;
     results_dict := fun _ => measured |}.

(** [calm], except that the calls picked by [f] raise. *)
Definition with_fault (f : nat -> call -> option exn) (E : Env) : Env :=
  {| geteuid := geteuid E; SUDO_USER := SUDO_USER E; TIMESTAMP := TIMESTAMP E;
     now := now E;
     fault := fun n c => match f n c with Some e => Some e | None => fault E n c end;
     completed := completed E; leftover := leftover E;
     results_dict := results_dict E |}.

(** [E], except that the commands picked by [f] exit with the given code. *)
Definition with_exit (f : list string -> option Z) (E : Env) : Env :=
  {| geteuid := geteuid E; SUDO_USER := SUDO_USER E; TIMESTAMP := TIMESTAMP E;
     now := now E; fault := fault E;
     completed := fun n command =>
       match f command with
       | Some code => (code, snd (completed E n command))
       | None => completed E n command
       end;
     leftover := leftover E; results_dict := results_dict E |}.

Definition new_york : Location :=
  {| ISO := "US"; Country := "United States"; City := "New York";
     Ping_Estimate := "12" |}.

Definition berlin : Location :=
  {| ISO := "DE"; Country := "Germany"; City := "Berlin"; Ping_Estimate := "30" |}.

(** The connect command exits with code 1. *)
Definition connect_refused : Env :=
  with_exit (fun command =>
               match command with
               | [_; "connect"; _; _] => Some 1%Z
               | _ => None
               end) calm.

(** The download of the first measurement times out. *)
Definition download_times_out : Env :=
  with_fault (fun n c =>
                match c with
                | speedtest st_download _ => Some (OtherError "SpeedtestException")
                | _ => None
                end) calm.

(** A result file of an earlier run, of which the third line cannot be
    parsed: the reader yields the header and the first record, then
    raises. *)
Definition old_results : string := "adguard_speedtest_results_20231231_090000.csv".

Definition csv_error : exn := OtherError "_csv.Error: line contains NUL".

Definition results_header : row :=
  ["ISO"; "Country"; "City"; "Ping Estimate"; "download"; "upload"; "ping"].

Definition damaged_results : csvfile :=
  {| mtime := 1704013200;
     rows := [results_header;
              ["US"; "United States"; "New York"; "12"; "93000000.0";
               "41000000.0"; "17.5"];
              ["DE"; "Germany"; "Berlin"; "30"; "88000000.0"; "39000000.0"; "21.0"]];
     corrupt := Some (2, csv_error) |}.

(** The same file, intact. *)
Definition intact_results : csvfile :=
  {| mtime := 1704013200; rows := rows damaged_results; corrupt := None |}.

(** ** The loop over the catalog *)

(** The locations the loop does not skip. *)
Definition untested (tested_nodes : gset string) (locations : list Location)
    : list Location :=
  List.filter (fun location => negb (bool_decide (ISO location ∈ tested_nodes)))
              locations.

(** The state without its log. *)
Definition unlogged (w : World) : World := set_log [] w.

(** Two states that differ at most in their logs. *)
Definition same_but_log (a b : World) : Prop := unlogged a = unlogged b.

(** [c] is not a connect to a location of the resume set. *)
Definition no_reconnect (tested_nodes : gset string) (c : call) : Prop :=
  forall iso, c = subprocess_run (connect_command iso) -> iso ∉ tested_nodes.

(** ** The result file *)

(** The rows of the active result file. *)
Definition active_rows (w : World) : list row :=
  match file_of (RESULTS_CSV_FILE w) (cwd w) with
  | Some f => rows f
  | None => []
  end.

(** The writer agrees with the file it appends to: the file is there, it
    is empty as long as the writer waits for its first record, and its
    first row is the writer's header afterwards. *)
Definition writer_synced (w : World) : Prop :=
  (exists f, file_of (RESULTS_CSV_FILE w) (cwd w) = Some f) /\
  if is_new_file w then active_rows w = []
  else exists rest, active_rows w = fieldnames w :: rest.

(** The rows that writing [records], in order, appends to a file that
    holds [before]: one row per record, cut to the header; the header is
    the first row of [before], or else the keys of the first record,
    written ahead of it. *)
Definition rows_for (before : list row) (records : list (dict string)) : list row :=
  match before, records with
  | header :: _, _ => map (shape header) records
  | [], first :: _ => dict_keys first :: map (shape (dict_keys first)) records
  | [], [] => []
  end.

(** From [w] to [w'] the active file stayed the same file, the writer
    stayed in step, and the file grew by the rows of some records, each
    of them in [from]. *)
Definition header_stable (from : dict string -> Prop) (w w' : World) : Prop :=
  RESULTS_CSV_FILE w' = RESULTS_CSV_FILE w /\
  writer_synced w' /\
  exists records,
    Forall from records /\
    active_rows w' = active_rows w ++ rows_for (active_rows w) records.

(** The records of measured locations of [locations] outside the resume
    set. *)
Definition record_of (tested_nodes : gset string) (locations : list Location)
    (full_result : dict string) : Prop :=
  exists location speed_results,
    In location locations /\ (ISO location ∉ tested_nodes) /\ speed_results <> [] /\
    full_result = dict_merge (location_items location) speed_results.

(** ** Whole runs *)

(** The checks at the head of [main] pass for the user [original_user]. *)
Definition preconditions_hold (E : Env) (w : World) (original_user : string) : Prop :=
  geteuid E = 0%Z /\ SUDO_USER E = Some original_user /\ original_user <> "" /\
  exists entries,
    fs_read (source_config_path original_user) (fs w) = Some (Dir entries).

(** The state in which the outer [try] is entered. *)
Definition started (w : World) : World :=
  set_log (log w ++ [(INFO, Note "start")]) w.

(** The VPN client is not installed: every attempt to run a command
    fails to find it. *)
Definition binary_missing (E : Env) : Prop :=
  forall n command, fault E n (subprocess_run command) = Some FileNotFoundError.

(** The two file operations of [release] are not interrupted. *)
Definition release_uninterrupted (E : Env) : Prop :=
  forall n,
    fault E n (shutil_rmtree dest_config_path) = None /\
    fault E n (shutil_move dest_backup_path dest_config_path) = None.

(** The move that makes the backup is not interrupted. *)
Definition backup_uninterrupted (E : Env) : Prop :=
  forall n, fault E n (shutil_move dest_config_path dest_backup_path) = None.

(** Root's configuration [original] is in custody: it is at the backup
    path, or there was none, and what is at the destination is at most a
    directory, the copy. *)
Definition in_custody (original : option node) (w : World) : Prop :=
  root_backup (fs w) = original /\
  match root_config (fs w) with
  | Some (File _) => False
  | _ => True
  end.

(** Root's configuration [original] is back in place. *)
Definition restored (original : option node) (w : World) : Prop :=
  root_config (fs w) = original /\ root_backup (fs w) = None.

(** The run is interrupted in its first external call, the move of root's
    configuration to the backup path. *)
Definition interrupted_at_start : Env :=
  with_fault (fun n _ => match n with 0 => Some KeyboardInterrupt | _ => None end)
             calm.

(** A backup directory left behind by a run that was killed. *)
Definition stale_backup : node := Dir [("vpn.conf", File "stale-token")].

Definition machine_with_stale_backup : ConfigFs :=
  {| home_config := home_config machine; root_config := None;
     root_backup := Some stale_backup |}.

(** Flushing the result file fails. *)
Definition disk_full : Env :=
  with_fault (fun _ c =>
                match c with
                | flush_file _ => Some (OSError "No space left on device")
                | _ => None
                end) calm.

(** The client lists no location. *)
Definition nothing_listed : Env :=
  {| geteuid := geteuid calm; SUDO_USER := SUDO_USER calm;
     TIMESTAMP := TIMESTAMP calm; now := now calm; fault := fault calm;
     completed := fun _ _ => (0%Z, "You are not logged in");
     leftover := leftover calm; results_dict := results_dict calm |}.

(** The script is started without [sudo]. *)
Definition unprivileged : Env :=
  {| geteuid := 1000; SUDO_USER := None;
     TIMESTAMP := TIMESTAMP calm; now := now calm; fault := fault calm;
     completed := completed calm; leftover := leftover calm;
     results_dict := results_dict calm |}.

(** The VPN client is not installed. *)
Definition not_installed : Env :=
  with_fault (fun _ c =>
                match c with
                | subprocess_run _ => Some FileNotFoundError
                | _ => None
                end) calm.

(** ** Further vocabulary *)

(** [s] does not start with white space. *)
Definition starts_clean (s : chars) : Prop :=
  match s with
  | c :: _ => isspace c = false
  | [] => True
  end.

(** [s] has no white space at either end. *)
Definition trimmed (s : string) : Prop :=
  starts_clean (list_ascii_of_string s) /\ starts_clean (rev (list_ascii_of_string s)).

(** A line in which the country is a single blank. *)
Definition blank_country_line : chars := list_ascii_of_string "US     A  12".

(** In a measurement whose calls are numbered from [n], every call
    returns. *)
Definition measurement_returns (E : Env) (n : nat) : Prop :=
  forall j op, st_ops !! j = Some op -> fault E (n + j) (speedtest op proxied) = None.

(** The rows one record adds to the result file: its row, cut to the
    header, after the header itself when the file is new. *)
Definition rows_written (new : bool) (names : list string) (full_result : dict string)
    : list row :=
  if new then [dict_keys full_result; shape (dict_keys full_result) full_result]
  else [shape names full_result].

(** The download is interrupted from the keyboard. *)
Definition download_interrupted : Env :=
  with_fault (fun n c =>
                match c with
                | speedtest st_download _ => Some KeyboardInterrupt
                | _ => None
                end) calm.

(** A call of the speed-test client made through the proxy. *)
Definition proxied_measurement (c : call) : Prop :=
  exists op, c = speedtest op proxied.

(** Since the calls [base], only measurements through the proxy were
    made, and the proxy is still in place. *)
Definition measuring (base : list call) (x : World) : Prop :=
  (exists mid, trace x = base ++ mid /\ Forall proxied_measurement mid) /\
  current_route x = proxied.

(** The location a call connects to, if it is a connect call. *)
Definition connect_target (c : call) : option string :=
  match c with
  | subprocess_run [_; "connect"; "-l"; iso] => Some iso
  | _ => None
  end.

(** The socket class is [s], and the default proxy is unset or [p]. *)
Definition route_kept (s : sock_ctor) (p : option (string * Z)) (x : World) : Prop :=
  socket_socket x = s /\ (default_proxy x = None \/ default_proxy x = p).

(** [LOG_FILE], line 24. *)
Definition LOG_FILE (E : Env) : string := "adguard_speedtest_" +:+ TIMESTAMP E +:+ ".log".

(** No entry of the tree, at any level, is named [*.socket]. *)
Fixpoint no_sockets (n : node) : bool :=
  match n with
  | File _ => true
  | Dir entries =>
      (fix go (es : list (string * node)) : bool :=
         match es with
         | [] => true
         | (name, child) :: es' =>
             negb (endswith name ".socket") && no_sockets child && go es'
         end) entries
  end.

(** The copy of the user's configuration is not interrupted. *)
Definition copy_uninterrupted (E : Env) (original_user : string) : Prop :=
  forall n,
    fault E n (shutil_copytree (source_config_path original_user) dest_config_path)
    = None.

(** The records the loop writes for the measured locations [measured]. *)
Definition records_of (measured : list (Location * dict string)) : list (dict string) :=
  map (fun m => dict_merge (location_items (fst m)) (snd m)) measured.

(** A result file whose first line cannot be decoded. *)
Definition unreadable_results : csvfile :=
  {| mtime := 1704013200; rows := rows damaged_results; corrupt := Some (0, csv_error) |}.

(** The active result file is [active], and the file [name] of the
    working directory is [v] (or missing, for [None]). *)
Definition keeps_file (active name : string) (v : option csvfile) (x : World) : Prop :=
  RESULTS_CSV_FILE x = active /\ file_of name (cwd x) = v.


End Props.

(* ===================================================================== *)
(** * Facts about the matcher *)
(* ===================================================================== *)

Module ReFacts.
Import PyStr Re.

Lemma within_less n room :
  within n (less_room room) -> has_room room = true -> within (S n) room.
Proof. destruct room as [[|m]|]; simpl; intros; try discriminate; lia. Qed.

Lemma within_room n room : within (S n) room -> has_room room = true.
Proof. destruct room as [[|m]|]; simpl; intros; auto; lia. Qed.

Lemma within_pred n room : within (S n) room -> within n (less_room room).
Proof. destruct room as [[|m]|]; simpl; intros; auto; lia. Qed.

(** Whatever [rep] returns comes from the continuation, called after a
    run of class characters of an admissible length. *)
Lemma rep_sound {A} cls greedy (s : chars) :
  forall need room pos (k : nat -> chars -> option A) x,
    rep cls greedy need room pos s k = Some x ->
    exists w s', s = w ++ s' /\ forallb cls w = true /\ need <= length w /\
                 within (length w) room /\ k (pos + length w) s' = Some x.
Proof.
  induction s as [|c s IH]; intros need room pos k x H.
  - assert (Hk : need = 0 /\ k pos [] = Some x).
    { simpl in H. destruct need, greedy; try discriminate; auto;
        destruct (k pos []); inversion H; auto. }
    destruct Hk as [-> Hk]. exists [], []. rewrite Nat.add_0_r.
    repeat split; auto. destruct room; simpl; lia.
  - assert (Hcases :
      (need = 0 /\ k pos (c :: s) = Some x) \/
      (cls c && has_room room = true /\
       rep cls greedy (pred need) (less_room room) (S pos) s k = Some x)).
    { simpl in H. destruct (cls c && has_room room) eqn:Hc.
      - destruct greedy.
        + destruct (rep cls true (pred need) (less_room room) (S pos) s k) eqn:Hm.
          * inversion H; subst. right; auto.
          * destruct need; [left; auto | discriminate].
        + destruct need.
          * destruct (k pos (c :: s)) eqn:Hk.
            -- inversion H; subst. left; auto.
            -- right; auto.
          * right; auto.
      - destruct greedy, need; try discriminate; left; auto.
        destruct (k pos (c :: s)); inversion H; auto. }
    destruct Hcases as [[-> Hk] | [Hc Hm]].
    + exists [], (c :: s). rewrite Nat.add_0_r.
      repeat split; auto. destruct room; simpl; lia.
    + apply andb_true_iff in Hc as [Hc Hroom].
      destruct (IH _ _ _ _ _ Hm) as (w & s' & -> & Hw & Hn & Hin & Hk).
      exists (c :: w), s'. simpl. rewrite Hc, Hw.
      replace (pos + S (length w)) with (S pos + length w) by lia.
      repeat split; auto; [lia | apply within_less; auto].
Qed.

(** Conversely, [rep] succeeds as soon as some admissible run of class
    characters leads to a continuation that succeeds. *)
Lemma rep_complete {A} cls greedy (w : chars) :
  forall s' need room pos (k : nat -> chars -> option A),
    forallb cls w = true -> need <= length w -> within (length w) room ->
    k (pos + length w) s' <> None ->
    rep cls greedy need room pos (w ++ s') k <> None.
Proof.
  induction w as [|c w IH]; intros s' need room pos k Hw Hn Hin Hk.
  - simpl in *. rewrite Nat.add_0_r in Hk.
    assert (need = 0) as -> by lia.
    destruct s' as [|d s']; simpl.
    + destruct greedy; destruct (k pos []); congruence.
    + destruct (cls d && has_room room), greedy;
        try (destruct (rep cls _ 0 (less_room room) (S pos) s' k); congruence);
        destruct (k pos (d :: s')); congruence.
  - simpl in Hw. apply andb_true_iff in Hw as [Hc Hw].
    simpl in Hn, Hin, Hk. simpl app.
    assert (Hm : rep cls greedy (pred need) (less_room room) (S pos) (w ++ s') k
                 <> None).
    { apply IH; auto; [lia | apply within_pred; auto |].
      replace (S pos + length w) with (pos + S (length w)) by lia. auto. }
    simpl. rewrite Hc, (within_room _ _ Hin). simpl.
    destruct greedy.
    + destruct (rep cls true (pred need) (less_room room) (S pos) (w ++ s') k);
        congruence.
    + destruct need; [destruct (k pos (c :: w ++ s'))|]; congruence.
Qed.

Lemma run_sound {A} (r : regex) :
  forall pos s caps (k : nat -> chars -> captures -> option A) x,
    run r pos s caps k = Some x ->
    exists pos' s' g, den r pos s pos' s' g /\ k pos' s' (caps ++ g) = Some x.
Proof.
  induction r as [| |cls min max greedy|r IH|r1 IH1 r2 IH2];
    intros pos s caps k x H; simpl in H.
  - destruct (pos =? 0) eqn:Hp; [|discriminate].
    apply Nat.eqb_eq in Hp. exists pos, s, []. rewrite app_nil_r. simpl. auto.
  - destruct (at_eol s) eqn:He; [|discriminate].
    exists pos, s, []. rewrite app_nil_r. simpl. auto.
  - apply rep_sound in H as (w & s' & -> & Hw & Hn & Hin & Hk).
    exists (pos + length w), s', []. rewrite app_nil_r. simpl.
    split; auto. exists w. auto 10.
  - apply IH in H as (pos' & s' & g & Hd & Hk).
    exists pos', s', (g ++ [firstn (pos' - pos) s]).
    rewrite app_assoc. split; auto. simpl. eauto.
  - apply IH1 in H as (pos1 & s1 & g1 & Hd1 & Hk1).
    apply IH2 in Hk1 as (pos' & s' & g2 & Hd2 & Hk).
    exists pos', s', (g1 ++ g2). rewrite app_assoc. split; auto.
    simpl. eauto 10.
Qed.

Lemma run_complete {A} (r : regex) :
  forall pos s pos' s' g (k : nat -> chars -> captures -> option A),
    den r pos s pos' s' g ->
    (forall caps, k pos' s' caps <> None) ->
    forall caps, run r pos s caps k <> None.
Proof.
  induction r as [| |cls min max greedy|r IH|r1 IH1 r2 IH2];
    intros pos s pos' s' g k Hd Hk caps; simpl in Hd |- *.
  - destruct Hd as (-> & -> & -> & _). simpl. apply Hk.
  - destruct Hd as (-> & -> & -> & _). apply Hk.
  - destruct Hd as (w & -> & Hw & Hn & Hin & -> & _).
    apply rep_complete; auto.
  - destruct Hd as (g1 & Hd & _).
    eapply IH; [exact Hd|]. intros c. apply Hk.
  - destruct Hd as (pos1 & s1 & g1 & g2 & Hd1 & Hd2 & _).
    eapply IH1; [exact Hd1|]. intros c. eapply IH2; eauto.
Qed.

(** A line matches iff the pattern denotes some prefix of it. *)
Lemma re_match_sound r line g :
  re_match r line = Some g -> exists pos' s', den r 0 line pos' s' g.
Proof.
  intros H. apply run_sound in H as (pos' & s' & g' & Hd & Hk).
  simpl in Hk. inversion Hk; subst. eauto.
Qed.

Lemma re_match_complete r line pos' s' g :
  den r 0 line pos' s' g -> re_match r line <> None.
Proof. intros H. eapply run_complete; [exact H|]. discriminate. Qed.

End ReFacts.

(* ===================================================================== *)
(** * The location catalog *)
(* ===================================================================== *)

Module CatalogFacts.
Import PyStr Re Py Script Props ReFacts.

Lemma firstn_consumed (pos : nat) (w s : chars) :
  firstn (pos + length w - pos) (w ++ s) = w.
Proof.
  replace (pos + length w - pos) with (length w + 0) by lia.
  rewrite firstn_app_2. simpl. apply app_nil_r.
Qed.

Lemma location_pattern_eq : location_pattern = pattern_with 1.
Proof. reflexivity. Qed.

Lemma forallb_app_true {A} (f : A -> bool) (l1 l2 : list A) :
  forallb f l1 = true -> forallb f l2 = true -> forallb f (l1 ++ l2) = true.
Proof. intros H1 H2. rewrite forallb_app, H1, H2. reflexivity. Qed.

Lemma at_eol_space (s : chars) : at_eol s = true -> forallb isspace s = true.
Proof.
  destruct s as [|c [|d s]]; simpl; try discriminate; auto.
  intros H. apply Nat.eqb_eq in H. unfold isspace. rewrite H. reflexivity.
Qed.

(** What the pattern denotes, field by field. *)
Lemma den_pattern n line pos' s' g :
  den (pattern_with n) 0 line pos' s' g ->
  exists iso country city ping,
    g = [iso; country; city; ping] /\ location_line n line iso country city ping.
Proof.
  unfold pattern_with. simpl.
  intros (p1 & s1 & g1 & g1' & (_ & -> & -> & ->) & H & ->).
  destruct H as (p2 & s2 & g2 & g2' & (w0 & -> & Hw0 & _ & _ & -> & ->) & H & ->).
  destruct H as (p3 & s3 & g3 & g3' & (gi & (iso & -> & Hiso & Hi2 & Hi2' & -> & ->) & ->) & H & ->).
  destruct H as (p4 & s4 & g4 & g4' & (w1 & -> & Hw1 & Hn1 & _ & -> & ->) & H & ->).
  destruct H as (p5 & s5 & g5 & g5' & (gc & (country & -> & Hco & Hnco & _ & -> & ->) & ->) & H & ->).
  destruct H as (p6 & s6 & g6 & g6' & (w2 & -> & Hw2 & Hn2 & _ & -> & ->) & H & ->).
  destruct H as (p7 & s7 & g7 & g7' & (gt & (city & -> & Hci & Hnci & _ & -> & ->) & ->) & H & ->).
  destruct H as (p8 & s8 & g8 & g8' & (w3 & -> & Hw3 & Hn3 & _ & -> & ->) & H & ->).
  destruct H as (p9 & s9 & g9 & g9' & (gp & (ping & -> & Hpi & Hnpi & _ & -> & ->) & ->) & H & ->).
  destruct H as (p10 & s10 & g10 & g10' & (w4 & -> & Hw4 & _ & _ & -> & ->) & H & ->).
  destruct H as (Heol & -> & -> & ->).
  exists iso, country, city, ping. split.
  - simpl. rewrite !firstn_consumed. reflexivity.
  - exists w0, w1, w2, w3, (w4 ++ s10). simpl in Hi2'.
    repeat split; auto; try lia.
    apply forallb_app_true; auto. apply at_eol_space; auto.
Qed.

Ltac den_rep w :=
  exists w; split; [reflexivity|]; repeat split; simpl; auto; try lia.

Lemma pattern_den n line iso country city ping :
  location_line n line iso country city ping ->
  exists pos' g, den (pattern_with n) 0 line pos' [] g.
Proof.
  intros (w0 & w1 & w2 & w3 & w4 & -> & [_ Hw0] & Hi & Hiso & [Hn1 Hw1] &
          [Hnco Hco] & [Hn2 Hw2] & [Hnci Hci] & [Hn3 Hw3] & [Hnpi Hpi] & [_ Hw4]).
  unfold pattern_with. rewrite <- (app_nil_r w4). simpl.
  do 2 eexists.
  do 4 eexists; split; [repeat split; reflexivity|]; split; [|reflexivity].
  do 4 eexists; split; [den_rep w0|]; split; [|reflexivity].
  do 4 eexists; split; [eexists; split; [den_rep iso|reflexivity]|];
    split; [|reflexivity].
  do 4 eexists; split; [den_rep w1|]; split; [|reflexivity].
  do 4 eexists; split; [eexists; split; [den_rep country|reflexivity]|];
    split; [|reflexivity].
  do 4 eexists; split; [den_rep w2|]; split; [|reflexivity].
  do 4 eexists; split; [eexists; split; [den_rep city|reflexivity]|];
    split; [|reflexivity].
  do 4 eexists; split; [den_rep w3|]; split; [|reflexivity].
  do 4 eexists; split; [eexists; split; [den_rep ping|reflexivity]|];
    split; [|reflexivity].
  do 4 eexists; split; [den_rep w4|]; split; [|reflexivity].
  repeat split; reflexivity.
Qed.

(** A line matches the pattern exactly when it reads as a location line,
    and then the groups are the fields of one such reading. *)
Lemma re_match_pattern n line g :
  re_match (pattern_with n) line = Some g ->
  exists iso country city ping,
    g = [iso; country; city; ping] /\ location_line n line iso country city ping.
Proof.
  intros H. apply re_match_sound in H as (pos' & s' & H).
  eapply den_pattern; eauto.
Qed.

Lemma pattern_re_match n line iso country city ping :
  location_line n line iso country city ping ->
  exists g, re_match (pattern_with n) line = Some g.
Proof.
  intros H. apply pattern_den in H as (pos' & g & H).
  apply re_match_complete in H.
  destruct (re_match (pattern_with n) line) as [g'|]; [eauto | congruence].
Qed.

Lemma parse_line_fields line location :
  parse_line line = Some location ->
  exists iso country city ping,
    location_line 1 line iso country city ping /\
    location = {| ISO := strip iso; Country := strip country;
                  City := strip city; Ping_Estimate := strip ping |}.
Proof.
  unfold parse_line. rewrite location_pattern_eq.
  destruct (re_match (pattern_with 1) line) as [g|] eqn:Hm; [|discriminate].
  apply re_match_pattern in Hm as (iso & country & city & ping & -> & Hl).
  intros H. inversion H. eauto 10.
Qed.

Lemma parse_line_accepts line iso country city ping :
  location_line 1 line iso country city ping ->
  exists location, parse_line line = Some location.
Proof.
  intros H. unfold parse_line. rewrite location_pattern_eq.
  destruct (pattern_re_match _ _ _ _ _ _ H) as [g Hg]. rewrite Hg.
  apply re_match_pattern in Hg as (i & c & t & p & -> & _). eauto.
Qed.

(** The loop keeps the locations in the order of their lines. *)
Lemma parse_lines_acc lines : forall acc,
  parse_lines lines acc = acc ++ omap parse_line lines.
Proof.
  induction lines as [|line lines IH]; intros acc; simpl.
  - rewrite app_nil_r. reflexivity.
  - destruct (parse_line line) as [location|]; rewrite IH; auto.
    rewrite <- app_assoc. reflexivity.
Qed.

(** What [get_locations] returns is the parse of the command's output. *)
Lemma get_locations_returns E w locations w' :
  get_locations E w = (Ok locations, w') ->
  locations <> [] /\
  locations = omap parse_line
                (splitlines (snd (completed E (clock w)
                                    [ADGUARD_CLI_PATH; "list-locations"]))).
Proof.
  unfold get_locations, run_command, subprocess, external, logging.
  unfold bind, try_except, modify, gets, ret, raise, sys_exit. cbn.
  destruct (fault E (clock w) _) as [e|]; cbn.
  - destruct e; cbn; discriminate.
  - destruct (fst (completed E (clock w) _) =? 0)%Z; cbn; [|discriminate].
    rewrite parse_lines_acc. cbn [app].
    destruct (omap parse_line _) as [|l ls]; cbn; [discriminate|].
    intros H. inversion H; subst. split; [discriminate|reflexivity].
Qed.

(** C5 (amended).  Catalog parse: a line of the command's output becomes
    a location exactly when it reads: optional white space, a code of
    two letters A-Z, one or more white space characters, a country, two
    or more white space characters, a city, two or more white space
    characters, a ping in decimal digits, optional white space; the
    location then carries the stripped fields of one such reading.  All
    other lines are passed over, the locations keep the order of their
    lines, [get_locations] returns exactly this list, and the sample line
    with the header line yields the single location (US, United States,
    New York, 12). *)
Theorem catalog_parse_correctness :
  (forall line,
     (exists location, parse_line line = Some location) <->
     (exists iso country city ping, location_line 1 line iso country city ping)) /\
  (forall line location,
     parse_line line = Some location ->
     exists iso country city ping,
       location_line 1 line iso country city ping /\
       location = {| ISO := strip iso; Country := strip country;
                     City := strip city; Ping_Estimate := strip ping |}) /\
  (forall lines, parse_lines lines [] = omap parse_line lines) /\
  (forall E w locations w',
     get_locations E w = (Ok locations, w') ->
     locations = omap parse_line
                   (splitlines (snd (completed E (clock w)
                                       [ADGUARD_CLI_PATH; "list-locations"])))) /\
  parse_lines [sample_line; header_line] [] = [sample_location] /\
  parse_lines [header_line_single_gaps; sample_line] [] = [sample_location].
Proof.
  split; [|split; [|split; [|split; [|split]]]].
  - intros line. split.
    + intros [location H]. apply parse_line_fields in H.
      destruct H as (iso & country & city & ping & H & _). eauto.
    + intros (iso & country & city & ping & H).
      eapply parse_line_accepts; eauto.
  - apply parse_line_fields.
  - intros lines. apply (parse_lines_acc lines []).
  - intros E w locations w' H. apply get_locations_returns in H. tauto.
  - vm_compute. reflexivity.
  - vm_compute. reflexivity.
Qed.

Lemma catalog_parse_correctness_witness :
  exists location, parse_line sample_line = Some location.
Proof.
  apply (proj1 catalog_parse_correctness sample_line).
  exists (list_ascii_of_string "US"), (list_ascii_of_string "United States"),
         (list_ascii_of_string "New York"), (list_ascii_of_string "12").
  exists [], (list_ascii_of_string "   "), (list_ascii_of_string "        "),
         (list_ascii_of_string "            "), [].
  unfold run_of. cbn. repeat split; auto; lia.
Defined.

(** A line with a single space after the code is not a location line in
    the words of the specification, and yet it becomes a location. *)
Lemma catalog_single_space_counterexample :
  let line := list_ascii_of_string "US United States  New York  12" in
  parse_lines [line] [] = [sample_location] /\ ~ spec_location_line line.
Proof.
  split.
  - vm_compute. reflexivity.
  - intros (iso & country & city & ping & H).
    apply pattern_re_match in H. destruct H as [g Hg].
    vm_compute in Hg. discriminate.
Qed.

End CatalogFacts.

(* ===================================================================== *)
(** * Reasoning about computations *)
(* ===================================================================== *)

Module PyFacts.
Import Py.

Section Hoare.
Context {W : Type}.

(** [hoare P m Q]: from a state in [P], [m] ends with a result and in a
    state related by [Q].  Every computation of [M] ends, so this is total
    correctness. *)
Definition hoare {A} (P : W -> Prop) (m : M W A) (Q : result A -> W -> Prop) : Prop :=
  forall w, P w -> Q (fst (m w)) (snd (m w)).

(** [preserves P m]: [P] is an invariant of [m], whether it returns or
    raises. *)
Definition preserves {A} (P : W -> Prop) (m : M W A) : Prop :=
  forall w, P w -> P (snd (m w)).

Lemma hoare_consequence {A} (P P' : W -> Prop) (m : M W A) (Q Q' : result A -> W -> Prop) :
  hoare P' m Q' -> (forall w, P w -> P' w) -> (forall r w, Q' r w -> Q r w) ->
  hoare P m Q.
Proof. unfold hoare. auto. Qed.

Lemma hoare_ret {A} (P : W -> Prop) (a : A) (Q : result A -> W -> Prop) :
  (forall w, P w -> Q (Ok a) w) -> hoare P (ret a) Q.
Proof. unfold hoare. simpl. auto. Qed.

Lemma hoare_raise {A} (P : W -> Prop) (e : exn) (Q : result A -> W -> Prop) :
  (forall w, P w -> Q (Raise e) w) -> hoare P (raise e) Q.
Proof. unfold hoare. simpl. auto. Qed.

Lemma hoare_gets {A} (P : W -> Prop) (f : W -> A) (Q : result A -> W -> Prop) :
  (forall w, P w -> Q (Ok (f w)) w) -> hoare P (gets f) Q.
Proof. unfold hoare. simpl. auto. Qed.

Lemma hoare_modify (P : W -> Prop) (f : W -> W) (Q : result unit -> W -> Prop) :
  (forall w, P w -> Q (Ok tt) (f w)) -> hoare P (modify f) Q.
Proof. unfold hoare. simpl. auto. Qed.

Lemma hoare_bind {A B} (P : W -> Prop) (m : M W A) (f : A -> M W B)
    (Q1 : result A -> W -> Prop) (Q : result B -> W -> Prop) :
  hoare P m Q1 ->
  (forall a, hoare (Q1 (Ok a)) (f a) Q) ->
  (forall e w, Q1 (Raise e) w -> Q (Raise e) w) ->
  hoare P (bind m f) Q.
Proof.
  unfold hoare, bind. intros Hm Hf He w Hw. specialize (Hm w Hw).
  destruct (m w) as [[a|e] w1]; simpl in *; auto.
Qed.

Lemma hoare_try_except {A} (P : W -> Prop) (m : M W A) (h : exn -> option (M W A))
    (Q1 Q : result A -> W -> Prop) :
  hoare P m Q1 ->
  (forall a w, Q1 (Ok a) w -> Q (Ok a) w) ->
  (forall e, match h e with
             | Some handler => hoare (Q1 (Raise e)) handler Q
             | None => forall w, Q1 (Raise e) w -> Q (Raise e) w
             end) ->
  hoare P (try_except m h) Q.
Proof.
  unfold hoare, try_except. intros Hm Hok Hh w Hw. specialize (Hm w Hw).
  destruct (m w) as [[a|e] w1]; simpl in *; auto.
  specialize (Hh e). destruct (h e); simpl; auto.
Qed.

Lemma hoare_try_finally {A} (P : W -> Prop) (m : M W A) (f : M W unit)
    (Q1 Q : result A -> W -> Prop) :
  hoare P m Q1 ->
  (forall r, hoare (Q1 r) f
               (fun r' w => match r' with Ok _ => Q r w | Raise e => Q (Raise e) w end)) ->
  hoare P (try_finally m f) Q.
Proof.
  unfold hoare, try_finally. intros Hm Hf w Hw. specialize (Hm w Hw).
  destruct (m w) as [r w1]; simpl in *.
  specialize (Hf r w1 Hm). destruct (f w1) as [[u|e] w2]; simpl in *; auto.
Qed.

(** ** Invariants *)

Lemma preserves_hoare {A} (P : W -> Prop) (m : M W A) :
  preserves P m -> hoare P m (fun _ => P).
Proof. unfold preserves, hoare. auto. Qed.

Lemma preserves_ret {A} (P : W -> Prop) (a : A) : preserves P (ret a).
Proof. unfold preserves. simpl. auto. Qed.

Lemma preserves_raise {A} (P : W -> Prop) (e : exn) : preserves P (@raise W A e).
Proof. unfold preserves. simpl. auto. Qed.

Lemma preserves_gets {A} (P : W -> Prop) (f : W -> A) : preserves P (gets f).
Proof. unfold preserves. simpl. auto. Qed.

Lemma preserves_modify (P : W -> Prop) (f : W -> W) :
  (forall w, P w -> P (f w)) -> preserves P (modify f).
Proof. unfold preserves. simpl. auto. Qed.

Lemma preserves_bind {A B} (P : W -> Prop) (m : M W A) (f : A -> M W B) :
  preserves P m -> (forall a, preserves P (f a)) -> preserves P (bind m f).
Proof.
  unfold preserves, bind. intros Hm Hf w Hw. specialize (Hm w Hw).
  destruct (m w) as [[a|e] w1]; simpl in *; auto.
Qed.

Lemma preserves_try_except {A} (P : W -> Prop) (m : M W A) (h : exn -> option (M W A)) :
  preserves P m ->
  (forall e handler, h e = Some handler -> preserves P handler) ->
  preserves P (try_except m h).
Proof.
  unfold preserves, try_except. intros Hm Hh w Hw. specialize (Hm w Hw).
  destruct (m w) as [[a|e] w1]; simpl in *; auto.
  destruct (h e) eqn:He; simpl; eauto.
Qed.

Lemma preserves_try_finally {A} (P : W -> Prop) (m : M W A) (f : M W unit) :
  preserves P m -> preserves P f -> preserves P (try_finally m f).
Proof.
  unfold preserves, try_finally. intros Hm Hf w Hw. specialize (Hm w Hw).
  destruct (m w) as [r w1]; simpl in *.
  specialize (Hf w1 Hm). destruct (f w1) as [[u|e] w2]; simpl in *; auto.
Qed.

End Hoare.

(** One syntax-directed step of an invariance proof. *)
Ltac preserves_step :=
  lazymatch goal with
  | |- preserves _ (bind _ _) => apply preserves_bind; [|intros ?]
  | |- preserves _ (ret _) => apply preserves_ret
  | |- preserves _ (raise _) => apply preserves_raise
  | |- preserves _ (sys_exit _) => apply preserves_raise
  | |- preserves _ (gets _) => apply preserves_gets
  | |- preserves _ (modify _) => apply preserves_modify; intros ? ?
  | |- preserves _ (try_finally _ _) => apply preserves_try_finally
  | |- preserves _ (if ?b then _ else _) => destruct b
  | |- preserves _ (match ?x with _ => _ end) => destruct x
  end.

End PyFacts.

(* ===================================================================== *)
(** * Frame lemmas for the script's functions *)
(* ===================================================================== *)

Module Frames.
Import PyStr Re Py Script Props PyFacts.

Section Invariant.
Variable E : Env.
Variable P : World -> Prop.
Variable ok : call -> Prop.

(** What an invariant may have to withstand: one more log record, an
    external call among those in [ok], and an update of each part of the
    state. *)
Hypothesis Hlog : forall w entry, P w -> P (set_log (log w ++ [entry]) w).
Hypothesis Hcall : forall w c, ok c -> P w -> P (tick c w).
Hypothesis Hsock : forall w v, P w -> P (set_socket_socket v w).
Hypothesis Hproxy : forall w v, P w -> P (set_default_proxy v w).
Hypothesis Hcwd : forall w v, P w -> P (set_cwd v w).
Hypothesis Hnames : forall w v, P w -> P (set_fieldnames v w).
Hypothesis Hnew : forall w v, P w -> P (set_is_new_file v w).
Hypothesis Hfile : forall w v, P w -> P (set_RESULTS_CSV_FILE v w).

Lemma logging_preserves l m : preserves P (logging l m).
Proof.
  destruct l; simpl; try apply preserves_ret;
    apply preserves_modify; intros w Hw; apply Hlog; auto.
Qed.

Lemma external_preserves c : ok c -> preserves P (external E c).
Proof.
  intros Hc w Hw. unfold external.
  destruct (fault E (clock w) c); simpl; apply Hcall; auto.
Qed.

Ltac frame :=
  repeat lazymatch goal with
    | |- preserves _ (logging _ _) => apply logging_preserves
    | |- preserves _ (external _ _) => apply external_preserves
    | |- preserves _ (try_except _ _) => fail
    | |- preserves _ _ => preserves_step
    end; auto.

Lemma subprocess_preserves command check :
  ok (subprocess_run command) -> preserves P (subprocess E command check).
Proof. intros Hc. unfold subprocess. frame. Qed.

Lemma run_command_preserves command check :
  ok (subprocess_run command) -> preserves P (run_command E command check).
Proof.
  intros Hc. unfold run_command. frame.
  apply preserves_try_except.
  - frame. apply subprocess_preserves; auto.
  - intros e handler He.
    destruct e; simpl in He; inversion He; subst; frame.
Qed.

Lemma get_locations_preserves :
  ok (subprocess_run [ADGUARD_CLI_PATH; "list-locations"]) ->
  preserves P (get_locations E).
Proof. intros Hc. unfold get_locations. frame. apply run_command_preserves; auto. Qed.

Lemma st_call_preserves op :
  (forall via, ok (speedtest op via)) -> preserves P (st_call E op).
Proof. intros Hc. unfold st_call. frame. Qed.

Lemma measure_preserves :
  (forall op via, ok (speedtest op via)) -> preserves P (measure E).
Proof.
  intros Hc. unfold measure. frame; apply st_call_preserves; auto.
Qed.

Lemma restore_and_disconnect_preserves iso original_socket :
  ok (subprocess_run [ADGUARD_CLI_PATH; "disconnect"]) ->
  preserves P (restore_and_disconnect E iso original_socket).
Proof.
  intros Hc. unfold restore_and_disconnect. frame.
  apply run_command_preserves; auto.
Qed.

Lemma write_line_preserves r : preserves P (write_line r).
Proof. unfold write_line. frame. Qed.

Lemma record_result_preserves location speed_results :
  preserves P (record_result location speed_results).
Proof.
  unfold record_result, writeheader, writerow. frame; apply write_line_preserves.
Qed.

Lemma connect_preserves iso :
  ok (subprocess_run (connect_command iso)) -> preserves P (connect E iso).
Proof.
  intros Hc. unfold connect. apply preserves_try_except.
  - frame. apply run_command_preserves; auto.
  - intros e handler He. destruct e; simpl in He; inversion He; subst; frame.
Qed.

Lemma guarded_measure_preserves iso :
  (forall op via, ok (speedtest op via)) ->
  preserves P (guarded_measure E iso).
Proof.
  intros Hs. unfold guarded_measure. apply preserves_try_except.
  - apply measure_preserves; auto.
  - intros e handler He. destruct (is_Exception e); inversion He; subst; frame.
Qed.

Lemma measured_cycle_preserves location :
  ok (subprocess_run [ADGUARD_CLI_PATH; "disconnect"]) ->
  (forall op via, ok (speedtest op via)) ->
  (forall speed_results,
     speed_results <> [] -> preserves P (record_result location speed_results)) ->
  preserves P (measured_cycle E location).
Proof.
  intros Hd Hs Hrec. unfold measured_cycle. frame.
  - apply guarded_measure_preserves; auto.
  - apply restore_and_disconnect_preserves; auto.
Qed.

Lemma test_and_record_speed_preserves location :
  ok (subprocess_run (connect_command (ISO location))) ->
  ok (subprocess_run [ADGUARD_CLI_PATH; "disconnect"]) ->
  (forall op via, ok (speedtest op via)) ->
  (forall speed_results,
     speed_results <> [] -> preserves P (record_result location speed_results)) ->
  preserves P (test_and_record_speed E location).
Proof.
  intros Hc Hd Hs Hrec. unfold test_and_record_speed. frame.
  - apply connect_preserves; auto.
  - apply measured_cycle_preserves; auto.
Qed.

Lemma location_loop_preserves tested_nodes total locations : forall i,
  (forall location, In location locations -> ISO location ∉ tested_nodes ->
                    ok (subprocess_run (connect_command (ISO location)))) ->
  ok (subprocess_run [ADGUARD_CLI_PATH; "disconnect"]) ->
  (forall op via, ok (speedtest op via)) ->
  (forall name, ok (flush_file name)) ->
  (forall location speed_results,
     In location locations -> ISO location ∉ tested_nodes -> speed_results <> [] ->
     preserves P (record_result location speed_results)) ->
  preserves P (location_loop E tested_nodes total i locations).
Proof.
  induction locations as [|location rest IH]; intros i Hc Hd Hs Hf Hrec;
    cbn [location_loop].
  - apply preserves_ret.
  - apply preserves_bind;
      [|intros _; apply IH; auto; intros; [apply Hc|apply Hrec]; simpl; auto].
    destruct (bool_decide (ISO location ∈ tested_nodes)) eqn:Hin.
    + apply logging_preserves.
    + apply bool_decide_eq_false in Hin. frame.
      apply test_and_record_speed_preserves; auto.
      * apply Hc; simpl; auto.
      * intros sr Hsr. apply Hrec; simpl; auto.
Qed.

Lemma load_tested_nodes_preserves :
  (forall name, ok (open_file name "r")) -> preserves P (load_tested_nodes E).
Proof.
  intros Hc. unfold load_tested_nodes. frame.
  apply preserves_try_except; [frame|].
  intros e handler He. destruct (is_Exception e); inversion He; subst; frame.
Qed.

Lemma open_results_preserves :
  (forall name mode, ok (open_file name mode)) -> preserves P (open_results E).
Proof.
  intros Hc. unfold open_results, open_append. frame.
  destruct (file_of _ _); auto.
Qed.

End Invariant.

End Frames.

(* ===================================================================== *)
(** * The measurement cycle *)
(* ===================================================================== *)

Module CycleFacts.
Import PyStr Re Py Script Props PyFacts Frames.

Ltac unfold_monad :=
  unfold bind, try_except, try_finally, modify, gets, ret, raise, sys_exit.

Ltac norm_nat H := cbn in H; rewrite ?Nat.add_succ_r, ?Nat.add_0_r in H.

Ltac use_faults :=
  repeat match goal with
    | H : fault ?E ?n ?c = _ |- context [fault ?E ?n ?c] => rewrite H; cbn
    end.

Ltac cycle_end :=
  cbn; repeat split; auto; try (intros; congruence);
  repeat (rewrite in_app_iff; simpl); auto 20.

Ltac unfold_cycle :=
  unfold test_and_record_speed, connect, measured_cycle, guarded_measure, measure,
    restore_and_disconnect, st_call, run_command, subprocess, external, logging;
  unfold_monad; cbn.

(** Discharges the side conditions of the frame lemmas for an invariant
    that reads fields the update leaves alone. *)
Ltac stable := intros; cbn in *; intuition auto.

Section Steps.
Context {A B : Type}.

Lemma bind_gets (f : World -> A) (k : A -> M World B) w :
  bind (gets f) k w = k (f w) w.
Proof. reflexivity. Qed.

Lemma bind_modify (g : World -> World) (k : unit -> M World B) w :
  bind (modify g) k w = k tt (g w).
Proof. reflexivity. Qed.

Lemma snd_try_finally (m : M World A) (f : M World unit) w :
  snd (try_finally m f w) = snd (f (snd (m w))).
Proof.
  unfold try_finally. destruct (m w) as [r w1]. simpl.
  destruct (f w1) as [[u|e] w2]; reflexivity.
Qed.

Lemma snd_bind_preserves (P : World -> Prop) (m : M World A) (f : A -> M World B) w :
  P (snd (m w)) -> (forall a, preserves P (f a)) -> P (snd (bind m f w)).
Proof.
  unfold bind. intros Hm Hf. destruct (m w) as [[a|e] w1]; simpl in *; auto.
  apply Hf; auto.
Qed.

End Steps.

(** The inner [finally] leaves the socket class it was given and no
    default proxy, whatever the state it starts from and whatever the
    disconnect call does. *)
Lemma restore_resets E iso original_socket w :
  let w' := snd (restore_and_disconnect E iso original_socket w) in
  socket_socket w' = original_socket /\ default_proxy w' = None.
Proof.
  unfold restore_and_disconnect. rewrite !bind_modify.
  apply (snd_bind_preserves
           (fun x => socket_socket x = original_socket /\ default_proxy x = None)).
  - cbn. auto.
  - intros _. apply preserves_bind; [|intros; apply preserves_ret].
    apply run_command_preserves with (ok := fun _ => True); auto; stable.
Qed.

Lemma measured_cycle_reverts E location w :
  let w' := snd (measured_cycle E location w) in
  socket_socket w' = socket_socket w /\ default_proxy w' = None.
Proof.
  unfold measured_cycle. rewrite bind_gets.
  apply (snd_bind_preserves
           (fun x => socket_socket x = socket_socket w /\ default_proxy x = None)).
  - rewrite snd_try_finally. apply restore_resets.
  - intros [|kv speed_results]; [apply preserves_ret|].
    apply record_result_preserves; stable.
Qed.

(** The first call of a measurement is made through the proxy, and the
    call stays on record. *)
(** [x] has made the calls [calls] and possibly more after them. *)
Definition called (calls : list call) (x : World) : Prop :=
  exists later, trace x = calls ++ later.

Lemma called_tick calls x c : called calls x -> called calls (tick c x).
Proof.
  intros [later H]. exists (later ++ [c]). cbn. rewrite H, app_assoc. reflexivity.
Qed.

Lemma measure_uses_proxy E w :
  called (trace w ++ [speedtest st_Speedtest proxied]) (snd (measure E w)).
Proof.
  unfold measure. rewrite !bind_modify.
  unfold logging at 1. rewrite bind_modify.
  apply (snd_bind_preserves (called (trace w ++ [speedtest st_Speedtest proxied]))).
  - unfold st_call, external. unfold_monad. cbn.
    exists []. rewrite app_nil_r. destruct (fault E (clock w) _); reflexivity.
  - intros _.
    repeat lazymatch goal with
      | |- preserves _ (logging _ _) => apply logging_preserves
      | |- preserves _ (st_call _ _) =>
          apply st_call_preserves with (ok := fun _ => True)
      | |- preserves _ _ => preserves_step
      end; auto; intros; try apply called_tick; auto.
Qed.

Lemma measured_cycle_uses_proxy E location w :
  exists later,
    trace (snd (measured_cycle E location w))
    = trace w ++ speedtest st_Speedtest proxied :: later.
Proof.
  set (P := called (trace w ++ [speedtest st_Speedtest proxied])).
  assert (Hcall : forall (x : World) (c : call), True -> P x -> P (tick c x)).
  { intros x c _ Hx. apply called_tick. auto. }
  assert (Hgoal : P (snd (measured_cycle E location w)));
    [|destruct Hgoal as [later Hl]; exists later; rewrite Hl, <- app_assoc;
      reflexivity].
  unfold measured_cycle. rewrite bind_gets.
  apply (snd_bind_preserves P).
  - rewrite snd_try_finally.
    apply (restore_and_disconnect_preserves E P (fun _ => True)); auto;
      try (unfold P; stable).
    unfold guarded_measure, try_except.
    pose proof (measure_uses_proxy E w) as Hm.
    destruct (measure E w) as [[res|e] w1]; simpl in *; auto.
    destruct (is_Exception e); simpl; auto.
  - intros [|kv speed_results]; [apply preserves_ret|].
    apply record_result_preserves; unfold P; stable.
Qed.


#[local] Arguments measured_cycle : simpl never.

(** With a successful connect, the cycle is [measured_cycle] run after the
    connect call. *)
Lemma cycle_after_connect E location w :
  connect_succeeds E (ISO location) w ->
  exists w1,
    test_and_record_speed E location w = measured_cycle E location w1 /\
    socket_socket w1 = socket_socket w /\
    trace w1 = trace w ++ [subprocess_run (connect_command (ISO location))].
Proof.
  intros [H1 H2].
  unfold test_and_record_speed, connect, run_command, subprocess, external, logging.
  unfold_monad. cbn. rewrite H1. cbn. rewrite H2. cbn.
  eexists. split; [reflexivity|]. cbn. auto.
Qed.

(** C3. No orphaned proxy state: in every measurement cycle whose connect
    step succeeds, the measurement goes through the SOCKS proxy, and when
    the cycle ends, whether the measurement returned or raised and
    whatever the disconnect call did, [socket.socket] is again the class
    found at entry and no default proxy is set, so that a connection
    opened afterwards is direct. *)
Theorem no_orphaned_proxy_state E location w :
  connect_succeeds E (ISO location) w ->
  let w' := snd (test_and_record_speed E location w) in
  (exists later,
     trace w' = trace w ++ subprocess_run (connect_command (ISO location))
                        :: speedtest st_Speedtest proxied :: later) /\
  socket_socket w' = socket_socket w /\
  default_proxy w' = None /\
  current_route w' = Direct.
Proof.
  intros H. destruct (cycle_after_connect E location w H) as (w1 & -> & Hs & Ht).
  cbn zeta.
  destruct (measured_cycle_reverts E location w1) as [Hsock Hproxy].
  destruct (measured_cycle_uses_proxy E location w1) as [later Hlater].
  repeat split.
  - exists later. rewrite Hlater, Ht, <- app_assoc. reflexivity.
  - congruence.
  - exact Hproxy.
  - unfold current_route. rewrite Hproxy.
    match goal with |- match ?x with _ => _ end = _ => destruct x end;
      reflexivity.
Qed.

Lemma no_orphaned_proxy_state_witness :
  connect_succeeds download_times_out "US" (fresh download_times_out machine []) /\
  current_route (snd (test_and_record_speed download_times_out new_york
                        (fresh download_times_out machine []))) = Direct.
Proof.
  assert (H : connect_succeeds download_times_out (ISO new_york)
                (fresh download_times_out machine [])).
  { split; reflexivity. }
  split; [exact H|].
  apply (no_orphaned_proxy_state download_times_out new_york _ H).
Defined.

(** C6. Skip on failed connect: when the connect invocation of a cycle
    exits with a non-zero code, the cycle returns at once: the connect
    call is the only external call it makes (no measurement call, hence
    no proxied one), [socket.socket] and the default proxy are not
    touched, the result file, the writer's header and the new-file flag
    are unchanged, the failure is logged, and the cycle returns
    normally, so the loop goes on. *)
Theorem skip_on_failed_connect E location w :
  connect_exits_nonzero E (ISO location) w ->
  let r := fst (test_and_record_speed E location w) in
  let w' := snd (test_and_record_speed E location w) in
  r = Ok tt /\
  cwd w' = cwd w /\ fieldnames w' = fieldnames w /\ is_new_file w' = is_new_file w /\
  trace w' = trace w ++ [subprocess_run (connect_command (ISO location))] /\
  socket_socket w' = socket_socket w /\ default_proxy w' = default_proxy w /\
  In (ERROR, ConnectFailed (ISO location)) (log w').
Proof.
  intros [H1 H2]. apply Z.eqb_neq in H2.
  unfold_cycle. rewrite H1. cbn. rewrite H2. cycle_end.
Qed.

Lemma skip_on_failed_connect_witness :
  connect_exits_nonzero connect_refused "US" (fresh connect_refused machine []) /\
  cwd (snd (test_and_record_speed connect_refused new_york
              (fresh connect_refused machine []))) = [].
Proof.
  assert (H : connect_exits_nonzero connect_refused (ISO new_york)
                (fresh connect_refused machine [])).
  { split; [reflexivity | discriminate]. }
  split; [exact H|].
  apply (skip_on_failed_connect connect_refused new_york _ H).
Defined.

(** C7. No record on measurement failure: when the connect step of a
    cycle succeeds and one of the measurement calls (client set-up,
    server discovery, download, upload) raises an [Exception], the
    exception is caught and logged and nothing is written: the result
    file, the writer's header and the new-file flag are as before.  The
    cycle then returns normally, so the loop goes on, as soon as the
    disconnect call of the [finally] clause returns. *)
Theorem no_record_on_measurement_failure E location w k e :
  connect_succeeds E (ISO location) w ->
  measurement_raises E (S (clock w)) k e ->
  is_Exception e = true ->
  let r := fst (test_and_record_speed E location w) in
  let w' := snd (test_and_record_speed E location w) in
  In (ERROR, MeasureError (ISO location) e) (log w') /\
  cwd w' = cwd w /\ fieldnames w' = fieldnames w /\ is_new_file w' = is_new_file w /\
  (fault E (S (clock w) + k + 1) (subprocess_run disconnect_command) = None ->
   r = Ok tt).
Proof.
  intros [H1 H2] [(op & Hop & Hk) Hj] He.
  assert (k < 5) by (apply lookup_lt_Some in Hop; simpl in Hop; lia).
  pose proof (Hj 0 st_Speedtest) as F0.
  pose proof (Hj 1 st_get_servers) as F1.
  pose proof (Hj 2 st_get_best_server) as F2.
  pose proof (Hj 3 st_download) as F3.
  clear Hj.
  unfold_cycle. rewrite H1. cbn. rewrite H2. cbn.
  unfold proxied, SOCKS_HOST, SOCKS_PORT, disconnect_command in *.
  destruct k as [|[|[|[|[|k]]]]]; [| | | | |lia];
    cbn in Hop; inversion Hop; subst op; clear Hop;
    repeat match goal with
      | F : ?a < ?b -> _ |- _ =>
          first [ specialize (F ltac:(lia) eq_refl); norm_nat F | clear F ]
      end;
    norm_nat Hk; rewrite ?Nat.add_succ_r, ?Nat.add_0_r;
    use_faults; rewrite He; cbn;
    match goal with
    | |- context [fault E ?n (subprocess_run ?c)] =>
        destruct (fault E n (subprocess_run c)) as [e0|] eqn:Hd;
        [destruct e0|]; cycle_end
    end.
Qed.

Lemma no_record_on_measurement_failure_witness :
  let w := fresh download_times_out machine [] in
  connect_succeeds download_times_out "US" w /\
  measurement_raises download_times_out 1 3 (OtherError "SpeedtestException") /\
  fst (test_and_record_speed download_times_out new_york w) = Ok tt /\
  cwd (snd (test_and_record_speed download_times_out new_york w)) = [].
Proof.
  set (w := fresh download_times_out machine []).
  assert (H1 : connect_succeeds download_times_out (ISO new_york) w).
  { split; reflexivity. }
  assert (H2 : measurement_raises download_times_out (S (clock w)) 3
                 (OtherError "SpeedtestException")).
  { split.
    - exists st_download. split; reflexivity.
    - intros j op Hj Hop.
      destruct j as [|[|[|j]]]; [| | |lia]; inversion Hop; reflexivity. }
  pose proof (no_record_on_measurement_failure download_times_out new_york w 3 _
                H1 H2 eq_refl) as (_ & Hcwd & _ & _ & Hr).
  split; [exact H1|]. split; [exact H2|]. split; [exact (Hr eq_refl)|exact Hcwd].
Defined.

End CycleFacts.

(* ===================================================================== *)
(** * The resume set *)
(* ===================================================================== *)

Module ResumeFacts.
Import PyStr Re Py Script Props PyFacts Frames.

(** ** Dicts *)

Lemma dict_get_set {V} (k k' : string) (v : V) (d : dict V) :
  dict_get k (dict_set k' v d) = if String.eqb k k' then Some v else dict_get k d.
Proof.
  induction d as [|[k0 v0] d IH]; simpl.
  - reflexivity.
  - destruct (String.eqb k' k0) eqn:H0; simpl.
    + apply String.eqb_eq in H0. subst k0.
      destruct (String.eqb k k'); reflexivity.
    + rewrite IH. destruct (String.eqb k k0) eqn:H1; auto.
      apply String.eqb_eq in H1. subst k0.
      rewrite String.eqb_sym, H0. reflexivity.
Qed.

(** The value the last pair for [k] in [l] gives, [acc] when there is
    none. *)
Definition last_value {V} (k : string) (l : list (string * V)) (acc : option V)
    : option V :=
  fold_left (fun a kv => if String.eqb k (fst kv) then Some (snd kv) else a) l acc.

Lemma dict_get_fold_set {V} (k : string) (l : list (string * V)) : forall d,
  dict_get k (fold_left (fun d kv => dict_set (fst kv) (snd kv) d) l d)
  = last_value k l (dict_get k d).
Proof.
  induction l as [|[k0 v0] l IH]; intros d; simpl.
  - reflexivity.
  - rewrite IH, dict_get_set. reflexivity.
Qed.

Lemma last_value_In {V} (k : string) (l : list (string * V)) : forall acc v,
  last_value k l acc = Some v -> acc = Some v \/ In (k, v) l.
Proof.
  induction l as [|[k0 v0] l IH]; intros acc v H; simpl in *.
  - auto.
  - apply IH in H. destruct H as [H|H]; auto.
    destruct (String.eqb k k0) eqn:Hk; auto.
    apply String.eqb_eq in Hk. inversion H; subst. auto.
Qed.

Lemma last_value_absent {V} (k : string) (l : list (string * V)) : forall acc,
  (forall v, ~ In (k, v) l) -> last_value k l acc = acc.
Proof.
  induction l as [|[k0 v0] l IH]; intros acc H; simpl.
  - reflexivity.
  - rewrite IH; [|intros v Hv; apply (H v); simpl; auto].
    destruct (String.eqb k k0) eqn:Hk; auto.
    apply String.eqb_eq in Hk. subst. exfalso. apply (H v0). simpl. auto.
Qed.

Lemma last_value_app {V} (k : string) (l1 l2 : list (string * V)) acc :
  last_value k (l1 ++ l2) acc = last_value k l2 (last_value k l1 acc).
Proof. unfold last_value. apply fold_left_app. Qed.

Lemma dict_get_restval (k : string) (keys : list string) :
  forall (d : dict (option string)) v,
    dict_get k (fold_left (fun d key => dict_set key None d) keys d) = Some (Some v) ->
    dict_get k d = Some (Some v).
Proof.
  induction keys as [|key keys IH]; intros d v H; simpl in *.
  - exact H.
  - apply IH in H. rewrite dict_get_set in H.
    destruct (String.eqb k key); [discriminate | exact H].
Qed.

Lemma dict_get_restval_other (k : string) (keys : list string) :
  forall (d : dict (option string)),
    ~ In k keys ->
    dict_get k (fold_left (fun d key => dict_set key None d) keys d) = dict_get k d.
Proof.
  induction keys as [|key keys IH]; intros d H; simpl in *.
  - reflexivity.
  - rewrite IH by tauto. rewrite dict_get_set.
    destruct (String.eqb k key) eqn:Hk; auto.
    apply String.eqb_eq in Hk. subst. tauto.
Qed.

(** ** One row *)

(** A row contributes only what stands in a column named [ISO], and
    nothing when that is empty. *)
Lemma row_iso_sound (names r : list string) (x : string) :
  row_iso (DictReader_row names r) = Some x ->
  x <> "" /\ exists j, names !! j = Some "ISO" /\ r !! j = Some x.
Proof.
  unfold row_iso, DictReader_row.
  destruct (dict_get "ISO" _) as [[v|]|] eqn:Hg; try discriminate.
  destruct (String.eqb v "") eqn:Hv; [discriminate|].
  intros H. inversion H; subst v. apply String.eqb_neq in Hv. split; [exact Hv|].
  apply dict_get_restval in Hg. unfold dict_of_pairs in Hg.
  rewrite dict_get_fold_set in Hg. apply last_value_In in Hg.
  destruct Hg as [Hg|Hg]; [discriminate|].
  apply list_elem_of_In, list_elem_of_lookup in Hg. destruct Hg as [j Hj].
  apply lookup_zip_with_Some in Hj.
  destruct Hj as (a & b & Heq & Ha & Hb). inversion Heq; subst.
  exists j. split; [exact Ha|].
  rewrite list_lookup_fmap in Hb.
  apply fmap_Some in Hb. destruct Hb as (c & Hc & Hsome).
  inversion Hsome; subst. exact Hc.
Qed.

(** With one column named [ISO], a non-empty cell in it is what the row
    contributes. *)
Lemma row_iso_complete (names r : list string) (j : nat) (x : string) :
  names !! j = Some "ISO" ->
  (forall j', names !! j' = Some "ISO" -> j' = j) ->
  r !! j = Some x -> x <> "" ->
  row_iso (DictReader_row names r) = Some x.
Proof.
  intros Hj Huniq Hr Hx. unfold row_iso, DictReader_row.
  assert (Hlt : j < length r) by (eapply lookup_lt_Some; eauto).
  rewrite dict_get_restval_other.
  - unfold dict_of_pairs. rewrite dict_get_fold_set.
    assert (Hz : zip names (map Some r) !! j = Some ("ISO", Some x)).
    { apply lookup_zip_with_Some. exists "ISO", (Some x).
      repeat split; auto. rewrite list_lookup_fmap, Hr. reflexivity. }
    rewrite <- (take_drop_middle _ _ _ Hz), last_value_app. simpl.
    rewrite last_value_absent.
    + apply String.eqb_neq in Hx. rewrite Hx. reflexivity.
    + intros v Hv. apply list_elem_of_In, list_elem_of_lookup in Hv.
      destruct Hv as [i Hi]. rewrite lookup_drop in Hi.
      apply lookup_zip_with_Some in Hi.
      destruct Hi as (a & b & Heq & Ha & _). inversion Heq; subst.
      apply Huniq in Ha. lia.
  - intros Hin. apply list_elem_of_In, list_elem_of_lookup in Hin.
    destruct Hin as [i Hi]. rewrite lookup_drop in Hi. apply Huniq in Hi. lia.
Qed.

(** ** The loop over the rows *)

Lemma row_iso_blank (names : row) : row_iso (DictReader_row names []) = None.
Proof.
  destruct (row_iso (DictReader_row names [])) as [x|] eqn:H; [|reflexivity].
  apply row_iso_sound in H. destruct H as (_ & j & _ & Hj). discriminate.
Qed.

Lemma scan_rows_spec (names : row) (data : list row) : forall tested_nodes x,
  x ∈ scan_rows names data tested_nodes <->
  x ∈ tested_nodes \/ exists r, In r data /\ row_iso (DictReader_row names r) = Some x.
Proof.
  induction data as [|r data IH]; intros tested x; simpl.
  - split; [auto | intros [H|(r & [] & _)]; exact H].
  - assert (Hstep :
      x ∈ tested \/ (exists r', (r = r' \/ In r' data) /\
                                row_iso (DictReader_row names r') = Some x) <->
      (x ∈ tested \/ row_iso (DictReader_row names r) = Some x) \/
      (exists r', In r' data /\ row_iso (DictReader_row names r') = Some x)).
    { split.
      - intros [H|(r' & [->|H] & Hr)]; eauto.
      - intros [[H|H]|(r' & H & Hr)]; eauto. }
    rewrite Hstep. clear Hstep.
    destruct r as [|c r].
    + rewrite IH, row_iso_blank. split; [intros [H|H]; auto|].
      intros [[H|H]|H]; auto. discriminate.
    + destruct (row_iso (DictReader_row names (c :: r))) as [iso|] eqn:Hiso;
        rewrite IH.
      * rewrite elem_of_union, elem_of_singleton.
        split; intros [[H|H]|H]; auto; [subst; auto|].
        inversion H; auto.
      * split; [intros [H|H]; auto|]. intros [[H|H]|H]; auto. discriminate.
Qed.

(** ** Reading a file *)

Lemma In_firstn {A} (n : nat) (l : list A) (x : A) : In x (firstn n l) -> In x l.
Proof.
  revert l. induction n as [|n IH]; intros [|a l]; simpl; try tauto.
  intros [H|H]; auto.
Qed.

Lemma read_tested_sound (f : csvfile) (x : string) :
  x ∈ fst (read_tested f) ->
  exists header data r,
    rows f = header :: data /\ In r data /\
    row_iso (DictReader_row header r) = Some x.
Proof.
  unfold read_tested.
  assert (Hpre : exists n, fst (csv_rows f) = firstn n (rows f)).
  { unfold csv_rows. destruct (corrupt f) as [[n e]|].
    - destruct (n <=? length (rows f)); simpl; [eauto|].
      exists (length (rows f)). rewrite firstn_all. reflexivity.
    - exists (length (rows f)). rewrite firstn_all. reflexivity. }
  destruct Hpre as [n Hn]. destruct (csv_rows f) as [yielded err]. simpl in Hn.
  subst yielded. destruct (rows f) as [|header data].
  - rewrite firstn_nil. simpl. intros H. apply not_elem_of_empty in H. tauto.
  - destruct n as [|n]; simpl.
    + intros H. apply not_elem_of_empty in H. tauto.
    + intros H. apply scan_rows_spec in H.
      destruct H as [H|(r & Hr & Hiso)]; [apply not_elem_of_empty in H; tauto|].
      exists header, data, r. repeat split; auto. eapply In_firstn; eauto.
Qed.

Lemma read_tested_exact (f : csvfile) (header : row) (data : list row) :
  corrupt f = None -> rows f = header :: data ->
  snd (read_tested f) = None /\
  forall x, x ∈ fst (read_tested f) <->
            exists r, In r data /\ row_iso (DictReader_row header r) = Some x.
Proof.
  intros Hc Hr. unfold read_tested, csv_rows. rewrite Hc, Hr. simpl.
  split; [reflexivity|]. intros x. rewrite scan_rows_spec.
  split; [intros [H|H]; auto; apply not_elem_of_empty in H; tauto | auto].
Qed.

(** ** [load_tested_nodes] *)

Ltac unfold_load :=
  unfold load_tested_nodes, external, logging;
  unfold bind, try_except, modify, gets, ret, raise; cbn.

(** Whatever the function returns is empty or was read from the chosen
    file. *)
Lemma load_tested_nodes_returns E w tested_nodes w' :
  load_tested_nodes E w = (Ok tested_nodes, w') ->
  tested_nodes = ∅ \/
  exists name f,
    latest_result_file (cwd w) = Some name /\ file_of name (cwd w) = Some f /\
    tested_nodes = fst (read_tested f).
Proof.
  unfold_load.
  destruct (latest_result_file (cwd w)) as [name|]; cbn;
    [|intros H; inversion H; auto].
  destruct (fault E (clock w) (open_file name "r")) as [e|]; cbn.
  - destruct (is_Exception e); cbn; intros H; inversion H; auto.
  - destruct (file_of name (cwd w)) as [f|] eqn:Hf.
    + destruct (snd (read_tested f)) as [e|]; cbn.
      * destruct (is_Exception e); cbn; intros H; inversion H; subst.
        right. eauto.
      * intros H. inversion H; subst. right. eauto.
    + cbn. intros H. inversion H; auto.
Qed.

(** Resume-load tolerance, as far as it goes: a reading that fails with
    an [Exception] after [n] rows does not abort the call, is logged, and
    leaves the chosen file active; the set returned holds what the rows
    read before the failure contribute. *)
Lemma load_tested_nodes_tolerates E w name f n e :
  latest_result_file (cwd w) = Some name -> file_of name (cwd w) = Some f ->
  fault E (clock w) (open_file name "r") = None ->
  corrupt f = Some (n, e) -> n <= length (rows f) -> is_Exception e = true ->
  let r := fst (load_tested_nodes E w) in
  let w' := snd (load_tested_nodes E w) in
  r = Ok (fst (read_tested f)) /\
  In (WARNING, ReadError e) (log w') /\
  RESULTS_CSV_FILE w' = name.
Proof.
  intros Hl Hf Ho Hc Hn He. unfold_load. rewrite Hl. cbn. rewrite Ho. cbn.
  rewrite Hf.
  assert (Herr : snd (read_tested f) = Some e).
  { unfold read_tested, csv_rows. rewrite Hc.
    apply Nat.leb_le in Hn. rewrite Hn.
    destruct (firstn n (rows f)); reflexivity. }
  rewrite Herr. rewrite He. cbn. repeat split; auto.
  rewrite !in_app_iff. simpl. auto.
Qed.

(** C10. The resume set: whatever [load_tested_nodes] returns holds only
    non-empty values read in a column named [ISO] of a row of the chosen
    result file, so a row without such a column, or with an empty
    value in it, contributes nothing and a location whose code no row
    carries is not in the set (and hence not skipped); and when the file
    is read to its end the set holds exactly what its rows contribute,
    which, for a header that names [ISO] once, is every non-empty cell
    of that column. *)
Theorem resume_set_contents E w tested_nodes w' :
  load_tested_nodes E w = (Ok tested_nodes, w') ->
  (forall x, x ∈ tested_nodes ->
     x <> "" /\
     exists name f header data r j,
       latest_result_file (cwd w) = Some name /\ file_of name (cwd w) = Some f /\
       rows f = header :: data /\ In r data /\
       header !! j = Some "ISO" /\ r !! j = Some x) /\
  (forall name f header data,
     latest_result_file (cwd w) = Some name -> file_of name (cwd w) = Some f ->
     fault E (clock w) (open_file name "r") = None -> corrupt f = None ->
     rows f = header :: data ->
     (forall x, x ∈ tested_nodes <->
                exists r, In r data /\ row_iso (DictReader_row header r) = Some x) /\
     (forall j r x,
        header !! j = Some "ISO" ->
        (forall j', header !! j' = Some "ISO" -> j' = j) ->
        In r data -> r !! j = Some x -> x <> "" -> x ∈ tested_nodes)).
Proof.
  intros Hload. split.
  - intros x Hx. apply load_tested_nodes_returns in Hload.
    destruct Hload as [->|(name & f & Hl & Hf & ->)];
      [apply not_elem_of_empty in Hx; tauto|].
    apply read_tested_sound in Hx.
    destruct Hx as (header & data & r & Hr & Hin & Hiso).
    apply row_iso_sound in Hiso. destruct Hiso as (Hne & j & Hj & Hrj).
    split; [exact Hne|]. exists name, f, header, data, r, j. auto 10.
  - intros name f header data Hl Hf Ho Hc Hr.
    destruct (read_tested_exact f header data Hc Hr) as [Herr Hexact].
    assert (Heq : tested_nodes = fst (read_tested f)).
    { revert Hload. unfold_load. rewrite Hl. cbn. rewrite Ho. cbn.
      rewrite Hf, Herr. cbn. intros H. inversion H. reflexivity. }
    subst tested_nodes. split; [exact Hexact|].
    intros j r x Hj Huniq Hin Hrj Hne. apply Hexact. exists r. split; [exact Hin|].
    eapply row_iso_complete; eauto.
Qed.

Lemma resume_set_contents_witness :
  "DE" ∈ match fst (load_tested_nodes calm
                      (fresh calm machine [(old_results, intact_results)])) with
         | Ok s => s
         | Raise _ => ∅
         end.
Proof.
  set (w := fresh calm machine [(old_results, intact_results)]).
  destruct (load_tested_nodes calm w) as [[s|e] w'] eqn:Hload;
    [|vm_compute in Hload; discriminate].
  cbn [fst].
  destruct (resume_set_contents calm w s w' Hload) as [_ Hexact].
  destruct (Hexact old_results intact_results results_header
              (tl (rows intact_results)) eq_refl eq_refl eq_refl eq_refl eq_refl)
    as [_ Hcells].
  apply (Hcells 0 ["DE"; "Germany"; "Berlin"; "30"; "88000000.0"; "39000000.0"; "21.0"]).
  - reflexivity.
  - intros [|[|[|[|[|[|[|j']]]]]]] Hj'; try discriminate; reflexivity.
  - simpl. auto.
  - reflexivity.
  - discriminate.
Defined.

(** C9, at the failing input: the chosen result file has a header and two
    records, and reading it raises after the first record.  The call
    returns, the failure is logged and the file stays the active one,
    but the set returned is not empty: it holds the code of the record
    read before the failure. *)
Theorem resume_load_keeps_rows_read :
  let w := fresh calm machine [(old_results, damaged_results)] in
  let r := fst (load_tested_nodes calm w) in
  let w' := snd (load_tested_nodes calm w) in
  (exists tested_nodes,
     r = Ok tested_nodes /\ elements tested_nodes = ["US"] /\ tested_nodes <> ∅) /\
  In (WARNING, ReadError csv_error) (log w') /\
  RESULTS_CSV_FILE w' = old_results.
Proof.
  cbn zeta. split; [|split].
  - eexists. split; [vm_compute; reflexivity|]. split; [vm_compute; reflexivity|].
    intros H. apply (f_equal elements) in H. vm_compute in H. discriminate.
  - vm_compute. auto.
  - vm_compute. reflexivity.
Qed.

End ResumeFacts.

(* ===================================================================== *)
(** * The loop over the catalog *)
(* ===================================================================== *)

Module LoopFacts.
Import PyStr Re Py Script Props PyFacts Frames.

(** ** Computations that do not read the log *)

(** [logfree m]: from two states that differ at most in their logs, [m]
    gives the same result and again two such states. *)
Definition logfree {A} (m : M World A) : Prop :=
  forall a b, same_but_log a b ->
    fst (m a) = fst (m b) /\ same_but_log (snd (m a)) (snd (m b)).

Lemma same_but_log_refl a : same_but_log a a.
Proof. reflexivity. Qed.

Lemma same_but_log_set_log l a b : same_but_log a b -> same_but_log (set_log l a) b.
Proof. unfold same_but_log, unlogged. intros H. exact H. Qed.

Lemma same_but_log_set_log_r l a b : same_but_log a b -> same_but_log a (set_log l b).
Proof. unfold same_but_log, unlogged. intros H. exact H. Qed.

Section Combinators.
Context {A B : Type}.

Lemma logfree_ret (x : A) : logfree (ret x).
Proof. intros a b H. simpl. auto. Qed.

Lemma logfree_raise (e : exn) : logfree (@raise World A e).
Proof. intros a b H. simpl. auto. Qed.

Lemma logfree_gets (f : World -> A) :
  (forall w, f w = f (unlogged w)) -> logfree (gets f).
Proof.
  intros Hf a b H. simpl. split; [|exact H].
  rewrite (Hf a), (Hf b). unfold same_but_log in H. rewrite H. reflexivity.
Qed.

Lemma logfree_modify (g : World -> World) :
  (forall w, unlogged (g w) = unlogged (g (unlogged w))) -> logfree (modify g).
Proof.
  intros Hg a b H. simpl. split; [reflexivity|].
  unfold same_but_log in *. rewrite (Hg a), (Hg b), H. reflexivity.
Qed.

Lemma logfree_bind (m : M World A) (f : A -> M World B) :
  logfree m -> (forall x, logfree (f x)) -> logfree (bind m f).
Proof.
  intros Hm Hf a b H. unfold bind. destruct (Hm a b H) as [Hr Hs].
  destruct (m a) as [[x|e] a1], (m b) as [[y|e'] b1]; simpl in *;
    inversion Hr; subst; auto.
  apply Hf. exact Hs.
Qed.

Lemma logfree_try_except (m : M World A) (h : exn -> option (M World A)) :
  logfree m ->
  (forall e handler, h e = Some handler -> logfree handler) ->
  logfree (try_except m h).
Proof.
  intros Hm Hh a b H. unfold try_except. destruct (Hm a b H) as [Hr Hs].
  destruct (m a) as [[x|e] a1], (m b) as [[y|e'] b1]; simpl in *;
    inversion Hr; subst; auto.
  destruct (h e') as [handler|] eqn:He; simpl; auto.
  apply (Hh e'); auto.
Qed.

Lemma logfree_try_finally (m : M World A) (f : M World unit) :
  logfree m -> logfree f -> logfree (try_finally m f).
Proof.
  intros Hm Hf a b H. unfold try_finally. destruct (Hm a b H) as [Hr Hs].
  destruct (m a) as [r a1], (m b) as [r' b1]; simpl in *. subst r'.
  destruct (Hf a1 b1 Hs) as [Hr' Hs'].
  destruct (f a1) as [[u|e] a2], (f b1) as [[u'|e'] b2]; simpl in *;
    inversion Hr'; subst; auto.
Qed.

End Combinators.

Section Script.
Variable E : Env.

Lemma logfree_logging l m : logfree (logging l m).
Proof.
  destruct l; simpl; try apply logfree_ret; apply logfree_modify; reflexivity.
Qed.

Lemma logfree_external c : logfree (external E c).
Proof.
  intros a b H. unfold external.
  assert (Hc : clock a = clock b) by (apply (f_equal clock) in H; exact H).
  rewrite Hc.
  assert (Ht : same_but_log (tick c a) (tick c b)).
  { unfold same_but_log, unlogged in *.
    change (set_log [] (tick c a)) with (tick c (set_log [] a)).
    change (set_log [] (tick c b)) with (tick c (set_log [] b)).
    rewrite H. reflexivity. }
  destruct (fault E (clock b) c); simpl; auto.
Qed.

Ltac logfree_step :=
  lazymatch goal with
  | |- logfree (bind _ _) => apply logfree_bind; [|intros ?]
  | |- logfree (ret _) => apply logfree_ret
  | |- logfree (raise _) => apply logfree_raise
  | |- logfree (sys_exit _) => apply logfree_raise
  | |- logfree (gets _) => apply logfree_gets; reflexivity
  | |- logfree (modify _) => apply logfree_modify; reflexivity
  | |- logfree (logging _ _) => apply logfree_logging
  | |- logfree (external _ _) => apply logfree_external
  | |- logfree (try_finally _ _) => apply logfree_try_finally
  | |- logfree (try_except _ _) => fail
  | |- logfree (if ?b then _ else _) => destruct b
  | |- logfree (match ?x with _ => _ end) => destruct x
  end.

Lemma logfree_run_command command check : logfree (run_command E command check).
Proof.
  unfold run_command. repeat logfree_step. apply logfree_try_except.
  - unfold subprocess. repeat logfree_step.
  - intros e handler He.
    destruct e; simpl in He; inversion He; subst; repeat logfree_step.
Qed.

Lemma logfree_connect iso : logfree (connect E iso).
Proof.
  unfold connect. apply logfree_try_except.
  - repeat logfree_step. apply logfree_run_command.
  - intros e handler He.
    destruct e; simpl in He; inversion He; subst; repeat logfree_step.
Qed.

Lemma logfree_guarded_measure iso : logfree (guarded_measure E iso).
Proof.
  unfold guarded_measure. apply logfree_try_except.
  - unfold measure, st_call. repeat logfree_step.
  - intros e handler He.
    destruct (is_Exception e); inversion He; subst; repeat logfree_step.
Qed.

Lemma logfree_record_result location speed_results :
  logfree (record_result location speed_results).
Proof.
  unfold record_result, writeheader, writerow, write_line. repeat logfree_step.
Qed.

Lemma logfree_measured_cycle location : logfree (measured_cycle E location).
Proof.
  unfold measured_cycle. repeat logfree_step.
  - apply logfree_guarded_measure.
  - unfold restore_and_disconnect. repeat logfree_step. apply logfree_run_command.
  - apply logfree_record_result.
Qed.

Lemma logfree_test_and_record_speed location :
  logfree (test_and_record_speed E location).
Proof.
  unfold test_and_record_speed. repeat logfree_step.
  - apply logfree_connect.
  - apply logfree_measured_cycle.
Qed.

(** ** The loop is a single pass over the untested locations *)

Lemma bind_assoc {A B C} (m : M World A) (f : A -> M World B) (g : B -> M World C) w :
  bind (bind m f) g w = bind m (fun x => bind (f x) g) w.
Proof. unfold bind. destruct (m w) as [[x|e] w1]; reflexivity. Qed.

Lemma bind_logging {B} (m : msg) (k : unit -> M World B) w :
  bind (logging INFO m) k w = k tt (set_log (log w ++ [(INFO, m)]) w).
Proof. reflexivity. Qed.

(** Two runs of a log-free computation followed by continuations that
    agree up to the log agree up to the log. *)
Lemma bind_sim {A B} (m : M World A) (f g : A -> M World B) a b :
  logfree m -> same_but_log a b ->
  (forall x a1 b1, same_but_log a1 b1 ->
     fst (f x a1) = fst (g x b1) /\ same_but_log (snd (f x a1)) (snd (g x b1))) ->
  fst (bind m f a) = fst (bind m g b) /\
  same_but_log (snd (bind m f a)) (snd (bind m g b)).
Proof.
  intros Hm H Hk. unfold bind. destruct (Hm a b H) as [Hr Hs].
  destruct (m a) as [[x|e] a1], (m b) as [[y|e'] b1]; simpl in *;
    inversion Hr; subst; auto.
Qed.

Lemma location_loop_untested tested_nodes locations :
  forall total total' i i' a b,
    same_but_log a b ->
    fst (location_loop E tested_nodes total i locations a)
    = fst (location_loop E ∅ total' i' (untested tested_nodes locations) b) /\
    same_but_log
      (snd (location_loop E tested_nodes total i locations a))
      (snd (location_loop E ∅ total' i' (untested tested_nodes locations) b)).
Proof.
  induction locations as [|location rest IH]; intros total total' i i' a b H.
  - simpl. auto.
  - cbn [location_loop untested List.filter].
    destruct (bool_decide (ISO location ∈ tested_nodes)) eqn:Hin; cbn [negb].
    + unfold bind at 1. cbn [logging modify fst snd].
      apply IH. apply same_but_log_set_log. exact H.
    + cbn [location_loop].
      fold (untested tested_nodes rest).
      match goal with
      | |- context [if @bool_decide ?Q ?d then _ else _] =>
          destruct (@bool_decide Q d) eqn:Hempty
      end;
      [apply bool_decide_eq_true in Hempty; apply not_elem_of_empty in Hempty;
       tauto|].
      rewrite !bind_assoc. rewrite !bind_logging. rewrite !bind_assoc.
      apply bind_sim.
      * apply logfree_test_and_record_speed.
      * apply same_but_log_set_log, same_but_log_set_log_r. exact H.
      * intros _ a1 b1 H1. apply bind_sim.
        -- repeat logfree_step.
        -- exact H1.
        -- intros _ a2 b2 H2. apply IH. exact H2.
Qed.

(** ** What the loop calls and logs *)

Lemma bind_Ok_inv {A B} (m : M World A) (f : A -> M World B) w b :
  fst (bind m f w) = Ok b ->
  exists a, fst (m w) = Ok a /\ bind m f w = f a (snd (m w)).
Proof.
  unfold bind. destruct (m w) as [[a|e] w1]; simpl; [eauto | discriminate].
Qed.

(** The calls made from [w] on are all in [ok]. *)
Definition calls_since (ok : call -> Prop) (w x : World) : Prop :=
  exists new, trace x = trace w ++ new /\ Forall ok new.

Lemma calls_since_tick (ok : call -> Prop) w x c :
  ok c -> calls_since ok w x -> calls_since ok w (tick c x).
Proof.
  intros Hc (new & Ht & Hn). exists (new ++ [c]). cbn. rewrite Ht, app_assoc.
  split; [reflexivity|]. apply Forall_app. auto.
Qed.

Lemma location_loop_no_reconnect tested_nodes total i locations w :
  calls_since (no_reconnect tested_nodes) w
    (snd (location_loop E tested_nodes total i locations w)).
Proof.
  apply (location_loop_preserves E (calls_since (no_reconnect tested_nodes) w)
           (no_reconnect tested_nodes)); auto.
  - intros x c Hc Hx. apply calls_since_tick; auto.
  - intros location _ Hout iso Heq. inversion Heq; subst. exact Hout.
  - intros iso Heq. inversion Heq.
  - intros op via iso Heq. inversion Heq.
  - intros name iso Heq. inversion Heq.
  - intros. apply record_result_preserves; auto.
  - exists []. rewrite app_nil_r. auto.
Qed.

Lemma location_loop_keeps_log tested_nodes total i locations entry w :
  In entry (log w) ->
  In entry (log (snd (location_loop E tested_nodes total i locations w))).
Proof.
  assert (Hlog : forall (x : World) e,
             In entry (log x) -> In entry (log (set_log (log x ++ [e]) x))).
  { intros x e Hx. cbn. rewrite in_app_iff. auto. }
  apply (location_loop_preserves E (fun x => In entry (log x)) (fun _ => True));
    auto.
  intros. apply record_result_preserves; auto.
Qed.

Lemma location_loop_notices tested_nodes total (locations : list Location) :
  forall i w j location,
    locations !! j = Some location -> ISO location ∈ tested_nodes ->
    fst (location_loop E tested_nodes total i locations w) = Ok tt ->
    In (INFO, Skipping (i + j + 1) total location)
       (log (snd (location_loop E tested_nodes total i locations w))).
Proof.
  induction locations as [|head rest IH]; intros i w j location Hj Hin Hok.
  - discriminate.
  - cbn [location_loop] in *. destruct j as [|j].
    + inversion Hj; subst head. rewrite Nat.add_0_r.
      rewrite (bool_decide_eq_true_2 _ Hin). rewrite bind_logging.
      apply location_loop_keeps_log. cbn. rewrite in_app_iff. simpl. auto.
    + apply bind_Ok_inv in Hok as Hstep. destruct Hstep as (u & _ & Heq).
      rewrite Heq in Hok |- *.
      replace (i + S j + 1) with (S i + j + 1) by lia.
      apply IH; auto.
Qed.

End Script.

(** C4. Idempotent resume: for every catalog and every resume set, the
    loop makes no connect call for a location whose code is in the
    resume set; when it runs to its end, each such location has its
    skip notice in the log; and its result and its whole effect (the
    result file included, the log left aside) are those of a single
    pass, with an empty resume set, over the locations not yet tested. *)
Theorem idempotent_resume E (tested_nodes : gset string) (locations : list Location)
    total i w :
  let r := fst (location_loop E tested_nodes total i locations w) in
  let w' := snd (location_loop E tested_nodes total i locations w) in
  (exists new,
     trace w' = trace w ++ new /\
     forall iso, iso ∈ tested_nodes ->
                 ~ In (subprocess_run (connect_command iso)) new) /\
  (r = Ok tt ->
   forall j location,
     locations !! j = Some location -> ISO location ∈ tested_nodes ->
     In (INFO, Skipping (i + j + 1) total location) (log w')) /\
  (forall total' i',
     let once :=
       location_loop E ∅ total' i' (untested tested_nodes locations) w in
     r = fst once /\ same_but_log w' (snd once) /\ cwd w' = cwd (snd once)).
Proof.
  cbn zeta. split; [|split].
  - destruct (location_loop_no_reconnect E tested_nodes total i locations w)
      as (new & Ht & Hn).
    exists new. split; [exact Ht|]. intros iso Hiso Hin.
    rewrite Forall_forall in Hn. apply list_elem_of_In in Hin.
    exact (Hn _ Hin iso eq_refl Hiso).
  - intros Hok j location Hj Hin. apply location_loop_notices; auto.
  - intros total' i'.
    destruct (location_loop_untested E tested_nodes locations total total' i i'
                w w (same_but_log_refl w)) as [Hr Hs].
    repeat split; auto. apply (f_equal cwd) in Hs. exact Hs.
Qed.

Lemma idempotent_resume_witness :
  In (INFO, Skipping 1 2 new_york)
     (log (snd (location_loop calm {["US"]} 2 0 [new_york; berlin]
                  (fresh calm machine [(old_results, intact_results)])))).
Proof.
  assert (Hok : fst (location_loop calm {["US"]} 2 0 [new_york; berlin]
                       (fresh calm machine [(old_results, intact_results)]))
                 = Ok tt) by (vm_compute; reflexivity).
  apply (proj1 (proj2 (idempotent_resume calm {["US"]} [new_york; berlin] 2 0
                         (fresh calm machine [(old_results, intact_results)])))
           Hok 0 new_york eq_refl).
  apply elem_of_singleton. reflexivity.
Defined.

End LoopFacts.

(* ===================================================================== *)
(** * The result file *)
(* ===================================================================== *)

Module StoreFacts.
Import PyStr Re Py Script Props PyFacts Frames.

Ltac unfold_monad :=
  unfold bind, try_except, try_finally, modify, gets, ret, raise, sys_exit.

Lemma file_of_update name g files :
  file_of name (update_file name g files) = g <$> file_of name files.
Proof.
  induction files as [|[n f] files IH]; simpl; [reflexivity|].
  destruct (String.eqb name n) eqn:Hn; simpl; rewrite Hn; auto.
Qed.

Lemma rows_for_app before records1 records2 :
  rows_for before (records1 ++ records2)
  = rows_for before records1
    ++ rows_for (before ++ rows_for before records1) records2.
Proof.
  destruct before as [|header before]; simpl.
  - destruct records1 as [|first records1]; simpl; [reflexivity|].
    rewrite map_app. reflexivity.
  - rewrite map_app. reflexivity.
Qed.

Lemma header_stable_refl from w : writer_synced w -> header_stable from w w.
Proof.
  intros H. split; [reflexivity|]. split; [exact H|].
  exists []. split; [constructor|].
  destruct (active_rows w); simpl; rewrite ?app_nil_r; reflexivity.
Qed.

Lemma header_stable_trans from w1 w2 w3 :
  header_stable from w1 w2 -> header_stable from w2 w3 -> header_stable from w1 w3.
Proof.
  intros (Hf1 & _ & rs1 & Hfrom1 & Hr1) (Hf2 & Hs & rs2 & Hfrom2 & Hr2).
  split; [congruence|]. split; [exact Hs|].
  exists (rs1 ++ rs2). split; [apply Forall_app; auto|].
  rewrite rows_for_app, app_assoc, <- Hr1. exact Hr2.
Qed.

(** The state parts [header_stable] looks at. *)
Definition same_store (w w' : World) : Prop :=
  cwd w' = cwd w /\ RESULTS_CSV_FILE w' = RESULTS_CSV_FILE w /\
  fieldnames w' = fieldnames w /\ is_new_file w' = is_new_file w.

Lemma header_stable_same_store from w0 w w' :
  same_store w w' -> header_stable from w0 w -> header_stable from w0 w'.
Proof.
  intros (Hc & Hf & Hn & Hi) (H1 & H2 & H3).
  unfold header_stable, writer_synced, active_rows in *.
  rewrite Hc, Hf, Hn, Hi. auto.
Qed.

(** Writing one record. *)
Lemma record_result_rows (from : dict string -> Prop) location speed_results w :
  from (dict_merge (location_items location) speed_results) ->
  writer_synced w ->
  header_stable from w (snd (record_result location speed_results w)).
Proof.
  intros Hfrom [[f Hf] Hsync].
  set (full_result := dict_merge (location_items location) speed_results) in *.
  unfold record_result, writeheader, writerow, write_line, logging.
  unfold_monad. cbn. fold full_result.
  unfold header_stable, writer_synced, active_rows in *.
  rewrite Hf in Hsync.
  destruct (is_new_file w) eqn:Hnew; cbn; rewrite ?file_of_update, Hf; cbn.
  - rewrite Hsync. split; [reflexivity|]. split; [split; [eauto|]|].
    + eexists. reflexivity.
    + exists [full_result]. split; [auto|]. reflexivity.
  - rewrite Hnew. destruct Hsync as [rest Hrest]. rewrite Hrest.
    split; [reflexivity|]. split; [split; [eauto|]|].
    + eexists. reflexivity.
    + exists [full_result]. split; [auto|]. reflexivity.
Qed.

Section Script.
Variable E : Env.
Variable from : dict string -> Prop.
Variable w0 : World.

Lemma header_stable_log x entry :
  header_stable from w0 x -> header_stable from w0 (set_log (log x ++ [entry]) x).
Proof. apply header_stable_same_store. repeat split. Qed.

Lemma header_stable_tick x c :
  True -> header_stable from w0 x -> header_stable from w0 (tick c x).
Proof. intros _. apply header_stable_same_store. repeat split. Qed.

Lemma header_stable_sock x v :
  header_stable from w0 x -> header_stable from w0 (set_socket_socket v x).
Proof. apply header_stable_same_store. repeat split. Qed.

Lemma header_stable_proxy x v :
  header_stable from w0 x -> header_stable from w0 (set_default_proxy v x).
Proof. apply header_stable_same_store. repeat split. Qed.

Lemma header_stable_record location speed_results :
  from (dict_merge (location_items location) speed_results) ->
  preserves (header_stable from w0) (record_result location speed_results).
Proof.
  intros Hfrom x Hx. eapply header_stable_trans; [exact Hx|].
  apply record_result_rows; [exact Hfrom|]. apply Hx.
Qed.

Lemma test_and_record_speed_header_stable location :
  (forall speed_results,
     speed_results <> [] ->
     from (dict_merge (location_items location) speed_results)) ->
  preserves (header_stable from w0) (test_and_record_speed E location).
Proof.
  intros Hfrom.
  apply (test_and_record_speed_preserves E (header_stable from w0) (fun _ => True)
           header_stable_log header_stable_tick header_stable_sock
           header_stable_proxy); auto.
  intros sr Hsr. apply header_stable_record. auto.
Qed.

End Script.

Lemma location_loop_header_stable E tested_nodes total i locations w :
  writer_synced w ->
  header_stable (record_of tested_nodes locations) w
    (snd (location_loop E tested_nodes total i locations w)).
Proof.
  intros Hsync.
  set (from := record_of tested_nodes locations).
  apply (location_loop_preserves E (header_stable from w) (fun _ => True)
           (header_stable_log from w) (header_stable_tick from w)
           (header_stable_sock from w) (header_stable_proxy from w)); auto.
  - intros location sr Hin Hout Hsr. apply header_stable_record.
    exists location, sr. auto.
  - apply header_stable_refl. exact Hsync.
Qed.

(** ** Opening the file *)

Lemma csv_rows_head f header yielded err :
  csv_rows f = (header :: yielded, err) -> exists rest, rows f = header :: rest.
Proof.
  unfold csv_rows. destruct (corrupt f) as [[n e]|].
  - destruct (n <=? length (rows f)); intros H; inversion H as [[Hrows Herr]].
    + destruct (rows f) as [|r rest], n; simpl in Hrows; try discriminate.
      inversion Hrows; subst. eauto.
    + eauto.
  - intros H. inversion H. eauto.
Qed.

Lemma csv_rows_none f : csv_rows f = ([], None) -> rows f = [].
Proof.
  unfold csv_rows. destruct (corrupt f) as [[n e]|].
  - destruct (n <=? length (rows f)); intros H; inversion H. reflexivity.
  - intros H. inversion H. reflexivity.
Qed.

Lemma file_of_new name f files :
  file_of name files = None -> file_of name (files ++ [(name, f)]) = Some f.
Proof.
  induction files as [|[n g] files IH]; simpl.
  - rewrite String.eqb_refl. reflexivity.
  - destruct (String.eqb name n); [discriminate | exact IH].
Qed.

Lemma size_is_zero_rows f : size_is_zero f = true -> rows f = [].
Proof. unfold size_is_zero. destruct (rows f); [reflexivity | discriminate]. Qed.

(** When [open_results] returns, the writer agrees with the file, and the
    rows of the file are as they were. *)
Lemma open_results_synced E w :
  fst (open_results E w) = Ok tt ->
  let w' := snd (open_results E w) in
  RESULTS_CSV_FILE w' = RESULTS_CSV_FILE w /\
  writer_synced w' /\
  active_rows w' = active_rows w.
Proof.
  unfold open_results, open_append, external. unfold_monad.
  unfold writer_synced, active_rows. cbn.
  destruct (fault E (clock w) (open_file (RESULTS_CSV_FILE w) "a")); cbn;
    [destruct (file_of _ _) as [f|]; [destruct (size_is_zero f)|]; discriminate|].
  destruct (file_of (RESULTS_CSV_FILE w) (cwd w)) as [f|] eqn:Hf; cbn.
  - destruct (size_is_zero f) eqn:Hz; cbn; rewrite ?Hf.
    + intros _. apply size_is_zero_rows in Hz. eauto 10.
    + destruct (fault E (S (clock w)) _); cbn; [discriminate|]. rewrite ?Hf.
      destruct (csv_rows f) as [[|header yielded] [e|]] eqn:Hcsv; cbn;
        try discriminate; rewrite ?Hf; intros _.
      * apply csv_rows_none in Hcsv. eauto 10.
      * apply csv_rows_head in Hcsv. destruct Hcsv as [rest Hrest].
        rewrite Hrest. eauto 10.
      * apply csv_rows_head in Hcsv. destruct Hcsv as [rest Hrest].
        rewrite Hrest. eauto 10.
  - rewrite !(file_of_new _ _ _ Hf). cbn. intros _. eauto 10.
Qed.

(** What a row cut to a header looks like: one cell per column, the
    record's value for the column or the empty text; the other fields of
    the record are left out. *)
Lemma shape_cells (header : list string) (rowdict : dict string) :
  length (shape header rowdict) = length header /\
  forall j key,
    header !! j = Some key ->
    shape header rowdict !! j
    = Some (match dict_get key rowdict with Some v => v | None => "" end).
Proof.
  unfold shape. split; [apply length_map|].
  induction header as [|name header IH]; intros [|j] key Hj;
    simpl in *; try discriminate.
  - inversion Hj. reflexivity.
  - apply IH. exact Hj.
Qed.

(** C8. Header stability: when the result file has been opened, the
    writer's header is the first row of a file that has one, and the file
    has no row otherwise.  From then on, whatever the loop does, the file
    only grows, by one row per record written, every one of them cut to
    the header (one cell per column, the record's fields that are no
    columns left out).  The first row of a file that had one stays its
    first row and stays the writer's header; into a file that had none
    the header is written once, ahead of the first record and from its
    keys, and is the header of every later row.  The records are those of
    measured locations outside the resume set. *)
Theorem header_stability E :
  (forall w,
     fst (open_results E w) = Ok tt ->
     let w' := snd (open_results E w) in
     RESULTS_CSV_FILE w' = RESULTS_CSV_FILE w /\ writer_synced w' /\
     active_rows w' = active_rows w) /\
  (forall tested_nodes total i locations w,
     writer_synced w ->
     let w' := snd (location_loop E tested_nodes total i locations w) in
     writer_synced w' /\
     exists records,
       Forall (record_of tested_nodes locations) records /\
       match active_rows w, records with
       | header :: rest, _ =>
           active_rows w' = header :: rest ++ map (shape header) records /\
           fieldnames w' = header
       | [], first :: _ =>
           active_rows w'
           = dict_keys first :: map (shape (dict_keys first)) records /\
           fieldnames w' = dict_keys first
       | [], [] => active_rows w' = []
       end) /\
  (forall (header : list string) (rowdict : dict string),
     length (shape header rowdict) = length header /\
     forall j key,
       header !! j = Some key ->
       shape header rowdict !! j
       = Some (match dict_get key rowdict with Some v => v | None => "" end)).
Proof.
  split; [|split].
  - intros w H. apply open_results_synced. exact H.
  - intros tested_nodes total i locations w Hsync. cbn zeta.
    destruct (location_loop_header_stable E tested_nodes total i locations w Hsync)
      as (_ & Hsync' & records & Hfrom & Hrows).
    split; [exact Hsync'|]. exists records. split; [exact Hfrom|].
    destruct Hsync' as [_ Hnames]. unfold rows_for in Hrows.
    destruct (active_rows w) as [|header rest] eqn:Hw.
    + destruct records as [|first records]; simpl in Hrows; [exact Hrows|].
      split; [exact Hrows|]. rewrite Hrows in Hnames.
      destruct (is_new_file _); [discriminate|].
      destruct Hnames as [rest Hn]. inversion Hn. reflexivity.
    + split; [exact Hrows|]. rewrite Hrows in Hnames.
      destruct (is_new_file _); [discriminate|].
      destruct Hnames as [rest' Hn]. inversion Hn. reflexivity.
  - apply shape_cells.
Qed.

Lemma header_stability_witness :
  let w := snd (open_results calm
                  (set_RESULTS_CSV_FILE old_results
                     (fresh calm machine [(old_results, intact_results)]))) in
  fieldnames (snd (location_loop calm {["US"]} 2 0 [new_york; berlin] w))
  = results_header.
Proof.
  set (w0 := set_RESULTS_CSV_FILE old_results
               (fresh calm machine [(old_results, intact_results)])).
  assert (Hopen : fst (open_results calm w0) = Ok tt) by (vm_compute; reflexivity).
  destruct (proj1 (header_stability calm) w0 Hopen) as (_ & Hsync & _).
  destruct (proj1 (proj2 (header_stability calm)) {["US"]} 2 0 [new_york; berlin]
              _ Hsync) as (_ & records & _ & Hrows).
  assert (Hrows0 : active_rows (snd (open_results calm w0))
                   = results_header :: tl (rows intact_results))
    by (vm_compute; reflexivity).
  cbn zeta. rewrite Hrows0 in Hrows. exact (proj2 Hrows).
Defined.

End StoreFacts.

(* ===================================================================== *)
(** * Whole runs *)
(* ===================================================================== *)

Module MainFacts.
Import PyStr Re Py Script Props PyFacts Frames CycleFacts.

Ltac unfold_monad :=
  unfold bind, try_except, try_finally, modify, gets, ret, raise, sys_exit.

(** ** The checks of [main] *)

Lemma main_guarded E w original_user :
  preconditions_hold E w original_user ->
  main E w = guarded_run E original_user (started w).
Proof.
  intros (Heuid & Huser & Hne & entries & Hsrc).
  unfold main, path_is_dir, logging. unfold_monad. cbn.
  rewrite Heuid, Huser. cbn.
  destruct original_user as [|c u]; [congruence|].
  cbn in Hsrc |- *. rewrite Hsrc. reflexivity.
Qed.

Lemma main_not_root E w :
  geteuid E <> 0%Z ->
  fst (main E w) = Raise (SystemExit 1) /\ unlogged (snd (main E w)) = unlogged w.
Proof.
  intros H. apply Z.eqb_neq in H.
  unfold main, logging. unfold_monad. cbn. rewrite H. cbn. auto.
Qed.

Lemma main_no_user E w :
  geteuid E = 0%Z -> SUDO_USER E = None \/ SUDO_USER E = Some "" ->
  fst (main E w) = Raise (SystemExit 1) /\ unlogged (snd (main E w)) = unlogged w.
Proof.
  intros H Hu. unfold main, logging. unfold_monad. cbn. rewrite H. cbn.
  destruct Hu as [-> | ->]; cbn; auto.
Qed.

Lemma main_no_config E w original_user :
  geteuid E = 0%Z -> SUDO_USER E = Some original_user -> original_user <> "" ->
  (forall entries,
     fs_read (source_config_path original_user) (fs w) <> Some (Dir entries)) ->
  fst (main E w) = Raise (SystemExit 1) /\ unlogged (snd (main E w)) = unlogged w.
Proof.
  intros H Hu Hne Hsrc. unfold main, path_is_dir, logging. unfold_monad. cbn.
  rewrite H, Hu. cbn. destruct original_user as [|c u]; [congruence|].
  cbn in Hsrc |- *.
  destruct (home_config (fs w) (String c u)) as [[content|entries]|] eqn:Hc;
    cbn; auto.
  exfalso. apply (Hsrc entries). reflexivity.
Qed.

(** ** The guarded run *)

(** The two [except] clauses catch everything and only log. *)
Lemma body_is_caught E original_user w :
  let caught := try_except (main_body E original_user) main_handlers w in
  fst caught = Ok tt /\
  forall e,
    fst (main_body E original_user w) = Raise e ->
    In (if is_Exception e then (CRITICAL, Fatal e) else (WARNING, Interrupted e))
       (log (snd caught)).
Proof.
  unfold try_except. cbn zeta.
  destruct (main_body E original_user w) as [[[]|e] w1]; simpl.
  - split; [reflexivity | discriminate].
  - split.
    + destruct e; reflexivity.
    + intros e' H. inversion H; subst e'.
      destruct e; cbn; rewrite in_app_iff; simpl; auto.
Qed.

(** The guarded run ends the way its cleanup ends. *)
Lemma guarded_run_ends E original_user w :
  fst (guarded_run E original_user w)
  = fst (cleanup E (snd (try_except (main_body E original_user) main_handlers w))).
Proof.
  unfold guarded_run, try_finally.
  pose proof (proj1 (body_is_caught E original_user w)) as H. cbn zeta in H.
  destruct (try_except _ _ w) as [r w1]. simpl in *. subst r.
  destruct (cleanup E w1) as [[[]|e] w2]; reflexivity.
Qed.

(** The result of a sequence. *)
Lemma fst_bind {A B} (m : M World A) (f : A -> M World B) w :
  fst (bind m f w)
  = match fst (m w) with
    | Ok a => fst (f a (snd (m w)))
    | Raise e => Raise e
    end.
Proof. unfold bind. destruct (m w) as [[a|e] w1]; reflexivity. Qed.

(** Without the client, [run_command] ends in an exit with status 1. *)
Lemma run_command_without_binary E command check w :
  binary_missing E -> fst (run_command E command check w) = Raise (SystemExit 1).
Proof.
  intros Hmissing. unfold run_command, subprocess, external, logging.
  unfold_monad. cbn. rewrite Hmissing. reflexivity.
Qed.

(** What [release] raises, when its file operations are not interrupted,
    is an error of the file system. *)
Lemma release_ends E w :
  release_uninterrupted E ->
  match fst (release E w) with
  | Ok _ => True
  | Raise e => is_Exception e = true
  end.
Proof.
  intros Hrel.
  destruct w as [n calls records [home config backup] sock proxy files name names new].
  unfold release, rmtree, move, external, path_exists, write_path, logging.
  unfold_monad.
  destruct config as [[content|entries]|], backup as [[content'|entries']|]; cbn;
    rewrite ?(proj1 (Hrel _)), ?(proj2 (Hrel _)); cbn;
    rewrite ?(proj1 (Hrel _)), ?(proj2 (Hrel _)); cbn; auto.
Qed.

(** An exception that reaches the top of the process makes it exit with
    status 1. *)
Lemma exit_status_Exception {A} (e : exn) :
  is_Exception e = true -> exit_status (@Raise A e) = 1%Z.
Proof. destruct e; simpl; congruence. Qed.

(** With the client missing, cleanup ends in an exit with status 1, or in
    an error of one of its file operations. *)
Lemma cleanup_without_binary E w :
  binary_missing E -> release_uninterrupted E ->
  exit_status (fst (cleanup E w)) = 1%Z.
Proof.
  intros Hmissing Hrel. unfold cleanup. rewrite fst_bind.
  pose proof (release_ends E w Hrel) as Hr.
  destruct (fst (release E w)) as [[]|e].
  - rewrite fst_bind. cbn [logging modify fst snd].
    rewrite fst_bind, run_command_without_binary by exact Hmissing. reflexivity.
  - apply exit_status_Exception. exact Hr.
Qed.

(** ** Exit codes *)

(** The exit code is the status with which [main] ends. *)
Lemma exit_code_main E w : exit_code E w = exit_status (fst (main E w)).
Proof. reflexivity. Qed.

(** C2 (amended).  Exit codes.  A run without root privilege, without an
    identifiable original user or without that user's configuration
    directory exits with status 1 at once, having done nothing but log.
    Past these checks nothing escapes the guarded body: an unexpected
    exception raised in it is caught and logged as critical, an
    interruption is caught and logged as a warning, and in these cases,
    as after a body that ran to its end, the cleanup runs and the
    process exits with status 0 when the cleanup returns.  When the VPN
    client is missing the process exits with status 1, but only after the
    cleanup, whose closing disconnect raises the exit. *)
Theorem exit_code_contract E w :
  ((geteuid E <> 0%Z \/
    (geteuid E = 0%Z /\ (SUDO_USER E = None \/ SUDO_USER E = Some "")) \/
    (geteuid E = 0%Z /\
     exists original_user,
       SUDO_USER E = Some original_user /\ original_user <> "" /\
       forall entries,
         fs_read (source_config_path original_user) (fs w) <> Some (Dir entries))) ->
   exit_code E w = 1%Z /\ unlogged (snd (main E w)) = unlogged w) /\
  (forall original_user,
     preconditions_hold E w original_user ->
     let body := main_body E original_user (started w) in
     let caught :=
       try_except (main_body E original_user) main_handlers (started w) in
     (forall e,
        fst body = Raise e -> is_Exception e = true ->
        In (CRITICAL, Fatal e) (log (snd caught)) /\
        (fst (cleanup E (snd caught)) = Ok tt -> exit_code E w = 0%Z)) /\
     (fst body = Raise KeyboardInterrupt ->
        In (WARNING, Interrupted KeyboardInterrupt) (log (snd caught)) /\
        (fst (cleanup E (snd caught)) = Ok tt -> exit_code E w = 0%Z)) /\
     (fst body = Ok tt ->
        fst (cleanup E (snd caught)) = Ok tt -> exit_code E w = 0%Z) /\
     (binary_missing E -> release_uninterrupted E -> exit_code E w = 1%Z)).
Proof.
  split.
  - rewrite exit_code_main.
    intros [H | [[H Hu] | [H (u & Hu & Hne & Hsrc)]]].
    + destruct (main_not_root E w H) as [-> Hs]. auto.
    + destruct (main_no_user E w H Hu) as [-> Hs]. auto.
    + destruct (main_no_config E w u H Hu Hne Hsrc) as [-> Hs]. auto.
  - intros u Hpre. cbn zeta.
    assert (Hexit : exit_code E w
                    = exit_status
                        (fst (cleanup E
                                (snd (try_except (main_body E u) main_handlers
                                        (started w)))))).
    { rewrite exit_code_main, (main_guarded E w u Hpre), guarded_run_ends.
      reflexivity. }
    destruct (body_is_caught E u (started w)) as [_ Hlog]. cbn zeta in Hlog.
    repeat split.
    + specialize (Hlog e H). rewrite H0 in Hlog. exact Hlog.
    + intros Hc. rewrite Hexit, Hc. reflexivity.
    + exact (Hlog KeyboardInterrupt H).
    + intros Hc. rewrite Hexit, Hc. reflexivity.
    + intros _ Hc. rewrite Hexit, Hc. reflexivity.
    + intros Hm Hr. rewrite Hexit. apply cleanup_without_binary; auto.
Qed.

Lemma exit_code_contract_witness :
  exit_code unprivileged (fresh unprivileged machine []) = 1%Z /\
  (preconditions_hold disk_full (fresh disk_full machine []) "alice" /\
   exit_code disk_full (fresh disk_full machine []) = 0%Z) /\
  (binary_missing not_installed /\ release_uninterrupted not_installed /\
   exit_code not_installed (fresh not_installed machine []) = 1%Z).
Proof.
  split; [|split].
  - apply (proj1 (exit_code_contract unprivileged (fresh unprivileged machine []))).
    left. discriminate.
  - set (w := fresh disk_full machine []).
    assert (Hpre : preconditions_hold disk_full w "alice").
    { repeat split; try discriminate. eexists. reflexivity. }
    split; [exact Hpre|].
    destruct (proj2 (exit_code_contract disk_full w) "alice" Hpre) as (Hfatal & _).
    apply (Hfatal (OSError "No space left on device")).
    + vm_compute. reflexivity.
    + reflexivity.
    + vm_compute. reflexivity.
  - set (w := fresh not_installed machine []).
    assert (Hmissing : binary_missing not_installed) by (intros n command; reflexivity).
    assert (Hrel : release_uninterrupted not_installed) by (intros n; split; reflexivity).
    assert (Hpre : preconditions_hold not_installed w "alice").
    { repeat split; try discriminate. eexists. reflexivity. }
    split; [exact Hmissing|]. split; [exact Hrel|].
    destruct (proj2 (exit_code_contract not_installed w) "alice" Hpre)
      as (_ & _ & _ & Hexit).
    apply Hexit; assumption.
Defined.

(** An unexpected exception in the loop: the flush after the first
    location fails.  The exception is caught at the top level, the
    cleanup runs, and the process exits with status 0. *)
Lemma exit_code_counterexample :
  let w := fresh disk_full machine [] in
  fst (main_body disk_full "alice" (started w))
  = Raise (OSError "No space left on device") /\
  In (CRITICAL, Fatal (OSError "No space left on device"))
     (log (snd (main disk_full w))) /\
  In (shutil_move dest_backup_path dest_config_path) (trace (snd (main disk_full w))) /\
  exit_code disk_full w = 0%Z.
Proof.
  cbn zeta. split; [vm_compute; reflexivity|].
  split; [vm_compute; auto 40|].
  split; [vm_compute; auto 40|].
  vm_compute. reflexivity.
Qed.

(** An empty catalog: [get_locations] exits with status 1 inside the
    guarded body, the exit is caught there as an interruption, and the
    process ends with status 0. *)
Lemma empty_catalog_exit_status :
  let w := fresh nothing_listed machine [] in
  fst (main_body nothing_listed "alice" (started w)) = Raise (SystemExit 1) /\
  exit_code nothing_listed w = 0%Z.
Proof. cbn zeta. split; vm_compute; reflexivity. Qed.

(** ** Custody *)

(** Closes the side conditions of a frame lemma for a property of the
    configuration tree alone. *)
Ltac fs_only := intros; assumption.

(** Copying the user's configuration writes the destination only, and
    only a directory. *)
Lemma copytree_keeps_custody E original original_user :
  preserves (in_custody original)
    (copytree E (source_config_path original_user) dest_config_path).
Proof.
  intros w [Hb Hc].
  destruct w as [n calls records [home config backup] sock proxy files name names new].
  simpl in Hb, Hc. unfold copytree, external, write_path. unfold_monad. cbn.
  destruct (fault E n _) as [e|]; cbn.
  - destruct config as [[content|entries]|]; cbn; [tauto| |];
      [|destruct (leftover E n); cbn]; unfold in_custody; cbn; tauto.
  - destruct (home original_user) as [[content|children]|],
      config as [[content'|entries]|]; cbn; unfold in_custody; cbn; tauto.
Qed.

(** After the custody steps root's configuration is at the backup path,
    whether the copy succeeded or not. *)
Lemma acquire_takes_custody E original_user config :
  root_backup config = None -> backup_uninterrupted E ->
  hoare (fun w => fs w = config) (acquire E original_user)
        (fun _ w => in_custody (root_config config) w).
Proof.
  intros Hnone Hmove. unfold acquire.
  apply hoare_bind with (Q1 := fun r w => fs w = config /\ r = Ok tt).
  { intros w Hw. split; [exact Hw | reflexivity]. }
  2: { intros e w [_ H]. discriminate. }
  intros []. apply hoare_consequence
    with (P' := fun w => fs w = config) (Q' := fun _ w => in_custody (root_config config) w);
    [|tauto|auto].
  apply hoare_bind
    with (Q1 := fun r w => fs w = config /\
                           r = Ok (match root_config config with
                                   | Some _ => true
                                   | None => false
                                   end)).
  { intros w Hw. unfold path_exists. cbn. rewrite Hw. auto. }
  2: { intros e w [_ H]. discriminate. }
  intros there.
  apply hoare_bind with (Q1 := fun _ w => in_custody (root_config config) w);
    [| |auto].
  - intros w [Hw Hr]. inversion Hr; subst there. clear Hr.
    destruct w as [n calls records [home cfg backup] sock proxy files name names new].
    simpl in Hw. subst config. simpl in *. subst backup.
    destruct cfg as [nd|]; cbn.
    + unfold move, external, write_path, logging. unfold_monad. cbn.
      rewrite Hmove. cbn. destruct nd; split; reflexivity.
    + split; [reflexivity | exact I].
  - intros _. apply preserves_hoare. apply preserves_bind.
    + apply logging_preserves. fs_only.
    + intros _. apply copytree_keeps_custody.
Qed.

(** Nothing after the custody steps touches the configuration tree. *)
Lemma main_body_keeps_custody E original_user config :
  root_backup config = None -> backup_uninterrupted E ->
  hoare (fun w => fs w = config) (main_body E original_user)
        (fun _ w => in_custody (root_config config) w).
Proof.
  intros Hnone Hmove. unfold main_body.
  apply hoare_bind with (Q1 := fun _ w => in_custody (root_config config) w);
    [apply acquire_takes_custody; auto| |auto].
  intros _. apply preserves_hoare.
  set (P := in_custody (root_config config)).
  assert (Hlog : forall w entry, P w -> P (set_log (log w ++ [entry]) w)) by fs_only.
  assert (Hcall : forall w c, True -> P w -> P (tick c w)) by fs_only.
  repeat lazymatch goal with
    | |- preserves _ (logging _ _) => apply logging_preserves; fs_only
    | |- preserves _ (run_command _ _ _) =>
        apply run_command_preserves with (ok := fun _ => True); auto
    | |- preserves _ (get_locations _) =>
        apply get_locations_preserves with (ok := fun _ => True); auto
    | |- preserves _ (load_tested_nodes _) =>
        apply load_tested_nodes_preserves with (ok := fun _ => True); auto; fs_only
    | |- preserves _ (open_results _) =>
        apply open_results_preserves with (ok := fun _ => True); auto; fs_only
    | |- preserves _ (location_loop _ _ _ _ _) =>
        apply location_loop_preserves with (ok := fun _ => True); auto; try fs_only
    | |- preserves _ (bind _ _) => apply preserves_bind; [|intros ?]
    end.
  intros location speed_results _ _ _. apply record_result_preserves; fs_only.
Qed.

(** From custody, the release puts root's configuration back. *)
Lemma release_restores E original w :
  release_uninterrupted E -> in_custody original w ->
  restored original (snd (release E w)).
Proof.
  intros Hrel [Hb Hc].
  destruct w as [n calls records [home config backup] sock proxy files name names new].
  simpl in Hb, Hc. subst backup.
  unfold release, rmtree, move, external, path_exists, write_path, logging.
  unfold_monad.
  destruct config as [[content|entries]|], original as [[content'|children]|]; cbn;
    rewrite ?(proj1 (Hrel _)), ?(proj2 (Hrel _)); cbn;
    rewrite ?(proj1 (Hrel _)), ?(proj2 (Hrel _)); cbn;
    try tauto; split; reflexivity.
Qed.

(** The closing disconnect leaves the configuration tree alone. *)
Lemma cleanup_restores E original w :
  release_uninterrupted E -> in_custody original w ->
  restored original (snd (cleanup E w)).
Proof.
  intros Hrel Hc. unfold cleanup.
  apply (snd_bind_preserves (restored original)).
  - apply release_restores; auto.
  - intros _. apply preserves_bind; [apply logging_preserves; fs_only|].
    intros _. apply preserves_bind; [|intros _; apply logging_preserves; fs_only].
    apply run_command_preserves with (ok := fun _ => True); auto; fs_only.
Qed.

(** X1. Custody round trip, where it holds: when no backup is lying around
    at the start, the move that makes the backup is not interrupted and
    the two file operations of the release are not interrupted, the run
    ends, however its body ended, with root's configuration as it was
    and no backup. *)
Theorem custody_round_trip E original_user w :
  root_backup (fs w) = None ->
  backup_uninterrupted E -> release_uninterrupted E ->
  let w' := snd (guarded_run E original_user w) in
  root_config (fs w') = root_config (fs w) /\ root_backup (fs w') = None.
Proof.
  intros Hnone Hmove Hrel. cbn zeta. unfold guarded_run.
  rewrite snd_try_finally.
  apply (cleanup_restores E (root_config (fs w))); [exact Hrel|].
  assert (H : hoare (fun x => fs x = fs w)
                (try_except (main_body E original_user) main_handlers)
                (fun _ x => in_custody (root_config (fs w)) x)).
  { apply hoare_try_except
      with (Q1 := fun _ x => in_custody (root_config (fs w)) x).
    - apply main_body_keeps_custody; auto.
    - auto.
    - intros e. destruct e; simpl; intros x Hx; exact Hx. }
  apply H. reflexivity.
Qed.

(** A run that fails in the loop gives root its configuration back. *)
Example custody_round_trip_after_failure :
  let w := fresh disk_full machine [] in
  root_config (fs (snd (main disk_full w))) = Some root_original /\
  root_backup (fs (snd (main disk_full w))) = None.
Proof.
  cbn zeta.
  assert (Hpre : preconditions_hold disk_full (fresh disk_full machine []) "alice").
  { repeat split; try discriminate. eexists. reflexivity. }
  rewrite (main_guarded _ _ _ Hpre).
  apply (custody_round_trip disk_full "alice" (started (fresh disk_full machine []))).
  - reflexivity.
  - intros n. reflexivity.
  - intros n. split; reflexivity.
Defined.

(** C1, at two failing inputs.  First: root has a configuration and no
    backup path exists; the run is interrupted in the move that would
    have made the backup.  The cleanup then takes root's own directory
    for the temporary copy and removes it: the run ends with no
    configuration for root and no backup.  Second: no configuration for
    root, but a backup left behind by an earlier run; the cleanup moves
    that stale backup into place, where the specification has the
    directory absent. *)
Theorem custody_lost_on_early_interrupt :
  (let w := fresh interrupted_at_start machine [] in
   let w' := snd (main interrupted_at_start w) in
   root_config (fs w) = Some root_original /\ root_backup (fs w) = None /\
   trace w' = [shutil_move dest_config_path dest_backup_path;
               shutil_rmtree dest_config_path;
               subprocess_run disconnect_command] /\
   root_config (fs w') = None /\ root_backup (fs w') = None) /\
  (let w := fresh calm machine_with_stale_backup [] in
   let w' := snd (main calm w) in
   root_config (fs w) = None /\
   root_config (fs w') = Some stale_backup).
Proof.
  cbn zeta. repeat split; vm_compute; reflexivity.
Qed.

End MainFacts.

(* ===================================================================== *)
(** * Running a command *)
(* ===================================================================== *)

Module CommandFacts.
Import PyStr Re Py Script Props PyFacts Frames CycleFacts.

Ltac logged := rewrite ?in_app_iff; simpl; auto 10.

(** X2. [run_command], whatever the environment does: it makes exactly one
    external call, the command itself, announced in the log, and leaves
    everything but the log and the record of calls alone.  It returns the
    command's output only when the command ran, and with [check] only
    when it exited with code 0; without [check] the exit code does not
    matter.  A command that is not found ends the process with status 1;
    with [check], a non-zero exit code is logged and raised as
    [CalledProcessError]; any other [Exception] is logged and raised
    again; an interrupt passes through unlogged. *)
Theorem run_command_outcomes E program args check w :
  let command := program :: args in
  let r := fst (run_command E command check w) in
  let w' := snd (run_command E command check w) in
  let returncode := fst (completed E (clock w) command) in
  let stdout := snd (completed E (clock w) command) in
  (trace w' = trace w ++ [subprocess_run command] /\
   exists entries, log w' = log w ++ (INFO, Exec command) :: entries /\
   fs w' = fs w /\ cwd w' = cwd w /\ socket_socket w' = socket_socket w /\
   default_proxy w' = default_proxy w /\
   RESULTS_CSV_FILE w' = RESULTS_CSV_FILE w) /\
  (forall out, r = Ok out ->
     fault E (clock w) (subprocess_run command) = None /\ out = stdout /\
     (check = true -> returncode = 0%Z)) /\
  (fault E (clock w) (subprocess_run command) = None ->
   (check = false \/ returncode = 0%Z) -> r = Ok stdout) /\
  (fault E (clock w) (subprocess_run command) = None ->
   check = true -> returncode <> 0%Z ->
   r = Raise (CalledProcessError returncode) /\
   In (ERROR, CmdFailed command returncode) (log w')) /\
  (fault E (clock w) (subprocess_run command) = Some FileNotFoundError ->
   r = Raise (SystemExit 1) /\ In (ERROR, CmdNotFound program) (log w')) /\
  (forall e,
     fault E (clock w) (subprocess_run command) = Some e ->
     e <> FileNotFoundError ->
     r = Raise e /\
     (is_Exception e = true ->
      (exists returncode', e = CalledProcessError returncode') \/
      In (ERROR, CmdError e) (log w')) /\
     (is_Exception e = false -> log w' = log w ++ [(INFO, Exec command)])).
Proof.
  cbn zeta.
  unfold run_command, subprocess, external, logging. unfold_monad. cbn.
  destruct (fault E (clock w) _) as [e|] eqn:Hf; cbn;
    [destruct e; cbn
    |destruct check; cbn;
     [destruct (fst (completed E (clock w) _) =? 0)%Z eqn:Hz; cbn;
      [apply Z.eqb_eq in Hz | apply Z.eqb_neq in Hz]|]];
    (split; [|split; [|split; [|split; [|split]]]]).
  all: try (split; [reflexivity|];
            eexists; split; [rewrite <- ?app_assoc; reflexivity|];
            repeat split; reflexivity).
  all: try (intros out Hout;
            first [discriminate
                  | inversion Hout; repeat split; auto; intros;
                    first [assumption | discriminate]];
            fail).
  all: try (intros H1 H2; first [discriminate | reflexivity | destruct H2; congruence];
            fail).
  all: try (intros H1 H2 H3;
            first [discriminate | congruence
                  | split; [reflexivity | logged]]; fail).
  all: try (intros H1; first [discriminate | split; [reflexivity | logged]]; fail).
  all: intros e' He' Hne; first [discriminate | inversion He'; subst e'];
    first [congruence | split; [reflexivity|]];
    (split; intros Hx; first [discriminate | reflexivity | left; eexists; reflexivity
                                   | right; solve [logged]]).
Qed.

Lemma run_command_trace E command check w :
  trace (snd (run_command E command check w)) = trace w ++ [subprocess_run command].
Proof.
  unfold run_command, subprocess, external, logging. unfold_monad. cbn.
  destruct (fault E (clock w) _) as [e|]; cbn.
  - destruct e; reflexivity.
  - destruct (check && _); reflexivity.
Qed.

Lemma run_command_unchecked E command w :
  fault E (clock w) (subprocess_run command) = None ->
  exists out, fst (run_command E command false w) = Ok out.
Proof.
  intros Hf. unfold run_command, subprocess, external, logging. unfold_monad. cbn.
  rewrite Hf. cbn. eauto.
Qed.

End CommandFacts.

(* ===================================================================== *)
(** * The fields of a location *)
(* ===================================================================== *)

Module CatalogEdges.
Import PyStr Re Py Script Props PyFacts Frames CycleFacts CatalogFacts.

Ltac logged := rewrite ?in_app_iff; simpl; auto 10.

(** ** [str.strip] *)

Lemma lstrip_starts_clean s : starts_clean (lstrip s).
Proof.
  induction s as [|c s IH]; simpl; [exact I|].
  destruct (isspace c) eqn:Hc; [exact IH | simpl; exact Hc].
Qed.

Lemma lstrip_split s :
  exists p, s = p ++ lstrip s /\ forallb isspace p = true.
Proof.
  induction s as [|c s (p & Hs & Hp)]; simpl; [exists []; auto|].
  destruct (isspace c) eqn:Hc.
  - exists (c :: p). simpl. rewrite Hc, Hp. split; [congruence | reflexivity].
  - exists []. auto.
Qed.

Lemma lstrip_clean s : starts_clean s -> lstrip s = s.
Proof. destruct s as [|c s]; simpl; [auto|]. intros ->. reflexivity. Qed.

Lemma strip_chars s : list_ascii_of_string (strip s) = rev (lstrip (rev (lstrip s))).
Proof. unfold strip. apply list_ascii_of_string_of_list_ascii. Qed.

(** What [strip] returns has no white space at either end. *)
Lemma strip_trimmed s : trimmed (strip s).
Proof.
  unfold trimmed. rewrite strip_chars. split.
  - pose proof (lstrip_starts_clean s) as Hs.
    destruct (lstrip_split (rev (lstrip s))) as (p & Hp & _).
    apply (f_equal (@rev ascii)) in Hp. rewrite rev_involutive, rev_app_distr in Hp.
    destruct (rev (lstrip (rev (lstrip s)))) as [|c rest]; [exact I|].
    rewrite Hp in Hs. exact Hs.
  - rewrite rev_involutive. apply lstrip_starts_clean.
Qed.

(** [strip] leaves a text alone that has no white space at its ends. *)
Lemma strip_clean s :
  starts_clean s -> starts_clean (rev s) -> strip s = string_of_list_ascii s.
Proof.
  intros H1 H2. unfold strip.
  rewrite (lstrip_clean s H1), (lstrip_clean (rev s) H2), rev_involutive.
  reflexivity.
Qed.

Lemma upper_not_space c : isupper_AZ c = true -> isspace c = false.
Proof.
  unfold isupper_AZ, isspace. cbn zeta. intros H.
  apply andb_true_iff in H. destruct H as [H1 H2].
  apply Nat.leb_le in H1. apply Nat.leb_le in H2.
  repeat match goal with
    | |- context [(?a <=? ?b)] => destruct (Nat.leb_spec a b)
    | |- context [(?a =? ?b)] => destruct (Nat.eqb_spec a b)
    end; simpl; try reflexivity; lia.
Qed.

Lemma digit_not_space c : isdigit c = true -> isspace c = false.
Proof.
  unfold isdigit, isspace. cbn zeta. intros H.
  apply andb_true_iff in H. destruct H as [H1 H2].
  apply Nat.leb_le in H1. apply Nat.leb_le in H2.
  repeat match goal with
    | |- context [(?a <=? ?b)] => destruct (Nat.leb_spec a b)
    | |- context [(?a =? ?b)] => destruct (Nat.eqb_spec a b)
    end; simpl; try reflexivity; lia.
Qed.

Lemma strip_no_space (cls : ascii -> bool) s :
  (forall c, cls c = true -> isspace c = false) ->
  forallb cls s = true -> strip s = string_of_list_ascii s.
Proof.
  intros Hcls Hs. rewrite forallb_forall in Hs. apply strip_clean.
  - destruct s as [|c s]; simpl; auto. apply Hcls, Hs. simpl. auto.
  - destruct (rev s) as [|c r] eqn:Hr; simpl; auto.
    apply Hcls, Hs. apply in_rev. rewrite Hr. simpl. auto.
Qed.

(** X3. The fields of a parsed location: the code is two letters A-Z, the
    ping a non-empty run of decimal digits, and country and city carry no
    white space at either end; the pattern does not keep the country from
    coming out empty. *)
Theorem parsed_location_fields :
  (forall line location,
     parse_line line = Some location ->
     (exists a b,
        ISO location = String a (String b EmptyString) /\
        isupper_AZ a = true /\ isupper_AZ b = true) /\
     (exists ping,
        Ping_Estimate location = string_of_list_ascii ping /\
        ping <> [] /\ forallb isdigit ping = true) /\
     trimmed (Country location) /\ trimmed (City location)) /\
  parse_line blank_country_line
  = Some {| ISO := "US"; Country := ""; City := "A"; Ping_Estimate := "12" |}.
Proof.
  split; [|vm_compute; reflexivity].
  intros line location H. apply parse_line_fields in H.
  destruct H as (iso & country & city & ping & Hline & ->).
  destruct Hline as (w0 & w1 & w2 & w3 & w4 & _ & _ & Hlen & Hiso & _ & _ & _ & _ & _
                     & [Hpl Hping] & _).
  cbn [ISO Country City Ping_Estimate].
  split; [|split; [|split; apply strip_trimmed]].
  - rewrite (strip_no_space isupper_AZ iso upper_not_space Hiso).
    destruct iso as [|a [|b [|c rest]]]; simpl in Hlen; try lia.
    simpl in Hiso. apply andb_true_iff in Hiso. destruct Hiso as [Ha Hb].
    apply andb_true_iff in Hb. destruct Hb as [Hb _].
    exists a, b. auto.
  - exists ping. rewrite (strip_no_space isdigit ping digit_not_space Hping).
    split; [reflexivity|]. split; [|exact Hping].
    destruct ping; simpl in Hpl; [lia | discriminate].
Qed.

(** X4. [get_locations], whatever the environment does: it runs the list
    command once; what it returns is the parse of the command's output
    and never the empty list; when the command exits with code 0 and no
    line of its output parses, the process is ended with status 1 and
    the failure is logged; when the command exits with another code its
    output is not looked at. *)
Theorem get_locations_outcomes E w :
  let command := [ADGUARD_CLI_PATH; "list-locations"] in
  let r := fst (get_locations E w) in
  let w' := snd (get_locations E w) in
  let returncode := fst (completed E (clock w) command) in
  let parsed := omap parse_line (splitlines (snd (completed E (clock w) command))) in
  trace w' = trace w ++ [subprocess_run command] /\
  (forall locations, r = Ok locations -> locations = parsed /\ locations <> []) /\
  (fault E (clock w) (subprocess_run command) = None -> returncode = 0%Z ->
   (parsed <> [] -> r = Ok parsed) /\
   (parsed = [] ->
    r = Raise (SystemExit 1) /\
    In (ERROR, Note "no location could be parsed") (log w'))) /\
  (fault E (clock w) (subprocess_run command) = None -> returncode <> 0%Z ->
   r = Raise (CalledProcessError returncode)) /\
  (fault E (clock w) (subprocess_run command) = Some FileNotFoundError ->
   r = Raise (SystemExit 1)).
Proof.
  cbn zeta.
  split; [|split].
  - unfold get_locations, run_command, subprocess, external, logging.
    unfold_monad. cbn.
    destruct (fault E (clock w) _) as [e|]; cbn.
    + destruct e; reflexivity.
    + destruct (fst (completed E (clock w) _) =? 0)%Z; cbn; [|reflexivity].
      destruct (parse_lines _ _); reflexivity.
  - intros locations Hr.
    destruct (get_locations E w) as [r w'] eqn:Hg. simpl in Hr. subst r.
    apply get_locations_returns in Hg. tauto.
  - unfold get_locations, run_command, subprocess, external, logging.
    unfold_monad. cbn.
    destruct (fault E (clock w) _) as [e|]; cbn.
    + repeat split; try discriminate.
      intros H. inversion H. reflexivity.
    + split; [|split; [|discriminate]].
      * intros _ Hz. rewrite Hz. cbn. rewrite parse_lines_acc. cbn [app].
        destruct (omap parse_line _) as [|l ls]; cbn.
        -- split; [congruence|]. intros _. split; [reflexivity | logged].
        -- split; [reflexivity | discriminate].
      * intros _ Hz. apply Z.eqb_neq in Hz. rewrite Hz. reflexivity.
Qed.

End CatalogEdges.

(* ===================================================================== *)
(** * Choosing and loading the file to resume *)
(* ===================================================================== *)

Module ResumeEdges.
Import PyStr Re Py Script Props PyFacts Frames CycleFacts ResumeFacts.

Ltac logged := rewrite ?in_app_iff; simpl; auto 10.

Local Open Scope Z_scope.

(** [max(..., key=k)] over [best :: others], scanned from the left: the
    value is the first of the elements with the greatest key. *)
Lemma latest_first_max (k : string -> Z) (others : list string) :
  forall (pre mid : list string) (best : string),
    (forall g, In g pre -> k g < k best) ->
    (forall g, In g mid -> k g <= k best) ->
    let f := latest best (k best) (map (fun g => (g, k g)) others) in
    exists before after,
      pre ++ best :: mid ++ others = before ++ f :: after /\
      (forall g, In g before -> k g < k f) /\
      (forall g, In g after -> k g <= k f).
Proof.
  induction others as [|g others IH]; intros pre mid best Hpre Hmid; simpl.
  - exists pre, mid. rewrite app_nil_r. auto.
  - destruct (k best <? k g) eqn:Hlt.
    + apply Z.ltb_lt in Hlt.
      destruct (IH (pre ++ best :: mid) [] g) as (before & after & Heq & Hb & Ha).
      * intros x Hx. apply in_app_or in Hx. destruct Hx as [Hx|[<-|Hx]].
        -- specialize (Hpre x Hx). lia.
        -- exact Hlt.
        -- specialize (Hmid x Hx). lia.
      * intros x [].
      * exists before, after. split; [|auto].
        rewrite <- Heq. simpl. rewrite <- !app_assoc. reflexivity.
    + apply Z.ltb_ge in Hlt.
      destruct (IH pre (mid ++ [g]) best) as (before & after & Heq & Hb & Ha).
      * exact Hpre.
      * intros x Hx. apply in_app_or in Hx. destruct Hx as [Hx|[<-|[]]]; auto.
      * exists before, after. split; [|auto].
        rewrite <- Heq. rewrite <- !app_assoc. reflexivity.
Qed.

(** X5. The file to resume from: none exactly when the directory holds no
    file named like a result file; otherwise a result file of the
    directory that was modified last and, among those modified last, the
    one listed first. *)
Theorem latest_result_file_choice (files : list (string * csvfile)) :
  let candidates := List.filter is_result_file (map fst files) in
  (latest_result_file files = None <-> candidates = []) /\
  (forall f,
     latest_result_file files = Some f ->
     exists before after,
       candidates = before ++ f :: after /\
       (forall g, In g before -> getmtime files g < getmtime files f) /\
       (forall g, In g after -> getmtime files g <= getmtime files f)).
Proof.
  cbn zeta. unfold latest_result_file.
  destruct (List.filter is_result_file (map fst files)) as [|f0 others].
  - split; [tauto | discriminate].
  - split; [split; discriminate|].
    intros f Hf. inversion Hf as [Hf']. clear Hf.
    destruct (latest_first_max (getmtime files) others [] [] f0)
      as (before & after & Heq & Hb & Ha); try (intros g []).
    exists before, after. auto.
Qed.


End ResumeEdges.

(* ===================================================================== *)
(** * The other ways through a cycle *)
(* ===================================================================== *)

Module CycleEdges.
Import PyStr Re Py Script Props PyFacts Frames CycleFacts StoreFacts.

Ltac logged := rewrite ?in_app_iff; simpl; auto 10.

(** X7. A connect call that raises: only a non-zero exit code is taken
    for a failed connect.  A client that is not found ends the process
    with status 1, any other exception leaves the cycle as it came; in
    both cases the connect call is the only call made, the proxy is not
    installed and nothing is written. *)
Theorem connect_error_propagates E location w e :
  fault E (clock w) (subprocess_run (connect_command (ISO location))) = Some e ->
  (forall returncode, e <> CalledProcessError returncode) ->
  let r := fst (test_and_record_speed E location w) in
  let w' := snd (test_and_record_speed E location w) in
  r = Raise (match e with FileNotFoundError => SystemExit 1 | _ => e end) /\
  trace w' = trace w ++ [subprocess_run (connect_command (ISO location))] /\
  socket_socket w' = socket_socket w /\ default_proxy w' = default_proxy w /\
  cwd w' = cwd w /\ fieldnames w' = fieldnames w /\ is_new_file w' = is_new_file w.
Proof.
  intros Hf Hne. unfold_cycle. rewrite Hf. cbn.
  destruct e; cbn; try (repeat split; reflexivity).
  exfalso. exact (Hne returncode eq_refl).
Qed.

Lemma connect_error_propagates_witness :
  fst (test_and_record_speed not_installed new_york
         (fresh not_installed machine [])) = Raise (SystemExit 1).
Proof.
  apply (connect_error_propagates not_installed new_york
           (fresh not_installed machine []) FileNotFoundError).
  - reflexivity.
  - discriminate.
Defined.


(** X8. A cycle whose connect and measurement go through.  When the
    final disconnect returns, the cycle returns, and a non-empty result is
    recorded: the active file grows by one row, the location's fields
    merged with the measured values and cut to the header, and a new file
    first gets the keys of this record as its header.  An empty result
    is not recorded.  When the disconnect raises, the measurement is
    lost: the cycle ends in an exception and nothing is written. *)
Theorem measured_location_is_recorded E location w :
  connect_succeeds E (ISO location) w ->
  measurement_returns E (S (clock w)) ->
  let r := fst (test_and_record_speed E location w) in
  let w' := snd (test_and_record_speed E location w) in
  let speed_results := results_dict E (S (clock w) + 5) in
  let full_result := dict_merge (location_items location) speed_results in
  let disconnect := fault E (S (clock w) + 5) (subprocess_run disconnect_command) in
  RESULTS_CSV_FILE w' = RESULTS_CSV_FILE w /\
  (disconnect = None ->
   r = Ok tt /\
   (speed_results = [] -> cwd w' = cwd w /\ is_new_file w' = is_new_file w) /\
   (speed_results <> [] ->
    forall f, file_of (RESULTS_CSV_FILE w) (cwd w) = Some f ->
      active_rows w'
      = rows f ++ rows_written (is_new_file w) (fieldnames w) full_result /\
      is_new_file w' = false /\
      In (INFO, Saved (RESULTS_CSV_FILE w)) (log w'))) /\
  (forall e, disconnect = Some e ->
     (exists e', r = Raise e') /\ cwd w' = cwd w /\ is_new_file w' = is_new_file w).
Proof.
  intros [H1 H2] Hj.
  pose proof (Hj 0 st_Speedtest eq_refl) as F0.
  pose proof (Hj 1 st_get_servers eq_refl) as F1.
  pose proof (Hj 2 st_get_best_server eq_refl) as F2.
  pose proof (Hj 3 st_download eq_refl) as F3.
  pose proof (Hj 4 st_upload eq_refl) as F4.
  clear Hj. norm_nat F0. norm_nat F1. norm_nat F2. norm_nat F3. norm_nat F4.
  unfold active_rows, rows_written.
  unfold_cycle. rewrite H1. cbn. rewrite H2. cbn.
  unfold proxied, SOCKS_HOST, SOCKS_PORT, disconnect_command in *.
  rewrite ?Nat.add_succ_r, ?Nat.add_0_r.
  use_faults.
  match goal with
  | |- context [fault E ?n (subprocess_run ?c)] =>
      destruct (fault E n (subprocess_run c)) as [e0|] eqn:Hd
  end.
  - destruct e0; cbn;
      (destruct (results_dict E _) as [|kv speed_results]; cbn;
       (split; [reflexivity|]); (split; [discriminate|]);
       intros e' He'; repeat split; eauto).
  - destruct (results_dict E _) as [|kv speed_results] eqn:Hsr; cbn.
    + split; [reflexivity|]. split; [|discriminate]. intros _.
      split; [reflexivity|]. split; [auto|congruence].
    + unfold record_result, writeheader, writerow, write_line. unfold_monad. cbn.
      destruct (is_new_file w) eqn:Hnew; cbn;
        (split; [reflexivity|]); (split; [|discriminate]); intros _;
        (split; [reflexivity|]); (split; [discriminate|]); intros _ f Hfile;
        rewrite ?file_of_update, Hfile; cbn;
        (split; [rewrite <- ?app_assoc; reflexivity|]);
        (split; [first [reflexivity | assumption]
                |apply in_or_app; right; left; reflexivity]).
Qed.

Lemma measured_location_is_recorded_witness :
  let w := snd (open_results calm (fresh calm machine [])) in
  active_rows (snd (test_and_record_speed calm new_york w))
  = [ ["ISO"; "Country"; "City"; "Ping Estimate"; "download"; "upload"; "ping"];
      ["US"; "United States"; "New York"; "12"; "93000000.0"; "41000000.0"; "17.5"] ].
Proof.
  set (w := snd (open_results calm (fresh calm machine []))).
  assert (H1 : connect_succeeds calm (ISO new_york) w) by (split; reflexivity).
  assert (H2 : measurement_returns calm (S (clock w))) by (intros j op _; reflexivity).
  destruct (measured_location_is_recorded calm new_york w H1 H2) as (_ & Hok & _).
  destruct (Hok eq_refl) as (_ & _ & Hrows).
  destruct (Hrows ltac:(discriminate)
              {| mtime := now calm; rows := []; corrupt := None |} eq_refl)
    as (Hr & _).
  cbn zeta. rewrite Hr. reflexivity.
Defined.

(** X9. An interrupt during the measurement ([KeyboardInterrupt] or
    [SystemExit], which [except Exception] does not catch): the
    [finally] clause still puts [socket.socket] back, clears the default
    proxy and calls disconnect, the last call of the cycle; nothing is
    written; and once the disconnect returns, the interrupt leaves the
    cycle. *)
Theorem interrupt_leaves_after_cleanup E location w k e :
  connect_succeeds E (ISO location) w ->
  measurement_raises E (S (clock w)) k e ->
  is_Exception e = false ->
  let r := fst (test_and_record_speed E location w) in
  let w' := snd (test_and_record_speed E location w) in
  (exists before, trace w' = before ++ [subprocess_run disconnect_command]) /\
  socket_socket w' = socket_socket w /\ default_proxy w' = None /\
  cwd w' = cwd w /\ fieldnames w' = fieldnames w /\ is_new_file w' = is_new_file w /\
  (fault E (S (clock w) + k + 1) (subprocess_run disconnect_command) = None ->
   r = Raise e).
Proof.
  intros [H1 H2] [(op & Hop & Hk) Hj] He.
  assert (k < 5) by (apply lookup_lt_Some in Hop; simpl in Hop; lia).
  pose proof (Hj 0 st_Speedtest) as F0.
  pose proof (Hj 1 st_get_servers) as F1.
  pose proof (Hj 2 st_get_best_server) as F2.
  pose proof (Hj 3 st_download) as F3.
  clear Hj.
  unfold_cycle. rewrite H1. cbn. rewrite H2. cbn.
  unfold proxied, SOCKS_HOST, SOCKS_PORT, disconnect_command in *.
  destruct k as [|[|[|[|[|k]]]]]; [| | | | |lia];
    cbn in Hop; inversion Hop; subst op; clear Hop;
    repeat match goal with
      | F : ?a < ?b -> _ |- _ =>
          first [ specialize (F ltac:(lia) eq_refl); norm_nat F | clear F ]
      end;
    norm_nat Hk; rewrite ?Nat.add_succ_r, ?Nat.add_0_r;
    use_faults; rewrite He; cbn;
    match goal with
    | |- context [fault E ?n (subprocess_run ?c)] =>
        destruct (fault E n (subprocess_run c)) as [e0|] eqn:Hd;
        [destruct e0|]; cbn;
        (split; [eexists; reflexivity|]);
        repeat split; auto; intros; congruence
    end.
Qed.

Lemma interrupt_leaves_after_cleanup_witness :
  let w := fresh download_interrupted machine [] in
  fst (test_and_record_speed download_interrupted new_york w)
  = Raise KeyboardInterrupt.
Proof.
  set (w := fresh download_interrupted machine []).
  assert (H1 : connect_succeeds download_interrupted (ISO new_york) w).
  { split; reflexivity. }
  assert (H2 : measurement_raises download_interrupted (S (clock w)) 3
                 KeyboardInterrupt).
  { split.
    - exists st_download. split; reflexivity.
    - intros j op Hj Hop.
      destruct j as [|[|[|j]]]; [| | |lia]; inversion Hop; reflexivity. }
  apply (interrupt_leaves_after_cleanup download_interrupted new_york w 3 _
           H1 H2 eq_refl).
  reflexivity.
Defined.

End CycleEdges.

(* ===================================================================== *)
(** * The calls of a cycle and of the loop *)
(* ===================================================================== *)

Module TraceFacts.
Import PyStr Re Py Script Props PyFacts Frames CycleFacts LoopFacts StoreFacts CommandFacts.

Ltac trace_only := intros; assumption.

Lemma st_call_measuring E base op : preserves (measuring base) (st_call E op).
Proof.
  intros x [(mid & Ht & Hmid) Hr]. unfold st_call, external. unfold_monad. cbn.
  rewrite Hr.
  assert (H : measuring base (tick (speedtest op proxied) x)).
  { split; [|exact Hr]. exists (mid ++ [speedtest op proxied]). split.
    - cbn. rewrite Ht, <- app_assoc. reflexivity.
    - apply Forall_app. split; [exact Hmid|].
      constructor; [exists op; reflexivity | constructor]. }
  destruct (fault E (clock x) _); exact H.
Qed.

(** A measurement starts with the client's set-up, made through the
    proxy, and makes no call that is not a measurement through the
    proxy. *)
Lemma measure_measuring E w :
  measuring (trace w ++ [speedtest st_Speedtest proxied]) (snd (measure E w)).
Proof.
  unfold measure. rewrite !bind_modify, bind_logging.
  apply (snd_bind_preserves (measuring (trace w ++ [speedtest st_Speedtest proxied]))).
  - unfold st_call, external. unfold_monad. cbn.
    assert (H : forall r : result unit,
              measuring (trace w ++ [speedtest st_Speedtest proxied])
                (snd (r, tick (speedtest st_Speedtest proxied)
                           (set_log (log w ++ [(INFO, Note "initialising the speedtest client")])
                              (set_socket_socket socksocket
                                 (set_default_proxy (Some (SOCKS_HOST, SOCKS_PORT)) w)))))).
    { intros r. split; [|reflexivity]. exists []. cbn. rewrite app_nil_r. auto. }
    destruct (fault E (clock w) _); apply H.
  - intros _.
    repeat lazymatch goal with
      | |- preserves _ (logging _ _) => apply logging_preserves; trace_only
      | |- preserves _ (st_call _ _) => apply st_call_measuring
      | |- preserves _ _ => preserves_step
      end.
Qed.

Lemma guarded_measure_calls E iso w :
  exists mid,
    trace (snd (guarded_measure E iso w))
    = trace w ++ speedtest st_Speedtest proxied :: mid /\
    Forall proxied_measurement mid.
Proof.
  destruct (measure_measuring E w) as [(mid & Ht & Hmid) _].
  exists mid. split; [|exact Hmid].
  rewrite <- app_assoc in Ht. simpl in Ht. rewrite <- Ht.
  unfold guarded_measure, try_except.
  destruct (measure E w) as [[sr|e] x]; [reflexivity|].
  destruct (is_Exception e); reflexivity.
Qed.

Lemma restore_and_disconnect_trace E iso original_socket x :
  trace (snd (restore_and_disconnect E iso original_socket x))
  = trace x ++ [subprocess_run disconnect_command].
Proof.
  unfold restore_and_disconnect. rewrite !bind_modify, bind_logging.
  match goal with
  | |- trace (snd (bind (run_command E ?c ?b) ?f ?y)) = _ =>
      pose proof (run_command_trace E c b y) as H;
      unfold bind; destruct (run_command E c b y) as [[out|e] z]; exact H
  end.
Qed.

(** The calls of a cycle after its connect call. *)
Lemma measured_cycle_calls E location w :
  exists mid,
    trace (snd (measured_cycle E location w))
    = trace w ++ speedtest st_Speedtest proxied :: mid
        ++ [subprocess_run disconnect_command] /\
    Forall proxied_measurement mid.
Proof.
  destruct (guarded_measure_calls E (ISO location) w) as (mid & Ht & Hmid).
  exists mid. split; [|exact Hmid].
  unfold measured_cycle. rewrite bind_gets.
  apply (snd_bind_preserves
           (fun x => trace x = trace w ++ speedtest st_Speedtest proxied :: mid
                                 ++ [subprocess_run disconnect_command])).
  - rewrite snd_try_finally, restore_and_disconnect_trace, Ht, <- app_assoc.
    reflexivity.
  - intros [|kv speed_results]; [apply preserves_ret|].
    apply record_result_preserves; trace_only.
Qed.

(** The calls of a cycle. *)
Lemma cycle_trace E location w :
  let w' := snd (test_and_record_speed E location w) in
  let connect_call := subprocess_run (connect_command (ISO location)) in
  (connect_succeeds E (ISO location) w ->
   exists mid,
     trace w' = trace w ++ connect_call :: speedtest st_Speedtest proxied :: mid
                  ++ [subprocess_run disconnect_command] /\
     Forall proxied_measurement mid) /\
  (~ connect_succeeds E (ISO location) w -> trace w' = trace w ++ [connect_call]).
Proof.
  cbn zeta. split.
  - intros H. destruct (cycle_after_connect E location w H) as (w1 & -> & _ & Ht).
    destruct (measured_cycle_calls E location w1) as (mid & Hm & Hmid).
    exists mid. split; [|exact Hmid]. rewrite Hm, Ht, <- app_assoc. reflexivity.
  - intros H. unfold connect_succeeds in H.
    unfold test_and_record_speed, connect, run_command, subprocess, external, logging.
    unfold_monad. cbn.
    destruct (fault E (clock w) _) as [e|]; cbn.
    + destruct e; reflexivity.
    + destruct (fst (completed E (clock w) _) =? 0)%Z eqn:Hz; cbn; [|reflexivity].
      apply Z.eqb_eq in Hz. tauto.
Qed.

(** X10. The calls of a measurement cycle, whatever the environment does.
    The cycle starts with the connect call.  Unless that call ran and
    exited with code 0 it stays the only call.  Otherwise the client's
    set-up follows, then nothing but measurement calls, every one of
    them made through the SOCKS proxy, and the disconnect call closes
    the cycle, whether the measurement returned, failed or was
    interrupted. *)
Theorem cycle_calls E location w :
  let w' := snd (test_and_record_speed E location w) in
  let connect_call := subprocess_run (connect_command (ISO location)) in
  (connect_succeeds E (ISO location) w ->
   exists mid,
     trace w' = trace w ++ connect_call :: speedtest st_Speedtest proxied :: mid
                  ++ [subprocess_run disconnect_command] /\
     Forall proxied_measurement mid) /\
  (~ connect_succeeds E (ISO location) w -> trace w' = trace w ++ [connect_call]).
Proof. exact (cycle_trace E location w). Qed.

(** ** Connect calls of the loop *)

Lemma no_target_in_measurements mid :
  Forall proxied_measurement mid -> omap connect_target mid = [].
Proof.
  induction 1 as [|c mid [op ->] _ IH]; [reflexivity|]. simpl. exact IH.
Qed.

(** A cycle makes one connect call, for its own location. *)
Lemma cycle_connects_once E location w :
  exists new,
    trace (snd (test_and_record_speed E location w)) = trace w ++ new /\
    omap connect_target new = [ISO location].
Proof.
  destruct (cycle_trace E location w) as [Hyes Hno]. cbn zeta in Hyes, Hno.
  destruct (fault E (clock w) (subprocess_run (connect_command (ISO location))))
    as [e|] eqn:Hf.
  - eexists. split; [apply Hno|reflexivity].
    intros [H _]. congruence.
  - destruct (Z.eq_dec (fst (completed E (clock w) (connect_command (ISO location)))) 0%Z)
      as [Hz|Hz].
    + destruct (Hyes (conj Hf Hz)) as (mid & Ht & Hmid).
      eexists. split; [exact Ht|].
      cbn. rewrite omap_app, (no_target_in_measurements mid Hmid). reflexivity.
    + eexists. split; [apply Hno|reflexivity]. intros [_ H]. contradiction.
Qed.

Lemma bind_cases {A B} (m : M World A) (f : A -> M World B) w :
  (exists a, fst (m w) = Ok a /\ bind m f w = f a (snd (m w))) \/
  (exists e, fst (m w) = Raise e /\ bind m f w = (Raise e, snd (m w))).
Proof.
  unfold bind. destruct (m w) as [[a|e] x]; simpl; eauto.
Qed.

Lemma snd_external E c w : snd (external E c w) = tick c w.
Proof. unfold external. destruct (fault E (clock w) c); reflexivity. Qed.

Lemma loop_connects E tested_nodes total locations : forall i w,
  let r := fst (location_loop E tested_nodes total i locations w) in
  let w' := snd (location_loop E tested_nodes total i locations w) in
  let todo := map ISO (untested tested_nodes locations) in
  exists new,
    trace w' = trace w ++ new /\
    (exists k, omap connect_target new = take k todo) /\
    (r = Ok tt -> omap connect_target new = todo).
Proof.
  induction locations as [|location rest IH]; intros i w; cbn zeta.
  - exists []. cbn. rewrite app_nil_r. split; [reflexivity|].
    split; [exists 0|]; reflexivity.
  - cbn [location_loop untested List.filter].
    destruct (bool_decide (ISO location ∈ tested_nodes)) eqn:Hin; cbn [negb].
    + rewrite bind_logging.
      destruct (IH (S i) (set_log (log w ++ [(INFO, Skipping (i + 1) total location)]) w))
        as (new & Ht & Hk & Hok).
      exists new. auto.
    + rewrite bind_assoc, bind_logging, bind_assoc.
      set (x0 := set_log (log w ++ [(INFO, Processing (i + 1) total location)]) w).
      destruct (cycle_connects_once E location x0) as (cnew & Hc & Hone).
      change (trace x0) with (trace w) in Hc.
      match goal with
      | |- context [bind ?m ?f x0] =>
          destruct (bind_cases m f x0) as [([] & _ & ->)|(e & _ & ->)]
      end.
      * set (x1 := snd (test_and_record_speed E location x0)) in *.
        rewrite bind_assoc, bind_gets.
        match goal with
        | |- context [bind ?m ?f x1] =>
            destruct (bind_cases m f x1) as [([] & _ & ->)|(e & _ & ->)]
        end; rewrite snd_external.
        -- destruct (IH (S i) (tick (flush_file (RESULTS_CSV_FILE x1)) x1))
             as (new & Ht & [k Hk] & Hok).
           exists (cnew ++ flush_file (RESULTS_CSV_FILE x1) :: new).
           cbn zeta in *. rewrite Ht. cbn [trace tick]. rewrite Hc, <- !app_assoc.
           split; [reflexivity|].
           rewrite omap_app, Hone.
           change (omap connect_target (flush_file (RESULTS_CSV_FILE x1) :: new))
             with (omap connect_target new).
           split; [exists (S k); rewrite Hk; reflexivity|].
           intros Hr. rewrite (Hok Hr). reflexivity.
        -- exists (cnew ++ [flush_file (RESULTS_CSV_FILE x1)]). cbn [fst snd trace tick].
           rewrite Hc, <- app_assoc. split; [reflexivity|].
           rewrite omap_app, Hone. cbn.
           split; [exists 1; reflexivity | discriminate].
      * exists cnew. cbn [fst snd]. split; [exact Hc|]. rewrite Hone.
        split; [exists 1; reflexivity | discriminate].
Qed.

(** X11. The connect calls of the loop, whatever the environment does:
    they are made in the order of the catalog, one per location that is
    not in the resume set, up to the point where the loop stops; a loop
    that runs to its end has connected once to each of these locations
    and to no other. *)
Theorem loop_connects_in_catalog_order E tested_nodes total i locations w :
  let r := fst (location_loop E tested_nodes total i locations w) in
  let w' := snd (location_loop E tested_nodes total i locations w) in
  let todo := map ISO (untested tested_nodes locations) in
  exists new,
    trace w' = trace w ++ new /\
    (exists k, omap connect_target new = take k todo) /\
    (r = Ok tt -> omap connect_target new = todo).
Proof. exact (loop_connects E tested_nodes total locations i w). Qed.

End TraceFacts.

(* ===================================================================== *)
(** * Invariants of a whole run *)
(* ===================================================================== *)

Module RunInvariants.
Import PyStr Re Py Script Props PyFacts Frames CycleFacts LoopFacts StoreFacts MainFacts CommandFacts TraceFacts.

Ltac easy_frame := intros; assumption.

(** ** Invariants of a whole run *)

Section RunInvariant.
Variable E : Env.
Variable P : World -> Prop.

Hypothesis Hlog : forall w entry, P w -> P (set_log (log w ++ [entry]) w).
Hypothesis Hcall : forall w c, True -> P w -> P (tick c w).
Hypothesis Hdest :
  forall w v, P w -> P (set_fs (fs_write dest_config_path v (fs w)) w).
Hypothesis Hbackup :
  forall w v, P w -> P (set_fs (fs_write dest_backup_path v (fs w)) w).
Hypothesis Hcwd : forall w v, P w -> P (set_cwd v w).
Hypothesis Hnames : forall w v, P w -> P (set_fieldnames v w).
Hypothesis Hnew : forall w v, P w -> P (set_is_new_file v w).
Hypothesis Hfile : forall w v, P w -> P (set_RESULTS_CSV_FILE v w).
Hypothesis Hcycle : forall location, preserves P (test_and_record_speed E location).

Ltac run_frame :=
  repeat lazymatch goal with
    | |- preserves _ (logging _ _) => apply logging_preserves; assumption
    | |- preserves _ (external _ _) =>
        apply (external_preserves E P (fun _ => True) Hcall); exact I
    | |- preserves _ (write_path dest_config_path _) =>
        apply preserves_modify; intros ? ?; apply Hdest; assumption
    | |- preserves _ (write_path dest_backup_path _) =>
        apply preserves_modify; intros ? ?; apply Hbackup; assumption
    | |- preserves _ (try_except _ _) => fail
    | |- preserves _ _ => preserves_step
    end; auto.

Lemma backup_move_preserves : preserves P (move E dest_config_path dest_backup_path).
Proof. unfold move. run_frame. Qed.

Lemma restore_move_preserves : preserves P (move E dest_backup_path dest_config_path).
Proof. unfold move. run_frame. Qed.

Lemma rmtree_preserves : preserves P (rmtree E dest_config_path).
Proof. unfold rmtree. run_frame. Qed.

Lemma copytree_preserves original_user :
  preserves P (copytree E (source_config_path original_user) dest_config_path).
Proof.
  unfold copytree. run_frame.
  apply preserves_try_except; [run_frame|].
  intros e handler He. inversion He; subst handler. run_frame.
Qed.

Lemma acquire_preserves original_user : preserves P (acquire E original_user).
Proof.
  unfold acquire, path_exists. run_frame.
  - apply backup_move_preserves.
  - apply copytree_preserves.
Qed.

Lemma release_preserves : preserves P (release E).
Proof.
  unfold release, path_exists. run_frame.
  - apply rmtree_preserves.
  - apply restore_move_preserves.
Qed.

Lemma loop_preserves tested_nodes total locations : forall i,
  preserves P (location_loop E tested_nodes total i locations).
Proof.
  induction locations as [|location rest IH]; intros i; cbn [location_loop].
  - apply preserves_ret.
  - apply preserves_bind; [|intros _; apply IH].
    destruct (bool_decide (ISO location ∈ tested_nodes)); run_frame.
Qed.

Lemma main_body_preserves original_user : preserves P (main_body E original_user).
Proof.
  unfold main_body.
  repeat lazymatch goal with
    | |- preserves _ (acquire _ _) => apply acquire_preserves
    | |- preserves _ (logging _ _) => apply logging_preserves; assumption
    | |- preserves _ (run_command _ _ _) =>
        apply run_command_preserves with (ok := fun _ => True); auto
    | |- preserves _ (get_locations _) =>
        apply get_locations_preserves with (ok := fun _ => True); auto
    | |- preserves _ (load_tested_nodes _) =>
        apply load_tested_nodes_preserves with (ok := fun _ => True); auto
    | |- preserves _ (open_results _) =>
        apply open_results_preserves with (ok := fun _ => True); auto
    | |- preserves _ (location_loop _ _ _ _ _) => apply loop_preserves
    | |- preserves _ (bind _ _) => apply preserves_bind; [|intros ?]
    end.
Qed.

Lemma guarded_run_preserves original_user : preserves P (guarded_run E original_user).
Proof.
  unfold guarded_run. apply preserves_try_finally.
  - apply preserves_try_except; [apply main_body_preserves|].
    intros e handler He. destruct e; inversion He; subst handler;
      apply preserves_modify; intros ? ?; apply Hlog; assumption.
  - unfold cleanup. run_frame; [apply release_preserves|].
    apply run_command_preserves with (ok := fun _ => True); auto.
Qed.

Lemma main_preserves : preserves P (main E).
Proof.
  unfold main, path_is_dir, print. run_frame.
  apply guarded_run_preserves.
Qed.

End RunInvariant.

(** A cycle leaves the socket class as it found it, and the default
    proxy unset or as it found it. *)
Lemma cycle_route_kept E s p location :
  preserves (route_kept s p) (test_and_record_speed E location).
Proof.
  unfold test_and_record_speed.
  apply preserves_bind; [apply logging_preserves; easy_frame|]. intros _.
  apply preserves_bind.
  - apply connect_preserves with (ok := fun _ => True); auto; easy_frame.
  - intros [|]; cbn [negb]; [|apply preserves_ret].
    intros x [Hs Hp].
    destruct (measured_cycle_reverts E location x) as [Hs' Hp'].
    split; [congruence | auto].
Qed.

(** X12. No orphaned proxy state, for the whole run: whatever happens,
    the script ends with [socket.socket] as it found it and the default
    proxy either unset or as it found it; a process whose connections
    were direct at the start makes direct connections at the end. *)
Theorem run_keeps_network_route E w :
  let w' := snd (main E w) in
  socket_socket w' = socket_socket w /\
  (default_proxy w' = None \/ default_proxy w' = default_proxy w) /\
  (current_route w = Direct -> current_route w' = Direct).
Proof.
  cbn zeta.
  assert (H : route_kept (socket_socket w) (default_proxy w) (snd (main E w))).
  { apply (main_preserves E (route_kept (socket_socket w) (default_proxy w)));
      try easy_frame.
    - apply cycle_route_kept.
    - split; auto. }
  destruct H as [Hs Hp]. split; [exact Hs|]. split; [exact Hp|].
  unfold current_route. rewrite Hs. destruct Hp as [-> | ->]; [|auto].
  intros _. destruct (socket_socket w); reflexivity.
Qed.

(** X13. The user's configuration is only read: whatever happens, the
    directories under [/home] are after the run what they were before. *)
Theorem run_leaves_user_configuration E w :
  home_config (fs (snd (main E w))) = home_config (fs w).
Proof.
  apply (main_preserves E (fun x => home_config (fs x) = home_config (fs w)));
    try easy_frame; [|reflexivity].
  intros location.
  apply test_and_record_speed_preserves with (ok := fun _ => True);
    auto; try easy_frame.
  intros speed_results _. apply record_result_preserves; easy_frame.
Qed.

(** ** The end of a run *)

Lemma release_returns E original w :
  release_uninterrupted E -> in_custody original w -> fst (release E w) = Ok tt.
Proof.
  intros Hrel [Hb Hc].
  destruct w as [n calls records [home config backup] sock proxy files name names new].
  simpl in Hb, Hc. subst backup.
  unfold release, rmtree, move, external, path_exists, write_path, logging.
  unfold_monad.
  destruct config as [[content|entries]|], original as [[content'|children]|]; cbn;
    rewrite ?(proj1 (Hrel _)), ?(proj2 (Hrel _)); cbn;
    rewrite ?(proj1 (Hrel _)), ?(proj2 (Hrel _)); cbn;
    try tauto; reflexivity.
Qed.

(** However the body ends, root's configuration is in custody when the
    cleanup starts. *)
Lemma caught_body_keeps_custody E original_user w :
  root_backup (fs w) = None -> backup_uninterrupted E ->
  in_custody (root_config (fs w))
    (snd (try_except (main_body E original_user) main_handlers w)).
Proof.
  intros Hnone Hmove.
  assert (H : hoare (fun x => fs x = fs w)
                (try_except (main_body E original_user) main_handlers)
                (fun _ x => in_custody (root_config (fs w)) x)).
  { apply hoare_try_except
      with (Q1 := fun _ x => in_custody (root_config (fs w)) x).
    - apply main_body_keeps_custody; auto.
    - auto.
    - intros e. destruct e; simpl; intros x Hx; exact Hx. }
  apply H. reflexivity.
Qed.

Lemma cleanup_ends E original x :
  release_uninterrupted E -> in_custody original x ->
  (exists before,
     trace (snd (cleanup E x)) = before ++ [subprocess_run disconnect_command]) /\
  ((forall n, fault E n (subprocess_run disconnect_command) = None) ->
   fst (cleanup E x) = Ok tt).
Proof.
  intros Hrel Hc. pose proof (release_returns E original x Hrel Hc) as Hr.
  unfold cleanup.
  destruct (bind_cases (release E)
              (fun _ => bind (logging INFO (Note "making sure the VPN is disconnected"))
                          (fun _ => bind (run_command E [ADGUARD_CLI_PATH; "disconnect"] false)
                                      (fun _ => logging INFO (Note "end"))))
              x) as [([] & _ & ->)|(e & He & _)]; [|congruence].
  set (x1 := snd (release E x)). rewrite bind_logging.
  set (x2 := set_log _ x1).
  pose proof (run_command_trace E [ADGUARD_CLI_PATH; "disconnect"] false x2) as Ht.
  split.
  - exists (trace x2). unfold bind.
    destruct (run_command E _ false x2) as [[out|e] x3]; exact Ht.
  - intros Hd.
    destruct (run_command_unchecked E [ADGUARD_CLI_PATH; "disconnect"] x2 (Hd _))
      as [out Hout].
    unfold bind. destruct (run_command E _ false x2) as [[out'|e] x3];
      [reflexivity | discriminate].
Qed.

(** X14. The end of a run that got past the start-up checks, when no
    backup was lying around and the file operations of backup and
    release are not interrupted: whatever happened in between (a
    failure, an interrupt, an exit), the last call the script makes is
    the disconnect, and when that call returns the process exits with
    status 0. *)
Theorem run_ends_with_disconnect E original_user w :
  preconditions_hold E w original_user ->
  root_backup (fs w) = None ->
  backup_uninterrupted E -> release_uninterrupted E ->
  (exists before,
     trace (snd (main E w)) = before ++ [subprocess_run disconnect_command]) /\
  ((forall n, fault E n (subprocess_run disconnect_command) = None) ->
   exit_code E w = 0%Z).
Proof.
  intros Hpre Hnone Hmove Hrel.
  pose proof (caught_body_keeps_custody E original_user (started w) Hnone Hmove) as Hc.
  destruct (cleanup_ends E _ _ Hrel Hc) as [Ht Hok].
  split.
  - rewrite (main_guarded E w original_user Hpre). unfold guarded_run.
    rewrite snd_try_finally. exact Ht.
  - intros Hd. rewrite exit_code_main, (main_guarded E w original_user Hpre).
    rewrite guarded_run_ends, (Hok Hd). reflexivity.
Qed.

Lemma run_ends_with_disconnect_witness :
  exit_code disk_full (fresh disk_full machine []) = 0%Z.
Proof.
  assert (Hpre : preconditions_hold disk_full (fresh disk_full machine []) "alice").
  { repeat split; try discriminate. eexists. reflexivity. }
  apply (run_ends_with_disconnect disk_full "alice" (fresh disk_full machine []) Hpre).
  - reflexivity.
  - intros n. reflexivity.
  - intros n. split; reflexivity.
  - intros n. reflexivity.
Defined.

End RunInvariants.

(* ===================================================================== *)
(** * File names, the temporary copy, and reading back *)
(* ===================================================================== *)

Module FileFacts.
Import PyStr Re Py Script Props PyFacts Frames CycleFacts ResumeFacts LoopFacts StoreFacts MainFacts.

Ltac easy_frame := intros; assumption.

(** ** File names *)

Lemma list_ascii_app (a b : string) :
  list_ascii_of_string (a +:+ b) = list_ascii_of_string a ++ list_ascii_of_string b.
Proof. induction a as [|c a IH]; simpl; [reflexivity|]. rewrite IH. reflexivity. Qed.

Lemma starts_with_app pre s : starts_with pre (pre ++ s) = true.
Proof.
  induction pre as [|c pre IH]; simpl; [reflexivity|].
  rewrite Ascii.eqb_refl. exact IH.
Qed.

Lemma startswith_append (a b : string) : startswith (a +:+ b) a = true.
Proof. unfold startswith. rewrite list_ascii_app. apply starts_with_app. Qed.

Lemma endswith_append (a b : string) : endswith (a +:+ b) b = true.
Proof.
  unfold endswith. rewrite list_ascii_app, rev_app_distr. apply starts_with_app.
Qed.

(** X15. File names: the result file a run starts by default is named so
    that the resume scan of a later run finds it, whatever the time
    stamp; the log file the script keeps in the same directory is never
    taken for a result file. *)
Theorem result_file_names E config files :
  is_result_file (RESULTS_CSV_FILE (fresh E config files)) = true /\
  is_result_file (LOG_FILE E) = false.
Proof.
  unfold is_result_file, fresh, LOG_FILE. cbn [RESULTS_CSV_FILE]. split.
  - rewrite startswith_append. cbn [andb].
    unfold endswith. rewrite !list_ascii_app, !rev_app_distr, <- app_assoc.
    apply starts_with_app.
  - apply andb_false_iff. right. unfold endswith.
    rewrite !list_ascii_app, !rev_app_distr. reflexivity.
Qed.

(** ** The temporary copy *)

Lemma copy_has_no_sockets : forall n, no_sockets (copy_ignoring_sockets n) = true.
Proof.
  fix IH 1. intros [content|entries]; [reflexivity|].
  simpl. induction entries as [|[name child] es IHes]; [reflexivity|].
  destruct (endswith name ".socket") eqn:He; [exact IHes|].
  simpl. rewrite He, (IH child). exact IHes.
Qed.

Lemma copy_of_clean_tree : forall n, no_sockets n = true -> copy_ignoring_sockets n = n.
Proof.
  fix IH 1. intros [content|entries]; [reflexivity|].
  simpl. intros H. f_equal.
  induction entries as [|[name child] es IHes]; [reflexivity|].
  apply andb_true_iff in H. destruct H as [H Hes].
  apply andb_true_iff in H. destruct H as [Hname Hchild].
  apply negb_true_iff in Hname. rewrite Hname, (IH child Hchild), (IHes Hes).
  reflexivity.
Qed.

(** X16. Taking custody, when nothing interrupts it: root's configuration,
    if there is one, is moved to the backup path, and the destination
    then holds a copy of the user's directory from which every entry
    named [*.socket], at any depth, is left out and which is otherwise
    the user's directory; a directory without such entries is copied as
    it is. *)
Theorem acquire_installs_copy E original_user w entries :
  fs_read (source_config_path original_user) (fs w) = Some (Dir entries) ->
  root_backup (fs w) = None ->
  backup_uninterrupted E -> copy_uninterrupted E original_user ->
  let w' := snd (acquire E original_user w) in
  fst (acquire E original_user w) = Ok tt /\
  root_backup (fs w') = root_config (fs w) /\
  root_config (fs w') = Some (copy_ignoring_sockets (Dir entries)) /\
  no_sockets (copy_ignoring_sockets (Dir entries)) = true /\
  (no_sockets (Dir entries) = true -> root_config (fs w') = Some (Dir entries)) /\
  home_config (fs w') = home_config (fs w).
Proof.
  intros Hsrc Hnone Hmove Hcopy.
  assert (Hrun : fst (acquire E original_user w) = Ok tt /\
                 root_backup (fs (snd (acquire E original_user w))) = root_config (fs w) /\
                 root_config (fs (snd (acquire E original_user w)))
                 = Some (copy_ignoring_sockets (Dir entries)) /\
                 home_config (fs (snd (acquire E original_user w))) = home_config (fs w)).
  { destruct w as [n calls records [home config backup] sock proxy files name names new].
    simpl in Hsrc, Hnone. subst backup.
    unfold acquire, move, copytree, external, path_exists, write_path, logging.
    unfold_monad.
    destruct config as [[content|children]|]; cbn;
      rewrite ?Hmove, ?Hcopy; cbn; rewrite ?Hmove, ?Hcopy; cbn;
      rewrite Hsrc; cbn; repeat split; reflexivity. }
  cbn zeta. destruct Hrun as (Hr & Hb & Hc & Hh).
  split; [exact Hr|]. split; [exact Hb|]. split; [exact Hc|].
  split; [apply copy_has_no_sockets|]. split; [|exact Hh].
  intros Hclean. rewrite Hc, (copy_of_clean_tree _ Hclean). reflexivity.
Qed.

Lemma acquire_installs_copy_witness :
  root_config (fs (snd (acquire calm "alice" (fresh calm machine []))))
  = Some (Dir [("vpn.conf", File "alice-token")]).
Proof.
  destruct (acquire_installs_copy calm "alice" (fresh calm machine [])
              [("vpn.conf", File "alice-token"); ("agent.socket", File "")])
    as (_ & _ & Hc & _).
  - reflexivity.
  - reflexivity.
  - intros n. reflexivity.
  - intros n. reflexivity.
  - exact Hc.
Defined.

(** ** What is written is read back *)

Lemma dict_keys_set {V} (k : string) (v : V) (d : dict V) :
  dict_keys (dict_set k v d)
  = dict_keys d ++ (if existsb (String.eqb k) (dict_keys d) then [] else [k]).
Proof.
  induction d as [|[k' v'] d IH]; simpl; [reflexivity|].
  destruct (String.eqb k k') eqn:Hk; simpl.
  - rewrite app_nil_r. reflexivity.
  - rewrite IH. reflexivity.
Qed.

Lemma dict_set_NoDup {V} (k : string) (v : V) (d : dict V) :
  NoDup (dict_keys d) -> NoDup (dict_keys (dict_set k v d)).
Proof.
  intros Hd. rewrite dict_keys_set.
  destruct (existsb (String.eqb k) (dict_keys d)) eqn:Hk.
  - rewrite app_nil_r. exact Hd.
  - apply NoDup_app. split; [exact Hd|]. split; [|apply NoDup_singleton].
    intros x Hx Hx'. apply list_elem_of_singleton in Hx'. subst x.
    assert (existsb (String.eqb k) (dict_keys d) = true); [|congruence].
    apply existsb_exists. exists k. split; [|apply String.eqb_refl].
    apply list_elem_of_In. exact Hx.
Qed.

Lemma dict_set_keeps_key {V} (k k' : string) (v : V) (d : dict V) :
  In k (dict_keys d) -> In k (dict_keys (dict_set k' v d)).
Proof. rewrite dict_keys_set, in_app_iff. auto. Qed.

Lemma dict_merge_keys {V} (d2 : dict V) : forall d1 : dict V,
  NoDup (dict_keys d1) ->
  NoDup (dict_keys (dict_merge d1 d2)) /\
  forall k, In k (dict_keys d1) -> In k (dict_keys (dict_merge d1 d2)).
Proof.
  unfold dict_merge.
  induction d2 as [|[k v] d2 IH]; intros d1 Hd; simpl; [auto|].
  destruct (IH (dict_set k v d1) (dict_set_NoDup k v d1 Hd)) as [Hn Hk].
  split; [exact Hn|]. intros k' Hk'. apply Hk, dict_set_keeps_key, Hk'.
Qed.

(** The keys of a record: the four of the location come first, and no
    key comes twice. *)
Lemma record_keys location speed_results :
  let full_result := dict_merge (location_items location) speed_results in
  NoDup (dict_keys full_result) /\ In "ISO" (dict_keys full_result).
Proof.
  cbn zeta.
  assert (Hd : NoDup (dict_keys (location_items location))).
  { cbn. repeat constructor; rewrite ?list_elem_of_In; simpl;
      intuition discriminate. }
  destruct (dict_merge_keys speed_results _ Hd) as [Hn Hk].
  split; [exact Hn|]. apply Hk. simpl. auto.
Qed.

(** The value a reader finds under [ISO] in a row that was cut to a
    header naming [ISO] once. *)
Lemma row_iso_shape (header : list string) (record : dict string) (x : string) :
  NoDup header -> In "ISO" header ->
  row_iso (DictReader_row header (shape header record)) = Some x <->
  x <> "" /\ dict_get "ISO" record = Some x.
Proof.
  intros Hn Hin. split.
  - intros H. apply row_iso_sound in H. destruct H as (Hne & j & Hj & Hx).
    split; [exact Hne|].
    pose proof (proj2 (shape_cells header record) j "ISO" Hj) as Hs.
    assert (Hv : Some (match dict_get "ISO" record with Some v => v | None => "" end)
                 = Some x) by (etransitivity; [symmetry; exact Hs | exact Hx]).
    inversion Hv as [Hv']. destruct (dict_get "ISO" record) as [v|]; congruence.
  - intros [Hne Hx]. apply list_elem_of_In, list_elem_of_lookup in Hin.
    destruct Hin as [j Hj].
    apply (row_iso_complete header (shape header record) j x Hj).
    + intros j' Hj'. exact (NoDup_lookup header j' j "ISO" Hn Hj' Hj).
    + pose proof (proj2 (shape_cells header record) j "ISO" Hj) as Hs.
      rewrite Hx in Hs. exact Hs.
    + exact Hne.
Qed.

(** X17. What the loop writes, the resume scan of the next run reads
    back.  In a file that was new when the loop wrote the records of the
    measured locations into it, and that is read without error, the scan
    finds exactly the non-empty values the records carry under [ISO]:
    when the measured values have no field of that name, these are the
    codes of the measured locations. *)
Theorem resume_reads_what_was_recorded
    (measured : list (Location * dict string)) (f : csvfile) :
  measured <> [] ->
  rows f = rows_for [] (records_of measured) -> corrupt f = None ->
  (forall x,
     x ∈ fst (read_tested f) <->
     x <> "" /\ exists record, In record (records_of measured) /\
                              dict_get "ISO" record = Some x) /\
  ((forall m, In m measured -> dict_get "ISO" (snd m) = None) ->
   forall x, x ∈ fst (read_tested f) <->
             x <> "" /\ exists m, In m measured /\ ISO (fst m) = x).
Proof.
  intros Hne Hrows Hc.
  destruct measured as [|[location speed_results] rest]; [congruence|]. clear Hne.
  set (measured := (location, speed_results) :: rest) in *.
  set (header := dict_keys (dict_merge (location_items location) speed_results)).
  assert (Hrows' : rows f = header :: map (shape header) (records_of measured))
    by exact Hrows.
  destruct (record_keys location speed_results) as [Hn Hin]. cbn zeta in Hn, Hin.
  destruct (read_tested_exact f header _ Hc Hrows') as [_ Hexact].
  assert (Hfirst : forall x,
             x ∈ fst (read_tested f) <->
             x <> "" /\ exists record, In record (records_of measured) /\
                                      dict_get "ISO" record = Some x).
  { intros x. rewrite Hexact. split.
    - intros (r & Hr & Hx). apply in_map_iff in Hr.
      destruct Hr as (record & <- & Hrec).
      apply (row_iso_shape header record x Hn Hin) in Hx.
      destruct Hx as [Hx1 Hx2]. eauto.
    - intros (Hx1 & record & Hrec & Hx2).
      exists (shape header record). split; [apply in_map; exact Hrec|].
      apply (row_iso_shape header record x Hn Hin). auto. }
  split; [exact Hfirst|].
  intros Hfree x. rewrite Hfirst.
  assert (Hiso : forall m, In m measured ->
             dict_get "ISO" (dict_merge (location_items (fst m)) (snd m))
             = Some (ISO (fst m))).
  { intros m Hm. unfold dict_merge. rewrite dict_get_fold_set.
    rewrite last_value_absent; [reflexivity|].
    intros v Hv. specialize (Hfree m Hm).
    clear - Hv Hfree. induction (snd m) as [|[k' v'] d IH]; [destruct Hv|].
    cbn [dict_get] in Hfree. destruct Hv as [Hv|Hv].
    - inversion Hv; subst. rewrite String.eqb_refl in Hfree. discriminate Hfree.
    - revert Hfree. destruct (String.eqb "ISO" k'); [discriminate|]. auto. }
  split.
  - intros (Hx & record & Hrec & Hget). split; [exact Hx|].
    apply in_map_iff in Hrec. destruct Hrec as (m & <- & Hm).
    exists m. split; [exact Hm|]. rewrite (Hiso m Hm) in Hget. congruence.
  - intros (Hx & m & Hm & <-). split; [exact Hx|].
    exists (dict_merge (location_items (fst m)) (snd m)).
    split; [apply (in_map (fun m => dict_merge (location_items (fst m)) (snd m))); exact Hm|].
    apply Hiso, Hm.
Qed.

Lemma resume_reads_what_was_recorded_witness :
  "US" ∈ fst (read_tested
                {| mtime := 0;
                   rows := rows_for [] (records_of [(new_york, measured)]);
                   corrupt := None |}).
Proof.
  destruct (resume_reads_what_was_recorded [(new_york, measured)]
              {| mtime := 0;
                 rows := rows_for [] (records_of [(new_york, measured)]);
                 corrupt := None |})
    as [_ H]; [discriminate | reflexivity | reflexivity |].
  apply H.
  - intros m [<-|[]]. reflexivity.
  - split; [discriminate|]. exists (new_york, measured). simpl. auto.
Defined.

End FileFacts.

(* ===================================================================== *)
(** * Records and headers *)
(* ===================================================================== *)

Module HeaderFacts.
Import PyStr Re Py Script Props PyFacts Frames CycleFacts ResumeFacts LoopFacts StoreFacts MainFacts FileFacts.

Ltac logged := rewrite ?in_app_iff; simpl; auto 10.

Lemma dict_merge_keys_prefix {V} (d2 : dict V) : forall d1 : dict V,
  exists extra, dict_keys (dict_merge d1 d2) = dict_keys d1 ++ extra.
Proof.
  unfold dict_merge.
  induction d2 as [|[k v] d2 IH]; intros d1; simpl.
  - exists []. rewrite app_nil_r. reflexivity.
  - destruct (IH (dict_set k v d1)) as [extra Hx].
    rewrite Hx, dict_keys_set, <- app_assoc. eauto.
Qed.

Lemma last_value_unique {V} (k : string) (d : dict V) : forall acc v,
  NoDup (dict_keys d) -> dict_get k d = Some v -> last_value k d acc = Some v.
Proof.
  unfold last_value.
  induction d as [|[k' v'] d IH]; intros acc v Hn Hg; simpl in *; [discriminate|].
  apply NoDup_cons in Hn. destruct Hn as [Hk' Hn].
  destruct (String.eqb k k') eqn:Hk.
  - inversion Hg; subst v'. apply String.eqb_eq in Hk. subst k'.
    fold (last_value k d (Some v)). apply last_value_absent.
    intros v' Hin. apply Hk'. apply list_elem_of_In.
    apply (in_map fst) in Hin. exact Hin.
  - apply IH; assumption.
Qed.

(** X18. The layout of a record, [{**location, **speed_results}]: its
    keys, which head a new result file, start with the four fields of
    the location in the order ISO, Country, City, Ping Estimate, and no
    key comes twice; a field the measurement does not carry keeps the
    location's value, and a measured value goes under its own name, also
    where it has the name of a location field. *)
Theorem record_layout location (speed_results : dict string) :
  let full_result := dict_merge (location_items location) speed_results in
  (exists extra,
     dict_keys full_result = ["ISO"; "Country"; "City"; "Ping Estimate"] ++ extra) /\
  NoDup (dict_keys full_result) /\
  (forall k, dict_get k speed_results = None ->
             dict_get k full_result = dict_get k (location_items location)) /\
  (NoDup (dict_keys speed_results) ->
   forall k v, dict_get k speed_results = Some v -> dict_get k full_result = Some v).
Proof.
  cbn zeta. split; [|split; [|split]].
  - apply (dict_merge_keys_prefix speed_results (location_items location)).
  - apply record_keys.
  - intros k Hk. unfold dict_merge. rewrite dict_get_fold_set.
    apply last_value_absent. intros v Hv.
    induction speed_results as [|[k' v'] d IH]; [destruct Hv|].
    cbn [dict_get] in Hk. destruct Hv as [Hv|Hv].
    + inversion Hv; subst. rewrite String.eqb_refl in Hk. discriminate Hk.
    + revert Hk. destruct (String.eqb k k'); [discriminate|]. auto.
  - intros Hn k v Hk. unfold dict_merge. rewrite dict_get_fold_set.
    apply last_value_unique; assumption.
Qed.

End HeaderFacts.

(* ===================================================================== *)
(** * The working directory *)
(* ===================================================================== *)

Module DirFacts.
Import PyStr Re Py Script Props PyFacts Frames CycleFacts ResumeFacts LoopFacts StoreFacts MainFacts RunInvariants.

Ltac easy_frame := intros; assumption.



Section OtherFiles.
Variable E : Env.
Variables active name : string.
Variable v : option csvfile.
Hypothesis Hother : name <> active.

Let P := keeps_file active name v.





End OtherFiles.

(** The result file [load_tested_nodes] makes the active one. *)
Lemma load_tested_nodes_file E x :
  let x' := snd (load_tested_nodes E x) in
  cwd x' = cwd x /\
  RESULTS_CSV_FILE x'
  = match latest_result_file (cwd x) with
    | Some latest_file => latest_file
    | None => RESULTS_CSV_FILE x
    end.
Proof.
  cbn zeta. unfold_load.
  destruct (latest_result_file (cwd x)) as [latest_file|]; cbn; [|auto].
  destruct (fault E (clock x) _) as [e|]; cbn.
  - destruct (is_Exception e); cbn; auto.
  - destruct (snd (read_tested _)) as [e|]; cbn; [|auto].
    destruct (is_Exception e); cbn; auto.
Qed.





End DirFacts.

(* ===================================================================== *)
(** * A result file that cannot be read *)
(* ===================================================================== *)

Module HeaderRun.
Import PyStr Re Py Script Props PyFacts Frames CycleFacts ResumeFacts LoopFacts StoreFacts MainFacts RunInvariants FileFacts DirFacts.

Ltac easy_frame := intros; assumption.

(** Reading the header of a file whose first line cannot be read: only
    [StopIteration] is caught there, so the error leaves [open_results];
    nothing is written. *)
Lemma open_results_unreadable E w f e :
  file_of (RESULTS_CSV_FILE w) (cwd w) = Some f ->
  corrupt f = Some (0, e) ->
  fault E (clock w) (open_file (RESULTS_CSV_FILE w) "a") = None ->
  fault E (S (clock w)) (open_file (RESULTS_CSV_FILE w) "r") = None ->
  fst (open_results E w) = Raise e /\ cwd (snd (open_results E w)) = cwd w.
Proof.
  intros Hf Hc Ha Hr.
  destruct f as [modified lines damage]. simpl in Hc. subst damage.
  unfold open_results, open_append, external. unfold_monad. cbn.
  rewrite Hf. unfold size_is_zero, csv_rows. cbn.
  destruct lines; cbn; rewrite Ha; cbn; rewrite Hf; cbn; rewrite Hr; cbn;
    rewrite Hf; cbn; split; reflexivity.
Qed.

(** X20. A result file whose first line cannot be read ends every run
    that resumes from it.  The resume scan puts up with the file, but
    its header is read a second time when the file is opened for
    writing, and there only [StopIteration] is caught: whatever else
    happens, the body of the run ends in an exception, and the working
    directory is left as it was: nothing is measured into it. *)
Theorem unreadable_header_ends_run E original_user w name f e :
  latest_result_file (cwd w) = Some name ->
  file_of name (cwd w) = Some f ->
  corrupt f = Some (0, e) ->
  (forall n mode, fault E n (open_file name mode) = None) ->
  (exists e', fst (main_body E original_user w) = Raise e') /\
  cwd (snd (main_body E original_user w)) = cwd w.
Proof.
  intros Hlatest Hf Hc Hopen.
  set (Q1 := fun x : World => cwd x = cwd w).
  set (Q := fun (r : result unit) (x : World) =>
              (exists e', r = Raise e') /\ cwd x = cwd w).
  assert (Hq : forall e' x, Q1 x -> Q (Raise e') x).
  { intros e' x Hx. split; [eauto | exact Hx]. }
  assert (H : hoare Q1 (main_body E original_user) Q).
  { unfold main_body.
    apply hoare_bind with (Q1 := fun _ => Q1);
      [apply preserves_hoare, acquire_preserves; easy_frame | |exact Hq].
    intros _. apply hoare_bind with (Q1 := fun _ => Q1);
      [apply preserves_hoare, logging_preserves; easy_frame | |exact Hq].
    intros _. apply hoare_bind with (Q1 := fun _ => Q1);
      [apply preserves_hoare, run_command_preserves with (ok := fun _ => True);
       auto; easy_frame | |exact Hq].
    intros _. apply hoare_bind with (Q1 := fun _ => Q1);
      [apply preserves_hoare, get_locations_preserves with (ok := fun _ => True);
       auto; easy_frame | |exact Hq].
    intros all_locations.
    apply hoare_bind
      with (Q1 := fun _ x => cwd x = cwd w /\ RESULTS_CSV_FILE x = name).
    - intros x Hx. destruct (load_tested_nodes_file E x) as [Hc' Hf'].
      cbn zeta in Hc', Hf'. unfold Q1 in Hx. rewrite Hx, Hlatest in Hf'.
      split; congruence.
    - intros tested_nodes x [Hx Hn].
      destruct (open_results_unreadable E x f e) as [Hr Hw];
        rewrite ?Hn, ?Hx; auto.
      unfold bind. destruct (open_results E x) as [[u|e'] x']; simpl in *;
        [discriminate|].
      split; [eauto | congruence].
    - intros e' x [Hx _]. apply Hq. exact Hx. }
  apply H. reflexivity.
Qed.

Lemma unreadable_header_ends_run_witness :
  let w := fresh calm machine [(old_results, unreadable_results)] in
  cwd (snd (main_body calm "alice" w)) = [(old_results, unreadable_results)].
Proof.
  apply (unreadable_header_ends_run calm "alice"
           (fresh calm machine [(old_results, unreadable_results)])
           old_results unreadable_results csv_error); reflexivity.
Defined.

End HeaderRun.
